(** * qde: differential equations as QUBO problems

    A shallow embedding of [qde.py].  The module turns a linear
    differential equation, sampled on a grid, into quadratic minimization
    problems; for first order equations it builds a sequence of QUBO
    matrices, hands each one to an external sampler and decodes the samples
    back into function values.

    Modelling conventions.
    - Python [int]s are [Z]; an index is checked against the length of
      the array, negative indices counting from the end, before it is used
      as a position in a list.
    - numpy/Python floating point numbers are modelled by rationals [Q].
      A float constant that the source writes as a quotient of integer
      literals is the float64 nearest to the quotient ([py_truediv]), an
      exact dyadic rational; the arithmetic on arrays is exact, so
      the rounding of sums, products and quotients of arrays, [inf] and
      [nan] are outside the model.  Where the order of the operands
      matters for Leibniz equality the operands are kept in the order of
      the source.
    - one dimensional arrays are [list Q], two dimensional arrays are lists
      of rows.  In [build_quadratic_minimization_vector], [build_qubo_matrix],
      [solve_block] and [solve] the array [f] is a float64 array; the
      variants with the suffix [_of] carry the element type of [f] and cover
      int64 arrays as well, for which the store into [d[0]] in
      [build_quadratic_minimization_vector] truncates.
    - a Python exception is the [Raise] branch of [result]; statements are
      sequenced with the bind of that monad.
    - the external collaborators ([findiff.coefficients] and
      [QBSolv().sample_qubo]) are section variables. *)

From Stdlib Require Import ZArith QArith Qpower Qfield Qabs Lia.
From stdpp Require Import list strings gmap.

Open Scope Z_scope.

(** ** Exceptions and the result monad *)

(** The exceptions of Python that the module can raise, and
    [UninitialisedRead], which is not an exception of Python: it marks a
    read of an entry of an [np.empty] array that was never assigned (numpy
    would give an arbitrary number there). *)
Inductive exn : Type :=
| IndexError
| ValueError
| NotImplementedError
| NameError (name : string)
| StopIteration
| UninitialisedRead.

Inductive result (A : Type) : Type :=
| Ok (a : A)
| Raise (e : exn).

Arguments Ok {A} a.
Arguments Raise {A} e.

#[global] Instance result_ret : MRet result := @Ok.

#[global] Instance result_bind : MBind result :=
  fun A B (k : A -> result B) (m : result A) =>
    match m with
    | Ok a => k a
    | Raise e => Raise e
    end.

(** [for x in xs: body] over an accumulator, stopping at the first
    exception. *)
Fixpoint for_each {A S : Type} (xs : list A) (body : S -> A -> result S) (s : S)
  : result S :=
  match xs with
  | [] => Ok s
  | x :: xs' => s' ← body s x; for_each xs' body s'
  end.

(** ** Python and numpy primitives *)

(** [range(start, stop)] *)
Definition py_range (start stop : Z) : list Z :=
  map (fun k => start + Z.of_nat k) (seq 0 (Z.to_nat (stop - start))).

(** [range(start, stop, step)]: [ValueError] for a zero step. *)
Definition py_range_step (start stop step : Z) : result (list Z) :=
  if step =? 0 then Raise ValueError
  else if 0 <? step then
    Ok (map (fun k => start + Z.of_nat k * step)
            (seq 0 (Z.to_nat ((stop - start + step - 1) / step))))
  else
    Ok (map (fun k => start + Z.of_nat k * step)
            (seq 0 (Z.to_nat ((start - stop - step - 1) / (- step))))).

(** [b ** e] for an [int] base, as a real number. *)
Definition py_pow (b e : Z) : Q := Qpower (inject_Z b) e.

(** Index normalisation of Python sequences and numpy arrays: an index in
    [-len, len) is accepted, negative ones counting from the end. *)
Definition py_index (len : nat) (i : Z) : result nat :=
  if (0 <=? i) && (i <? Z.of_nat len) then Ok (Z.to_nat i)
  else if (- Z.of_nat len <=? i) && (i <? 0) then Ok (Z.to_nat (Z.of_nat len + i))
  else Raise IndexError.

(** [a[i]] *)
Definition get {A : Type} (l : list A) (i : Z) : result A :=
  n ← py_index (length l) i;
  match l !! n with
  | Some x => Ok x
  | None => Raise IndexError
  end.

(** [a[i] = x] *)
Definition set_at {A : Type} (l : list A) (i : Z) (x : A) : result (list A) :=
  n ← py_index (length l) i; Ok (<[n := x]> l).

(** [a[i] += x] *)
Definition add_at (l : list Q) (i : Z) (x : Q) : result (list Q) :=
  v ← get l i; set_at l i (v + x)%Q.

(** [a[i] -= x] *)
Definition sub_at (l : list Q) (i : Z) (x : Q) : result (list Q) :=
  v ← get l i; set_at l i (v - x)%Q.

(** [m[i, j]] *)
Definition get2 (m : list (list Q)) (i j : Z) : result Q :=
  row ← get m i; get row j.

(** [m[i, j] = x] *)
Definition set_at2 (m : list (list Q)) (i j : Z) (x : Q) : result (list (list Q)) :=
  row ← get m i; row' ← set_at row j x; set_at m i row'.

(** [m[i, j] += x] *)
Definition add_at2 (m : list (list Q)) (i j : Z) (x : Q) : result (list (list Q)) :=
  v ← get2 m i j; set_at2 m i j (v + x)%Q.

(** [np.sum] of a one dimensional array. *)
Definition np_sum (l : list Q) : Q := fold_left Qplus l 0%Q.

(** ** float64 constants *)

(** [floor (log2 (n / d))] for positive integers [n] and [d]. *)
Definition log2_floor (n d : Z) : Z :=
  let e := Z.log2 n - Z.log2 d in
  if (if 0 <=? e then n <? d * 2 ^ e else n * 2 ^ (- e) <? d) then e - 1 else e.

(** The float64 nearest to a rational, ties going to the even
    significand: the rational is scaled by a power of two so that its
    integer part has 53 bits, rounded to an integer and scaled back.  The
    range of the exponent is not modelled (no overflow, no subnormal
    numbers). *)
Definition round_float64 (x : Q) : Q :=
  let n := Z.abs (Qnum x) in
  let d := Z.pos (Qden x) in
  if n =? 0 then 0%Q
  else
    let s := 52 - log2_floor n d in
    let num := if 0 <=? s then n * 2 ^ s else n in
    let den := if 0 <=? s then d else d * 2 ^ (- s) in
    let q := num / den in
    let r := num mod den in
    let m := if 2 * r <? den then q
             else if den <? 2 * r then q + 1
             else if Z.even q then q else q + 1 in
    Qred (inject_Z (Z.sgn (Qnum x) * m) * Qpower 2 (- s)).

(** [a / b] for [int] literals with a non-zero divisor: a float64. *)
Definition py_truediv (a b : Z) : Q := round_float64 (inject_Z a / inject_Z b).

(** The sum of an array of float64 numbers taken from left to right with
    a rounding after every addition, as Python's [sum] and, for fewer than
    eight elements, [np.sum] take it. *)
Definition float64_sum (l : list Q) : Q :=
  fold_left (fun acc x => round_float64 (acc + x)) l 0%Q.

(** ** StencilLibrary: [get_finite_difference_coefficients] *)

(** The branches for odd accuracy orders: [None] stands for
    [coeffs is None].  The arrays of accuracy order 1 hold integers; those
    of the orders 3 and 5 are float64 arrays, whose quotients are
    rounded. *)
Definition closed_form_coefficients (deriv_order accuracy_order : Z)
  : option (list Q) :=
  if accuracy_order =? 1 then
    if deriv_order =? 1 then Some [(-1)%Q; 1%Q]
    else if deriv_order =? 2 then Some [1%Q; (-2)%Q; 1%Q]
    else None
  else if accuracy_order =? 3 then
    if deriv_order =? 1
    then Some [py_truediv (-11) 6; 3%Q; py_truediv (-3) 2; py_truediv 1 3]
    else None
  else if accuracy_order =? 5 then
    if deriv_order =? 1
    then Some [py_truediv (-137) 60; 5%Q; (-5)%Q; py_truediv 10 3;
               py_truediv (-5) 4; py_truediv 1 5]
    else None
  else None.

Section Stencil.

(** [findiff.coefficients(deriv, acc)['forward']['coefficients']], the
    external generator used for even accuracy orders. *)
Variable findiff_forward : Z -> Z -> result (list Q).

Definition get_finite_difference_coefficients (deriv_order accuracy_order : Z)
  : result (list Q) :=
  if deriv_order =? 0 then Ok [1%Q]
  else if accuracy_order mod 2 =? 0 then findiff_forward deriv_order accuracy_order
  else match closed_form_coefficients deriv_order accuracy_order with
       | None => Raise NotImplementedError
       | Some coeffs => Ok coeffs
       end.

End Stencil.

(** ** RangeSelector: [get_deriv_range] *)

Definition get_deriv_range (deriv_ind point_ind last_point_ind max_considered_accuracy : Z)
  : Z * Z * Z * Z :=
  let deriv_order := deriv_ind - 1 in
  let selected_accuracy :=
    if deriv_order =? 0 then 1
    else
      let max_possible_accuracy := last_point_ind - point_ind - deriv_order + 1 in
      Z.min max_considered_accuracy max_possible_accuracy in
  let length := deriv_order + selected_accuracy in
  let last_scheme_ind_global := point_ind + length - 1 in
  (deriv_order, selected_accuracy, length, last_scheme_ind_global).

Definition selected_accuracy_of (r : Z * Z * Z * Z) : Z :=
  let '(_, selected_accuracy, _, _) := r in selected_accuracy.

(** ** FunctionalAssembler *)

(** [funcs.shape[0]] and [funcs.shape[1]] of a two dimensional array given
    by its rows. *)
Definition shape0 (funcs : list (list Q)) : Z := Z.of_nat (length funcs).
Definition shape1 (funcs : list (list Q)) : Z :=
  match funcs with
  | [] => 0
  | row :: _ => Z.of_nat (length row)
  end.

(** [np.zeros(n)] and [np.zeros((n, m))]: [ValueError] for a negative
    dimension. *)
Definition np_zeros (n : Z) : result (list Q) :=
  if n <? 0 then Raise ValueError else Ok (replicate (Z.to_nat n) 0%Q).
Definition np_zeros2 (n m : Z) : result (list (list Q)) :=
  if (n <? 0) || (m <? 0) then Raise ValueError
  else Ok (replicate (Z.to_nat n) (replicate (Z.to_nat m) 0%Q)).

(** The integer variables visible in the body of [add_quadratic_terms]
    when the loops start: the function binds the count of known points to
    the local name [first_unknown_index_global]; the module itself binds
    only [findiff], [np], [QBSolv] and its functions, no integer. *)
Definition quadratic_terms_namespace (known_points : list Q) : gmap string Z :=
  {[ "first_unknown_index_global" := Z.of_nat (length known_points) ]}.

(** Reading a variable: [NameError] when the name is bound nowhere. *)
Definition load_name (namespace : gmap string Z) (name : string) : result Z :=
  match namespace !! name with
  | Some v => Ok v
  | None => Raise (NameError name)
  end.

Section Assembler.

Variable findiff_forward : Z -> Z -> result (list Q).

Definition add_linear_terms (d : list Q) (point_ind last_unknown_ind_global : Z)
    (funcs : list (list Q)) (dx : Q) (known_points : list Q)
    (max_considered_accuracy : Z) : result (list Q) :=
  let first_unknown_ind_global := Z.of_nat (length known_points) in
  for_each (py_range 1 (shape0 funcs)) (fun d deriv_ind =>
    let '(deriv_order, accuracy_order, length, last_scheme_ind_global) :=
      get_deriv_range deriv_ind point_ind last_unknown_ind_global
                      max_considered_accuracy in
    if (last_scheme_ind_global <? first_unknown_ind_global) || (accuracy_order <? 1)
    then Ok d
    else
      coeffs ← get_finite_difference_coefficients findiff_forward deriv_order accuracy_order;
      f_shift ← get2 funcs 0 point_ind;
      f_mult ← get2 funcs deriv_ind point_ind;
      let func_factor := (2 * f_shift * f_mult / dx ^ deriv_order)%Q in
      for_each (py_range 0 length) (fun d scheme_ind =>
        let unknown_ind := point_ind + scheme_ind - first_unknown_ind_global in
        if unknown_ind <? 0 then Ok d
        else
          c ← get coeffs scheme_ind;
          add_at d unknown_ind (func_factor * c)%Q) d) d.

(** The body of [add_quadratic_terms], with the name under which the
    loops read the index of the first unknown point as a parameter. *)
Definition add_quadratic_terms_reading (name : string)
    (H : list (list Q)) (d : list Q) (point_ind last_unknown_ind_global : Z)
    (funcs : list (list Q)) (dx : Q) (known_points : list Q)
    (max_considered_accuracy : Z) : result (list (list Q) * list Q) :=
  let ns := quadratic_terms_namespace known_points in
  for_each (py_range 1 (shape0 funcs)) (fun '(H, d) deriv_ind1 =>
    let '(deriv_order1, accuracy_order1, length1, last_scheme_ind_global1) :=
      get_deriv_range deriv_ind1 point_ind last_unknown_ind_global
                      max_considered_accuracy in
    if accuracy_order1 <? 1 then Ok (H, d)
    else
      coeffs1 ← get_finite_difference_coefficients findiff_forward deriv_order1
                                                    accuracy_order1;
      for_each (py_range 1 (shape0 funcs)) (fun '(H, d) deriv_ind2 =>
        let '(deriv_order2, accuracy_order2, length2, last_scheme_ind_global2) :=
          get_deriv_range deriv_ind2 point_ind last_unknown_ind_global
                          max_considered_accuracy in
        first ← load_name ns name;
        if ((last_scheme_ind_global1 <? first) && (last_scheme_ind_global2 <? first))
           || (accuracy_order2 <? 1)
        then Ok (H, d)
        else
          coeffs2 ← get_finite_difference_coefficients findiff_forward deriv_order2
                                                      accuracy_order2;
          f1 ← get2 funcs deriv_ind1 point_ind;
          f2 ← get2 funcs deriv_ind2 point_ind;
          let func_factor := (f1 * f2 / dx ^ (deriv_order1 + deriv_order2))%Q in
          for_each (py_range 0 length1) (fun '(H, d) scheme_ind1 =>
            first ← load_name ns name;
            let unknown_ind1 := point_ind + scheme_ind1 - first in
            for_each (py_range 0 length2) (fun '(H, d) scheme_ind2 =>
              first ← load_name ns name;
              let unknown_ind2 := point_ind + scheme_ind2 - first in
              if (unknown_ind1 <? 0) && (unknown_ind2 <? 0) then Ok (H, d)
              else
                c1 ← get coeffs1 scheme_ind1;
                c2 ← get coeffs2 scheme_ind2;
                let h_factor := (func_factor * c1 * c2)%Q in
                if (0 <=? unknown_ind1) && (0 <=? unknown_ind2) then
                  H' ← add_at2 H unknown_ind1 unknown_ind2 h_factor;
                  Ok (H', d)
                else
                  let unknown_ind := Z.max unknown_ind1 unknown_ind2 in
                  first ← load_name ns name;
                  let known_ind := Z.min unknown_ind1 unknown_ind2 + first in
                  known ← get known_points known_ind;
                  d' ← add_at d unknown_ind (h_factor * known)%Q;
                  Ok (H, d')) (H, d)) (H, d)) (H, d)) (H, d).

(** [add_quadratic_terms] as written: the loops read
    [first_unknown_ind_global]. *)
Definition add_quadratic_terms :=
  add_quadratic_terms_reading "first_unknown_ind_global".

(** The body of [build_quadratic_minimization_matrices_general], over the
    same parameter. *)
Definition build_quadratic_minimization_matrices_general_reading (name : string)
    (funcs : list (list Q)) (dx : Q) (known_points : list Q)
    (max_considered_accuracy points_per_step : Z)
  : result (list (list Q) * list Q) :=
  let first_unknown_ind_global := Z.of_nat (length known_points) in
  let unknowns := Z.min points_per_step (shape1 funcs - first_unknown_ind_global) in
  let last_unknown_ind_global := first_unknown_ind_global + unknowns - 1 in
  H ← np_zeros2 unknowns unknowns;
  d ← np_zeros unknowns;
  for_each (py_range 0 (last_unknown_ind_global + 1)) (fun '(H, d) point_ind =>
    d' ← add_linear_terms d point_ind last_unknown_ind_global funcs dx known_points
                          max_considered_accuracy;
    add_quadratic_terms_reading name H d' point_ind last_unknown_ind_global funcs dx
                                known_points max_considered_accuracy) (H, d).

(** [build_quadratic_minimization_matrices_general] as written: it calls
    [add_quadratic_terms]. *)
Definition build_quadratic_minimization_matrices_general :=
  build_quadratic_minimization_matrices_general_reading "first_unknown_ind_global".

End Assembler.

(** ** More numpy primitives: slices, diagonals, broadcasting, blocks *)

(** Clamping of a slice bound to [0, len], negative bounds counting from
    the end. *)
Definition py_clamp (len : nat) (i : Z) : nat :=
  if i <? 0 then Z.to_nat (Z.max 0 (Z.of_nat len + i))
  else Z.to_nat (Z.min (Z.of_nat len) i).

(** [a[start:stop]] *)
Definition py_slice {A : Type} (l : list A) (start stop : Z) : list A :=
  let s := py_clamp (length l) start in
  let e := py_clamp (length l) stop in
  take (e - s)%nat (drop s l).

(** Broadcasting of a one dimensional value to a target of length [n]: the
    lengths agree, or the value has a single element. *)
Definition np_broadcast_to {A : Type} (vals : list A) (n : nat) : result (list A) :=
  if (length vals =? n)%nat then Ok vals
  else match vals with
       | [v] => Ok (replicate n v)
       | _ => Raise ValueError
       end.

(** [a[start:stop] = vals] *)
Definition slice_assign {A : Type} (l : list A) (start stop : Z) (vals : list A)
  : result (list A) :=
  let s := py_clamp (length l) start in
  let e := py_clamp (length l) stop in
  vals' ← np_broadcast_to vals (e - s)%nat;
  Ok (take s l ++ vals' ++ drop (s + (e - s))%nat l).

(** [a[start:stop] += vals] *)
Definition slice_add (l : list Q) (start stop : Z) (vals : list Q) : result (list Q) :=
  vals' ← np_broadcast_to vals (length (py_slice l start stop));
  slice_assign l start stop (zip_with Qplus (py_slice l start stop) vals').

(** [np.diag(v, k)] for a one dimensional [v]: a square matrix of size
    [len(v) + |k|] with [v] on the [k]-th diagonal. *)
Definition np_diag (v : list Q) (k : Z) : list (list Q) :=
  let n := (length v + Z.abs_nat k)%nat in
  map (fun i =>
         map (fun j => if Z.of_nat j =? Z.of_nat i + k
                       then default 0%Q (v !! Nat.min i j) else 0%Q)
             (seq 0 n))
      (seq 0 n).

(** [A + B] for square matrices: equal sizes, or one of them is 1x1 and is
    broadcast over the other. *)
Definition np_add2 (A B : list (list Q)) : result (list (list Q)) :=
  if (length A =? length B)%nat then Ok (zip_with (zip_with Qplus) A B)
  else match A, B with
       | [[a]], _ => Ok (map (map (fun b => (a + b)%Q)) B)
       | _, [[b]] => Ok (map (map (fun a => (a + b)%Q)) A)
       | _, _ => Raise ValueError
       end.

(** [np.reshape(flat, (rows, cols))]: the rows are cut off the flat list
    one after the other. *)
Definition np_reshape2 (flat : list Q) (rows cols : nat) : result (list (list Q)) :=
  if (length flat =? rows * cols)%nat then Ok (reshape (replicate rows cols) flat)
  else Raise ValueError.

(** [np.block] of one row of blocks with [rows] rows each, and of a grid of
    such blocks. *)
Definition hstack (rows : nat) (blocks : list (list (list Q))) : list (list Q) :=
  map (fun i => mjoin (map (fun b => default [] (b !! i)) blocks)) (seq 0 rows).

Definition np_block2 (rows : nat) (grid : list (list (list (list Q)))) : list (list Q) :=
  mjoin (map (hstack rows) grid).

(** ** QUBOBuilder, first order path *)

Definition build_quadratic_minimization_matrix (npoints : Z) (dx : Q)
  : result (list (list Q)) :=
  H ← np_add2 (np_diag (replicate (Z.to_nat (npoints - 1)) 2%Q) 0)
              (np_diag (replicate (Z.to_nat (npoints - 2)) (-1)%Q) 1);
  H ← np_add2 H (np_diag (replicate (Z.to_nat (npoints - 2)) (-1)%Q) (-1));
  H ← set_at2 H (-1) (-1) 1%Q;
  Ok (map (map (fun h => (h / dx ^ 2)%Q)) H).

(** For a float64 array [f]: every store keeps the number as it is.
    [build_quadratic_minimization_vector_of] below carries the element type
    of [f]. *)
Definition build_quadratic_minimization_vector (f : list Q) (dx y1 : Q)
  : result (list Q) :=
  let d := map Qopp (py_slice f 0 (-1)) in
  d ← slice_add d 0 (-1) (py_slice f 1 (-1));
  d ← sub_at d 0 (y1 / dx)%Q;
  Ok (map (fun x => (x * 2 / dx)%Q) d).

(** ** FixedPointCodec *)

Definition j_range (qbits_integer qbits_decimal : Z) : list Z :=
  py_range (- qbits_integer + 1) (qbits_decimal + 1).

Definition build_discretization_matrix (qbits_integer qbits_decimal : Z)
  : result (list (list Q)) :=
  let js := j_range qbits_integer qbits_decimal in
  np_reshape2 (j1 ← js; j2 ← js; [py_pow 2 (- (j1 + j2))]) (length js) (length js).

Definition build_discretization_vector (qbits_integer qbits_decimal : Z) : list Q :=
  map (fun j => py_pow 2 (- j)) (j_range qbits_integer qbits_decimal).

(** ** [build_qubo_matrix] *)

Definition build_qubo_matrix (f : list Q) (dx y1 : Q)
    (H_discret_elem : list (list Q)) (d_discret_elem : list Q) (signed : bool)
  : result (list (list Q)) :=
  H_cont ← build_quadratic_minimization_matrix (Z.of_nat (length f)) dx;
  d_cont ← build_quadratic_minimization_vector f dx y1;
  d_cont ← (if signed
            then d0 ← get d_discret_elem 0; sub_at d_cont 0 (2 * d0 / dx ^ 2)%Q
            else Ok d_cont);
  let H_bin :=
    np_block2 (length H_discret_elem)
      (map (fun row => map (fun val => map (map (fun h => (h * val)%Q)) H_discret_elem) row)
           H_cont) in
  let d_bin := mjoin (map (fun val => map (fun w => (w * val)%Q) d_discret_elem) d_cont) in
  np_add2 H_bin (np_diag d_bin 0).

(** ** BlockSolverLoop: [solve] *)

(** One record of the sample set returned by the sampler: the values of the
    binary variables in the order of the QUBO's rows, the energy, and the
    number of occurrences. *)
Record sample : Type := {
  sample_values : list Z;
  sample_energy : Q;
  sample_num_occurrences : Z
}.

(** [np.array(rows)] for a list of lists: all rows have one length.  The
    result is the rows and their common length; the empty list gives a one
    dimensional empty array, whose [shape[0]] is 0. *)
Definition np_array2 (rows : list (list Z)) : result (list (list Z) * nat) :=
  match rows with
  | [] => Ok ([], O)
  | r :: _ =>
      if forallb (fun r' => (length r' =? length r)%nat) rows
      then Ok (rows, length r) else Raise ValueError
  end.

(** [a.reshape((a.shape[0], -1, n))] for a two dimensional [a] with [m]
    columns: the missing dimension is inferred only when the others have a
    non-zero product that divides the size. *)
Definition np_reshape3 (a : list (list Z)) (m n : nat) : result (list (list (list Z))) :=
  if ((length a * n =? 0) || negb ((length a * m) mod (length a * n) =? 0))%nat
  then Raise ValueError
  else Ok (map (fun row => reshape (replicate (m / n)%nat n) row) a).

(** [next(iterator)] *)
Definition py_next {A : Type} (l : list A) : result A :=
  match l with
  | x :: _ => Ok x
  | [] => Raise StopIteration
  end.

Section Solve.

(** [QBSolv().sample_qubo(Q, **kwargs)], the external sampler.  Its
    records are listed in the order of iteration over the sample set. *)
Variable sample_qubo : list (list Q) -> list sample.

Definition decode_group (d_discret_elem : list Q) (bits : list Z) : Q :=
  np_sum (zip_with (fun b w => (inject_Z b * w)%Q) bits d_discret_elem).

Definition solve_block (f : list Q) (dx : Q) (qbits_integer : Z)
    (signed : bool) (points_per_qubo : Z) (average_solutions : bool)
    (H_discret_elem : list (list Q)) (d_discret_elem : list Q)
    (state : list (option Q) * Q) (i : Z) : result (list (option Q) * Q) :=
  let '(solution, error) := state in
  cell ← get solution (i - 1);
  y1 ← match cell with Some v => Ok v | None => Raise UninitialisedRead end;
  let next_i := Z.min (i + points_per_qubo) (Z.of_nat (length f)) in
  let next_f := py_slice f (i - 1) next_i in
  Qm ← build_qubo_matrix next_f dx y1 H_discret_elem d_discret_elem signed;
  let sample_set := sample_qubo Qm in
  '(samples_bin, m) ← np_array2 (map sample_values sample_set);
  samples_bin_structured ← np_reshape3 samples_bin m (length d_discret_elem);
  let samples_cont := map (map (decode_group d_discret_elem)) samples_bin_structured in
  f0 ← get next_f 0;
  let error_shift :=
    ((y1 ^ 2 + 2 * y1 * f0 * dx) / dx ^ 2
     + np_sum (map (fun x => x ^ 2) (py_slice next_f 0 (-1))))%Q in
  let samples_cont :=
    if signed
    then map (map (fun x => (x - py_pow 2 (qbits_integer - 1))%Q)) samples_cont
    else samples_cont in
  let error_shift :=
    if signed
    then (error_shift
          + (py_pow 4 (qbits_integer - 1) + py_pow 2 qbits_integer * (y1 + f0 * dx))
            / dx ^ 2)%Q
    else error_shift in
  '(solution, solution_energy) ←
    (if average_solutions then
       let num_occurrences := map (fun s => inject_Z (sample_num_occurrences s)) sample_set in
       let weights := map (fun n => (n / np_sum num_occurrences)%Q) num_occurrences in
       let averaged :=
         map (fun c => np_sum (zip_with (fun row w => (default 0 (row !! c) * w)%Q)
                                        samples_cont weights))
             (seq 0 (m / length d_discret_elem)) in
       solution ← slice_assign solution i next_i (map Some averaged);
       let all_energies := map sample_energy sample_set in
       Ok (solution, np_sum (zip_with Qmult all_energies weights))
     else
       best ← get samples_cont 0;
       solution ← slice_assign solution i next_i (map Some best);
       first ← py_next sample_set;
       Ok (solution, sample_energy first));
  Ok (solution, (error + (solution_energy + error_shift))%Q).

Definition solve (f : list Q) (dx y1 : Q) (qbits_integer qbits_decimal : Z)
    (signed : bool) (points_per_qubo : Z) (average_solutions : bool)
  : result (list (option Q) * Q) :=
  let solution := replicate (length f) (@None Q) in
  solution ← set_at solution 0 (Some y1);
  H_discret_elem ← build_discretization_matrix qbits_integer qbits_decimal;
  let d_discret_elem := build_discretization_vector qbits_integer qbits_decimal in
  let error := 0%Q in
  indices ← py_range_step 1 (Z.of_nat (length f)) points_per_qubo;
  for_each indices
    (solve_block f dx qbits_integer signed points_per_qubo average_solutions
                 H_discret_elem d_discret_elem)
    (solution, error).

End Solve.

(** ** Reading matrices *)

(** The entry of a matrix at a row and a column, when both exist. *)
Definition entry (M : list (list Q)) (i j : nat) : option Q :=
  row ← M !! i; row !! j.

(** A square matrix of size [n]. *)
Definition square (n : nat) (M : list (list Q)) : Prop :=
  length M = n /\ Forall (fun row => length row = n) M.

(** A symmetric square matrix of size [n]: [M[i][j] = M[j][i]]. *)
Definition symmetric (n : nat) (M : list (list Q)) : Prop :=
  square n M /\
  forall i j, (i < n)%nat -> (j < n)%nat -> entry M i j = entry M j i.

(** The entries of [2 I - shift(+1) - shift(-1)] with a 1 in the last
    diagonal place, before the division by [dx ** 2]. *)
Definition H_cont_entry (m i j : nat) : Q :=
  if (i =? j)%nat then (if (i =? m - 1)%nat then 1%Q else 2%Q)
  else if ((j =? i + 1) || (i =? j + 1))%nat then (-1)%Q
  else 0%Q.

(** The blocks handed to [np.block] in [build_qubo_matrix]: one copy of the
    discretization matrix for each entry of the continuous matrix, scaled by
    that entry. *)
Definition scale_block (Ht : list (list Q)) (val : Q) : list (list Q) :=
  map (map (fun h => (h * val)%Q)) Ht.
Definition block_grid (Ht Hc : list (list Q)) : list (list (list (list Q))) :=
  map (fun row => map (scale_block Ht) row) Hc.

(** ** The state of the block loop *)

(** The entries of the solution array before index [k] have been assigned. *)
Definition assigned_upto (k : nat) (solution : list (option Q)) : Prop :=
  forall j, (j < k)%nat -> exists v, solution !! j = Some (Some v).

(** The energy that [solve] takes from a sample set: the occurrence
    weighted mean of the energies, or the energy of the first record. *)
Definition reported_energy (average_solutions : bool) (sample_set : list sample)
  : option Q :=
  if average_solutions then
    let num_occurrences := map (fun s => inject_Z (sample_num_occurrences s)) sample_set in
    let weights := map (fun n => (n / np_sum num_occurrences)%Q) num_occurrences in
    Some (np_sum (zip_with Qmult (map sample_energy sample_set) weights))
  else sample_energy <$> head sample_set.

(** ** The quadratic terms of one grid point, as a sum *)

(** Sum of a rational valued function over a list. *)
Definition qsum {A : Type} (g : A -> Q) (l : list A) : Q :=
  fold_right (fun x acc => (g x + acc)%Q) 0%Q l.

Section QuadraticTerms.

Variable findiff_forward : Z -> Z -> result (list Q).
Variables (funcs : list (list Q)) (dx : Q) (known_points : list Q).
Variables (max_considered_accuracy point_ind last_unknown_ind_global : Z).

(** The scheme of the term with index [k] at the point: its range of scheme
    indices, its weight at a scheme index and the value of its multiplier
    function (0 where the source would have raised). *)
Definition term_scheme (k : Z) : Z * Z * Z * Z :=
  get_deriv_range k point_ind last_unknown_ind_global max_considered_accuracy.

Definition term_range (k : Z) : list Z :=
  let '(_, _, length, _) := term_scheme k in py_range 0 length.

Definition term_coeff (k s : Z) : Q :=
  let '(deriv_order, accuracy_order, _, _) := term_scheme k in
  match get_finite_difference_coefficients findiff_forward deriv_order accuracy_order with
  | Ok coeffs => default 0%Q (coeffs !! Z.to_nat s)
  | Raise _ => 0%Q
  end.

Definition term_func (k : Z) : Q :=
  match get2 funcs k point_ind with
  | Ok v => v
  | Raise _ => 0%Q
  end.

(** What the pair of terms [k1], [k2] at the scheme indices [s1], [s2] adds
    to the entry [(a, b)] of [H]. *)
Definition quadratic_term (a b : nat) (k1 s1 k2 s2 : Z) : Q :=
  let first := Z.of_nat (length known_points) in
  let '(deriv_order1, accuracy_order1, _, last1) := term_scheme k1 in
  let '(deriv_order2, accuracy_order2, _, last2) := term_scheme k2 in
  let unknown_ind1 := point_ind + s1 - first in
  let unknown_ind2 := point_ind + s2 - first in
  if (1 <=? accuracy_order1) && (1 <=? accuracy_order2)
     && negb ((last1 <? first) && (last2 <? first))
     && (0 <=? unknown_ind1) && (0 <=? unknown_ind2)
     && (Z.to_nat unknown_ind1 =? a)%nat && (Z.to_nat unknown_ind2 =? b)%nat
  then (term_func k1 * term_func k2 / dx ^ (deriv_order1 + deriv_order2)
        * term_coeff k1 s1 * term_coeff k2 s2)%Q
  else 0%Q.

(** What the point adds to the entry [(a, b)] of [H]. *)
Definition point_contribution (rows : Z) (a b : nat) : Q :=
  qsum (fun k1 =>
    qsum (fun k2 =>
      qsum (fun s1 =>
        qsum (fun s2 => quadratic_term a b k1 s1 k2 s2) (term_range k2))
        (term_range k1))
      (py_range 1 rows))
    (py_range 1 rows).

End QuadraticTerms.

(** A step of the assembler adds [g] to the entry [(a, b)] of the matrix in
    its state and keeps the matrix square. *)
Definition adds (n a b : nat) (g : Q) (s s' : list (list Q) * list Q) : Prop :=
  square n (fst s) ->
  square n (fst s')
  /\ forall v, entry (fst s) a b = Some v ->
       exists v', entry (fst s') a b = Some v' /\ (v' == v + g)%Q.

(** The same up to equality of rationals, for matrices whose entries are
    sums taken in different orders. *)
Definition symmetric_up_to_eq (n : nat) (M : list (list Q)) : Prop :=
  square n M /\
  forall i j, (i < n)%nat -> (j < n)%nat ->
    exists v w, entry M i j = Some v /\ entry M j i = Some w /\ (v == w)%Q.

(** A computation does not end in the marker for a read of an entry that
    was never assigned, that is, it does what Python does. *)
Definition never_uninitialised {A : Type} (m : result A) : Prop :=
  m <> Raise UninitialisedRead.

(** ** Contracts of the collaborators and stand-ins for examples *)

(** The contract of the sampler: at least one record, and in every record
    one value for each row of the QUBO matrix. *)
Definition sampler_well_formed (sample_qubo : list (list Q) -> list sample) : Prop :=
  forall Qm,
    sample_qubo Qm <> []
    /\ Forall (fun s => length (sample_values s) = length Qm) (sample_qubo Qm).

(** A sampler for examples: the all-zero assignment, reported once with
    energy 0. *)
Definition zero_sampler (Qm : list (list Q)) : list sample :=
  [ {| sample_values := replicate (length Qm) 0;
       sample_energy := 0%Q;
       sample_num_occurrences := 1 |} ].

(** A two entry table standing for the generator in examples. *)
Definition findiff_table (deriv_order accuracy_order : Z) : result (list Q) :=
  if (deriv_order =? 1) && (accuracy_order =? 2)
  then Ok [((-3) / 2)%Q; 2%Q; ((-1) / 2)%Q]
  else if (deriv_order =? 2) && (accuracy_order =? 2)
  then Ok [2%Q; (-5)%Q; 4%Q; (-1)%Q]
  else Raise ValueError.

(** ** Notions used to state further properties *)

(** The [m]-th moment of a scheme on the offsets [0, 1, 2, ...]:
    [sum_k coeffs[k] * k^m]. *)
Definition scheme_moment (coeffs : list Q) (m : nat) : Q :=
  np_sum (zip_with (fun c k => (c * inject_Z k ^ Z.of_nat m)%Q) coeffs
                   (py_range 0 (Z.of_nat (length coeffs)))).

(** ** The element type of [f]

    For an array [f] of the type int64 (what numpy makes of a list of
    Python integers) numpy keeps the integer type through
    [-f[0:-1]] and [d[0:-1] += f[1:-1]], so that [d[0] -= y1 / dx] stores a
    float into an integer array, which truncates it toward zero;
    [d * 2 / dx] is a float64 array again.  Nothing else in the first order
    path depends on the element type of [f]: [H], the discretization
    elements, [d_cont] in [build_qubo_matrix] and the solution array are
    float64 arrays whatever [f] is.  In an int64 array all entries of [f]
    are integers; the wrap-around of int64 arithmetic beyond [2 ** 63] is
    outside the model, as are other element types. *)
Inductive dtype : Type :=
| Int64
| Float64.

(** The number that an array of the element type holds after a float was
    stored into it. *)
Definition np_store (dt : dtype) (x : Q) : Q :=
  match dt with
  | Int64 => inject_Z (Z.quot (Qnum x) (Z.pos (Qden x)))
  | Float64 => x
  end.

(** [build_quadratic_minimization_vector] for an array [f] of the element
    type [dt]. *)
Definition build_quadratic_minimization_vector_of (dt : dtype) (f : list Q) (dx y1 : Q)
  : result (list Q) :=
  let d := map Qopp (py_slice f 0 (-1)) in
  d ← slice_add d 0 (-1) (py_slice f 1 (-1));
  d ← (v ← get d 0; set_at d 0 (np_store dt (v - y1 / dx)%Q));
  Ok (map (fun x => (x * 2 / dx)%Q) d).

(** [build_qubo_matrix] for an array [f] of the element type [dt]. *)
Definition build_qubo_matrix_of (dt : dtype) (f : list Q) (dx y1 : Q)
    (H_discret_elem : list (list Q)) (d_discret_elem : list Q) (signed : bool)
  : result (list (list Q)) :=
  H_cont ← build_quadratic_minimization_matrix (Z.of_nat (length f)) dx;
  d_cont ← build_quadratic_minimization_vector_of dt f dx y1;
  d_cont ← (if signed
            then d0 ← get d_discret_elem 0; sub_at d_cont 0 (2 * d0 / dx ^ 2)%Q
            else Ok d_cont);
  let H_bin :=
    np_block2 (length H_discret_elem)
      (map (fun row => map (fun val => map (map (fun h => (h * val)%Q)) H_discret_elem) row)
           H_cont) in
  let d_bin := mjoin (map (fun val => map (fun w => (w * val)%Q) d_discret_elem) d_cont) in
  np_add2 H_bin (np_diag d_bin 0).

Section SolveOf.

Variable dt : dtype.
Variable sample_qubo : list (list Q) -> list sample.

(** The body of the loop of [solve] for an array [f] of the element type
    [dt]. *)
Definition solve_block_of (f : list Q) (dx : Q) (qbits_integer : Z)
    (signed : bool) (points_per_qubo : Z) (average_solutions : bool)
    (H_discret_elem : list (list Q)) (d_discret_elem : list Q)
    (state : list (option Q) * Q) (i : Z) : result (list (option Q) * Q) :=
  let '(solution, error) := state in
  cell ← get solution (i - 1);
  y1 ← match cell with Some v => Ok v | None => Raise UninitialisedRead end;
  let next_i := Z.min (i + points_per_qubo) (Z.of_nat (length f)) in
  let next_f := py_slice f (i - 1) next_i in
  Qm ← build_qubo_matrix_of dt next_f dx y1 H_discret_elem d_discret_elem signed;
  let sample_set := sample_qubo Qm in
  '(samples_bin, m) ← np_array2 (map sample_values sample_set);
  samples_bin_structured ← np_reshape3 samples_bin m (length d_discret_elem);
  let samples_cont := map (map (decode_group d_discret_elem)) samples_bin_structured in
  f0 ← get next_f 0;
  let error_shift :=
    ((y1 ^ 2 + 2 * y1 * f0 * dx) / dx ^ 2
     + np_sum (map (fun x => x ^ 2) (py_slice next_f 0 (-1))))%Q in
  let samples_cont :=
    if signed
    then map (map (fun x => (x - py_pow 2 (qbits_integer - 1))%Q)) samples_cont
    else samples_cont in
  let error_shift :=
    if signed
    then (error_shift
          + (py_pow 4 (qbits_integer - 1) + py_pow 2 qbits_integer * (y1 + f0 * dx))
            / dx ^ 2)%Q
    else error_shift in
  '(solution, solution_energy) ←
    (if average_solutions then
       let num_occurrences := map (fun s => inject_Z (sample_num_occurrences s)) sample_set in
       let weights := map (fun n => (n / np_sum num_occurrences)%Q) num_occurrences in
       let averaged :=
         map (fun c => np_sum (zip_with (fun row w => (default 0 (row !! c) * w)%Q)
                                        samples_cont weights))
             (seq 0 (m / length d_discret_elem)) in
       solution ← slice_assign solution i next_i (map Some averaged);
       let all_energies := map sample_energy sample_set in
       Ok (solution, np_sum (zip_with Qmult all_energies weights))
     else
       best ← get samples_cont 0;
       solution ← slice_assign solution i next_i (map Some best);
       first ← py_next sample_set;
       Ok (solution, sample_energy first));
  Ok (solution, (error + (solution_energy + error_shift))%Q).

(** [solve] for an array [f] of the element type [dt]. *)
Definition solve_of (f : list Q) (dx y1 : Q) (qbits_integer qbits_decimal : Z)
    (signed : bool) (points_per_qubo : Z) (average_solutions : bool)
  : result (list (option Q) * Q) :=
  let solution := replicate (length f) (@None Q) in
  solution ← set_at solution 0 (Some y1);
  H_discret_elem ← build_discretization_matrix qbits_integer qbits_decimal;
  let d_discret_elem := build_discretization_vector qbits_integer qbits_decimal in
  let error := 0%Q in
  indices ← py_range_step 1 (Z.of_nat (length f)) points_per_qubo;
  for_each indices
    (solve_block_of f dx qbits_integer signed points_per_qubo average_solutions
                    H_discret_elem d_discret_elem)
    (solution, error).

End SolveOf.

(** The entry [k] of the continuous vector of the first order path for an
    array of the element type [dt]: [f[k+1] - f[k]] (only [-f[k]] in the
    last place), less [y1 / dx] in the first place, where the difference is
    stored into the array, times [2 / dx]. *)
Definition d_cont_entry (dt : dtype) (f : list Q) (dx y1 : Q) (k : nat) : Q :=
  let fk := default 0%Q (f !! k) in
  let core :=
    if (k + 2 <? length f)%nat then (- fk + default 0%Q (f !! S k))%Q else (- fk)%Q in
  ((if (k =? 0)%nat then np_store dt (core - y1 / dx) else core) * 2 / dx)%Q.

(** The objective that a QUBO sampler minimises and reports as the energy
    of an assignment [x] of the binary variables: [x^T Q x]. *)
Definition qubo_energy (Qm : list (list Q)) (x : list Z) : Q :=
  qsum (fun a =>
          qsum (fun b => (inject_Z (default 0%Z (x !! a)) * default 0%Q (entry Qm a b)
                          * inject_Z (default 0%Z (x !! b)))%Q)
               (seq 0 (length x)))
       (seq 0 (length x)).

(** An assignment of binary variables. *)
Definition binary (x : list Z) : Prop := Forall (fun b => b = 0 \/ b = 1) x.

(** The target functional in the words of [build_qubo_matrix]: the
    derivative of the sample solution [y] is taken by forward differences
    and compared with [f]; the squares of the differences are summed over
    the intervals of the grid. *)
Definition squared_residual (f : list Q) (dx : Q) (y : list Q) : Q :=
  qsum (fun k => (((default 0 (y !! S k) - default 0 (y !! k)) / dx
                   - default 0 (f !! k)) ^ 2)%Q)
       (seq 0 (length y - 1)).

(** The values that [solve] decodes from the binary variables of one
    sample: one value for each group of [len(d_discret_elem)] variables,
    shifted down by [2 ** (qbits_integer - 1)] in the signed case. *)
Definition decoded_values (d_discret_elem : list Q) (qbits_integer : Z) (signed : bool)
    (bits : list Z) : list Q :=
  map (fun g => if signed
                then (decode_group d_discret_elem g - py_pow 2 (qbits_integer - 1))%Q
                else decode_group d_discret_elem g)
      (reshape (replicate (length bits / length d_discret_elem) (length d_discret_elem))
               bits).


(** A sampler that reports, for every record of a sample set, an assignment
    of all binary variables of the matrix together with the energy of that
    assignment. *)
Definition sampler_faithful (sample_qubo : list (list Q) -> list sample) : Prop :=
  forall Qm s,
    s ∈ sample_qubo Qm ->
    length (sample_values s) = length Qm
    /\ binary (sample_values s)
    /\ (sample_energy s == qubo_energy Qm (sample_values s))%Q.

(** A sampler for examples of the averaging mode: the all-zero assignment,
    reported once with energy 0, and the all-one assignment, reported three
    times with its energy. *)
Definition extreme_sampler (Qm : list (list Q)) : list sample :=
  [ {| sample_values := replicate (length Qm) 0;
       sample_energy := 0%Q;
       sample_num_occurrences := 1 |};
    {| sample_values := replicate (length Qm) 1;
       sample_energy := qubo_energy Qm (replicate (length Qm) 1);
       sample_num_occurrences := 3 |} ].

(** ** The values that a block stores

    What one iteration of the loop of [solve] makes of the sample set: the
    records are decoded one row each, and the values written to
    [solution[i:next_i]] are the first row, or in the averaging mode the
    occurrence weighted mean of the rows. *)
Definition block_values (average_solutions signed : bool) (qbits_integer : Z)
    (d_discret_elem : list Q) (sample_set : list sample) : result (list Q) :=
  '(samples_bin, m) ← np_array2 (map sample_values sample_set);
  samples_bin_structured ← np_reshape3 samples_bin m (length d_discret_elem);
  let samples_cont := map (map (decode_group d_discret_elem)) samples_bin_structured in
  let samples_cont :=
    if signed
    then map (map (fun x => (x - py_pow 2 (qbits_integer - 1))%Q)) samples_cont
    else samples_cont in
  if average_solutions then
    let num_occurrences := map (fun s => inject_Z (sample_num_occurrences s)) sample_set in
    let weights := map (fun n => (n / np_sum num_occurrences)%Q) num_occurrences in
    Ok (map (fun c => np_sum (zip_with (fun row w => (default 0 (row !! c) * w)%Q)
                                       samples_cont weights))
            (seq 0 (m / length d_discret_elem)))
  else get samples_cont 0.
(** * Properties *)

(** ** RangeSelector *)

Lemma get_deriv_range_order (deriv_ind point_ind last_point_ind max_acc : Z) :
  exists acc len last,
    get_deriv_range deriv_ind point_ind last_point_ind max_acc
    = (deriv_ind - 1, acc, len, last)
    /\ len = deriv_ind - 1 + acc /\ last = point_ind + len - 1.
Proof. unfold get_deriv_range. do 3 eexists. repeat split. Qed.

Lemma selected_accuracy_zero_order (point_ind last_point_ind max_acc : Z) :
  selected_accuracy_of (get_deriv_range 1 point_ind last_point_ind max_acc) = 1.
Proof. reflexivity. Qed.

Lemma selected_accuracy_higher_order (deriv_ind point_ind last_point_ind max_acc : Z) :
  deriv_ind - 1 <> 0 ->
  selected_accuracy_of (get_deriv_range deriv_ind point_ind last_point_ind max_acc)
  = Z.min max_acc (last_point_ind - point_ind - (deriv_ind - 1) + 1).
Proof.
  intros Hne. unfold get_deriv_range, selected_accuracy_of.
  destruct (Z.eqb_spec (deriv_ind - 1) 0) as [Heq | _]; [contradiction | reflexivity].
Qed.

(** C3, as stated, fails: for the shift term (term index 1, derivative order
    0) at a point behind the last unknown index the difference
    [last_unknown_index - point_index] is below the derivative order, yet
    the selected accuracy is 1. *)
Lemma get_deriv_range_zero_order_behind_window :
  ~ (selected_accuracy_of (get_deriv_range 1 1 0 1) < 1 <-> 0 - 1 < 1 - 1).
Proof.
  intros [_ Hback]. cbn in Hback. assert (1 < 1) by (apply Hback; lia). lia.
Qed.

(** C3, amended: for a term index of at least 1 and a maximum accuracy of at
    least 1, the selected accuracy is below 1 exactly when the derivative
    order is at least 1 and [last_unknown_index - point_index] is below it;
    for derivative order 0 the selected accuracy is 1. *)
Theorem get_deriv_range_infeasible_iff
    (term_index point_index last_unknown_index max_considered_accuracy : Z) :
  1 <= term_index ->
  1 <= max_considered_accuracy ->
  let deriv_order := term_index - 1 in
  let accuracy_order :=
    selected_accuracy_of
      (get_deriv_range term_index point_index last_unknown_index
                       max_considered_accuracy) in
  (accuracy_order < 1
   <-> 1 <= deriv_order /\ last_unknown_index - point_index < deriv_order)
  /\ (deriv_order = 0 -> accuracy_order = 1).
Proof.
  intros Hterm Hmax deriv_order accuracy_order.
  destruct (Z.eq_dec deriv_order 0) as [Hzero | Hpos].
  - assert (term_index = 1) as -> by (subst deriv_order; lia).
    subst accuracy_order. rewrite selected_accuracy_zero_order.
    split; [split; lia | reflexivity].
  - subst accuracy_order. rewrite selected_accuracy_higher_order by exact Hpos.
    fold deriv_order. split; [split; lia | contradiction].
Qed.

Lemma get_deriv_range_infeasible_iff_witness :
  (selected_accuracy_of (get_deriv_range 3 4 5 2) < 1 <-> 1 <= 3 - 1 /\ 5 - 4 < 3 - 1)
  /\ (3 - 1 = 0 -> selected_accuracy_of (get_deriv_range 3 4 5 2) = 1).
Proof. apply (get_deriv_range_infeasible_iff 3 4 5 2); lia. Defined.

(** ** StencilLibrary *)

Lemma closed_form_coefficients_cases (deriv_order accuracy_order : Z) (coeffs : list Q) :
  closed_form_coefficients deriv_order accuracy_order = Some coeffs ->
  (deriv_order = 1 /\ accuracy_order = 1 /\ coeffs = [(-1)%Q; 1%Q])
  \/ (deriv_order = 2 /\ accuracy_order = 1 /\ coeffs = [1%Q; (-2)%Q; 1%Q])
  \/ (deriv_order = 1 /\ accuracy_order = 3
      /\ coeffs = [py_truediv (-11) 6; 3%Q; py_truediv (-3) 2; py_truediv 1 3])
  \/ (deriv_order = 1 /\ accuracy_order = 5
      /\ coeffs = [py_truediv (-137) 60; 5%Q; (-5)%Q; py_truediv 10 3;
                   py_truediv (-5) 4; py_truediv 1 5]).
Proof.
  unfold closed_form_coefficients.
  repeat match goal with
         | |- context [Z.eqb ?a ?b] => destruct (Z.eqb_spec a b)
         end; intros [= <-]; subst; tauto.
Qed.

Lemma closed_form_coefficients_none (deriv_order accuracy_order : Z) :
  (deriv_order, accuracy_order) <> (1, 1) ->
  (deriv_order, accuracy_order) <> (2, 1) ->
  (deriv_order, accuracy_order) <> (1, 3) ->
  (deriv_order, accuracy_order) <> (1, 5) ->
  closed_form_coefficients deriv_order accuracy_order = None.
Proof.
  intros H11 H21 H13 H15.
  destruct (closed_form_coefficients deriv_order accuracy_order) as [coeffs |] eqn:Hc;
    [| reflexivity].
  apply closed_form_coefficients_cases in Hc.
  destruct Hc as [(-> & -> & _) | [(-> & -> & _) | [(-> & -> & _) | (-> & -> & _)]]];
    congruence.
Qed.

(** The quotients of the two float64 tables, as ratios of integers:
    [-3/2] and [-5/4] are float64 numbers, the other four quotients are
    rounded. *)
Lemma table_quotients :
  py_truediv (-11) 6 = (-8256599316845909 # 4503599627370496)%Q
  /\ py_truediv (-3) 2 = (-3 # 2)%Q
  /\ py_truediv 1 3 = (6004799503160661 # 18014398509481984)%Q
  /\ py_truediv (-137) 60 = (-1285402393645329 # 562949953421312)%Q
  /\ py_truediv 10 3 = (7505999378950827 # 2251799813685248)%Q
  /\ py_truediv (-5) 4 = (-5 # 4)%Q
  /\ py_truediv 1 5 = (3602879701896397 # 18014398509481984)%Q.
Proof. repeat split; vm_compute; reflexivity. Qed.

(** The four tabulated schemes are returned as written. *)
Lemma coefficients_table (findiff_forward : Z -> Z -> result (list Q)) :
  get_finite_difference_coefficients findiff_forward 1 1 = Ok [(-1)%Q; 1%Q]
  /\ get_finite_difference_coefficients findiff_forward 2 1 = Ok [1%Q; (-2)%Q; 1%Q]
  /\ get_finite_difference_coefficients findiff_forward 1 3
     = Ok [(-8256599316845909 # 4503599627370496)%Q; 3%Q; (-3 # 2)%Q;
           (6004799503160661 # 18014398509481984)%Q]
  /\ get_finite_difference_coefficients findiff_forward 1 5
     = Ok [(-1285402393645329 # 562949953421312)%Q; 5%Q; (-5)%Q;
           (7505999378950827 # 2251799813685248)%Q; (-5 # 4)%Q;
           (3602879701896397 # 18014398509481984)%Q].
Proof. repeat split; vm_compute; reflexivity. Qed.

(** C6, as stated, fails: the float64 table of the pair (1, 3) has four
    elements, but they do not sum to zero, neither as a sum of rationals
    nor as a sum of float64 numbers: the roundings of [-11/6] and [1/3]
    leave [2 ** -54]. *)
Lemma coefficients_third_order_sum_nonzero :
  exists coeffs,
    get_finite_difference_coefficients findiff_table 1 3 = Ok coeffs
    /\ Z.of_nat (length coeffs) = 1 + 3
    /\ (np_sum coeffs == py_pow 2 (-54))%Q
    /\ (float64_sum coeffs == py_pow 2 (-54))%Q
    /\ ~ (np_sum coeffs == 0)%Q
    /\ ~ (float64_sum coeffs == 0)%Q.
Proof.
  eexists. split; [reflexivity |].
  repeat split; try (vm_compute; reflexivity); vm_compute; discriminate.
Qed.

(** C6 (corrected): for derivative order 0 the coefficients are exactly
    [[1]]; each of the four tabulated pairs returns
    [deriv_order + accuracy_order] weights, whose sum is exactly zero for
    the integer tables of accuracy order 1, [2 ** -54] for the float64
    table of the pair (1, 3) and [5 * 2 ** -54] for that of the pair
    (1, 5), both as a sum of rationals and as a sum of float64 numbers
    taken from left to right; for an even accuracy order and a derivative
    order other than 0 the result is that of the external generator,
    whatever it is. *)
Theorem coefficients_length_and_sum
    (findiff_forward : Z -> Z -> result (list Q))
    (deriv_order accuracy_order : Z) :
  (deriv_order = 0 ->
   get_finite_difference_coefficients findiff_forward deriv_order accuracy_order
   = Ok [1%Q])
  /\ ((deriv_order, accuracy_order) ∈ [(1, 1); (2, 1); (1, 3); (1, 5)] ->
      exists coeffs,
        get_finite_difference_coefficients findiff_forward deriv_order accuracy_order
        = Ok coeffs
        /\ Z.of_nat (length coeffs) = deriv_order + accuracy_order
        /\ (np_sum coeffs
            == inject_Z (if accuracy_order =? 1 then 0
                         else if accuracy_order =? 3 then 1 else 5)
               * py_pow 2 (-54))%Q
        /\ (float64_sum coeffs == np_sum coeffs)%Q)
  /\ (deriv_order <> 0 -> accuracy_order mod 2 = 0 ->
      get_finite_difference_coefficients findiff_forward deriv_order accuracy_order
      = findiff_forward deriv_order accuracy_order).
Proof.
  split; [now intros -> |]. split.
  - intros Hin. repeat (apply elem_of_cons in Hin as [[= -> ->] | Hin]);
      [| | | | now apply elem_of_nil in Hin];
      (eexists; split; [reflexivity |]); repeat split; vm_compute; reflexivity.
  - intros Hd Heven. unfold get_finite_difference_coefficients.
    destruct (Z.eqb_spec deriv_order 0) as [-> | _]; [contradiction |].
    now rewrite Heven.
Qed.

Lemma coefficients_length_and_sum_witness :
  exists coeffs,
    get_finite_difference_coefficients findiff_table 1 5 = Ok coeffs
    /\ Z.of_nat (length coeffs) = 1 + 5
    /\ (np_sum coeffs == inject_Z 5 * py_pow 2 (-54))%Q
    /\ (float64_sum coeffs == np_sum coeffs)%Q.
Proof.
  apply (coefficients_length_and_sum findiff_table 1 5).
  do 3 apply list_elem_of_further. apply list_elem_of_here.
Defined.

(** C7: an odd accuracy order with a derivative order of at least 1 outside
    the four tabulated pairs raises the "not implemented" exception
    ([NotImplementedError] in the source); no list of weights is returned. *)
Theorem coefficients_unsupported_odd
    (findiff_forward : Z -> Z -> result (list Q)) (deriv_order accuracy_order : Z) :
  Z.odd accuracy_order = true ->
  1 <= deriv_order ->
  (deriv_order, accuracy_order) <> (1, 1) ->
  (deriv_order, accuracy_order) <> (2, 1) ->
  (deriv_order, accuracy_order) <> (1, 3) ->
  (deriv_order, accuracy_order) <> (1, 5) ->
  get_finite_difference_coefficients findiff_forward deriv_order accuracy_order
  = Raise NotImplementedError.
Proof.
  intros Hodd Hd H11 H21 H13 H15. unfold get_finite_difference_coefficients.
  destruct (Z.eqb_spec deriv_order 0) as [-> | _]; [lia |].
  rewrite Zmod_odd, Hodd. cbn.
  now rewrite closed_form_coefficients_none.
Qed.

Lemma coefficients_unsupported_odd_witness :
  get_finite_difference_coefficients findiff_table 2 3 = Raise NotImplementedError.
Proof.
  apply (coefficients_unsupported_odd findiff_table 2 3);
    [reflexivity | lia | discriminate | discriminate | discriminate | discriminate].
Defined.

(** ** Ranges and loops *)

Lemma py_range_nil (start stop : Z) : stop <= start -> py_range start stop = [].
Proof.
  intros Hle. unfold py_range. now replace (Z.to_nat (stop - start)) with O by lia.
Qed.

Lemma py_range_cons (start stop : Z) :
  start < stop -> py_range start stop = start :: py_range (start + 1) stop.
Proof.
  intros Hlt. unfold py_range.
  replace (Z.to_nat (stop - start)) with (S (Z.to_nat (stop - (start + 1)))) by lia.
  cbn [seq map]. f_equal; [lia |].
  rewrite <- seq_shift, map_map. apply map_ext. intros k. lia.
Qed.

Lemma length_py_range (start stop : Z) :
  length (py_range start stop) = Z.to_nat (stop - start).
Proof. unfold py_range. now rewrite length_map, length_seq. Qed.

Lemma lookup_py_range (start stop : Z) (k : nat) :
  (k < Z.to_nat (stop - start))%nat ->
  py_range start stop !! k = Some (start + Z.of_nat k).
Proof.
  intros Hk. unfold py_range. rewrite list_lookup_fmap, lookup_seq_lt by exact Hk.
  reflexivity.
Qed.

(** ** FunctionalAssembler: the unbound name *)

Lemma load_name_unbound (known_points : list Q) :
  load_name (quadratic_terms_namespace known_points) "first_unknown_ind_global"
  = Raise (NameError "first_unknown_ind_global").
Proof. reflexivity. Qed.

Lemma load_name_bound (known_points : list Q) :
  load_name (quadratic_terms_namespace known_points) "first_unknown_index_global"
  = Ok (Z.of_nat (length known_points)).
Proof. reflexivity. Qed.

(** With at least one multiplier row, the first pass through the inner loop
    of [add_quadratic_terms] reads the unbound name. *)
Lemma add_quadratic_terms_name_error
    (findiff_forward : Z -> Z -> result (list Q))
    (H : list (list Q)) (d : list Q) (point_ind last_unknown_ind_global : Z)
    (funcs : list (list Q)) (dx : Q) (known_points : list Q) (max_acc : Z) :
  2 <= shape0 funcs ->
  add_quadratic_terms findiff_forward H d point_ind last_unknown_ind_global funcs dx
                      known_points max_acc
  = Raise (NameError "first_unknown_ind_global").
Proof.
  intros Hrows. unfold add_quadratic_terms, add_quadratic_terms_reading.
  rewrite (py_range_cons 1 (shape0 funcs)) by lia.
  cbn [for_each]. reflexivity.
Qed.

(** C1 on the code: for the equation [y' - 1 = 0] on three grid points
    with one known point and two unknown ones, the general assembler returns
    no matrix: the first quadratic term reads a name that is bound
    nowhere. *)
Theorem general_assembler_name_error (findiff_forward : Z -> Z -> result (list Q)) :
  build_quadratic_minimization_matrices_general findiff_forward
    [[(-1)%Q; (-1)%Q; (-1)%Q]; [0%Q; 0%Q; 0%Q]; [1%Q; 1%Q; 1%Q]] 1%Q [0%Q] 1 2
  = Raise (NameError "first_unknown_ind_global").
Proof. vm_compute. reflexivity. Qed.

(** The same for every equation with a multiplier row and a point to visit:
    the assembler ends in an exception. *)
Lemma general_assembler_never_returns
    (findiff_forward : Z -> Z -> result (list Q))
    (funcs : list (list Q)) (dx : Q) (known_points : list Q)
    (max_acc points_per_step : Z) :
  2 <= shape0 funcs ->
  1 <= Z.of_nat (length known_points)
       + Z.min points_per_step (shape1 funcs - Z.of_nat (length known_points)) ->
  exists e,
    build_quadratic_minimization_matrices_general findiff_forward funcs dx known_points
      max_acc points_per_step = Raise e.
Proof.
  intros Hrows Hpoints.
  unfold build_quadratic_minimization_matrices_general,
    build_quadratic_minimization_matrices_general_reading.
  destruct (np_zeros2 _ _) as [H | e]; [| by exists e].
  destruct (np_zeros _) as [d | e]; [| by exists e].
  cbn [mbind result_bind].
  rewrite py_range_cons by lia. cbn [for_each].
  destruct (add_linear_terms _ _ _ _ _ _ _ _) as [d' | e]; [| by exists e].
  cbn [mbind result_bind].
  fold (add_quadratic_terms findiff_forward).
  rewrite add_quadratic_terms_name_error by exact Hrows.
  by eexists.
Qed.

(** ** FixedPointCodec *)

Lemma list_bind_singleton {A B : Type} (g : A -> B) (l : list A) :
  l ≫= (fun x => [g x]) = map g l.
Proof. induction l as [| x l IH]; [reflexivity |]. rewrite bind_cons, IH. reflexivity. Qed.

Lemma list_bind_join {A B : Type} (g : A -> list B) (l : list A) :
  l ≫= g = mjoin (map g l).
Proof. induction l as [| x l IH]; [reflexivity |]. rewrite bind_cons, IH. reflexivity. Qed.

Lemma reshape_join {A : Type} (c : nat) (rows : list (list A)) :
  Forall (fun r => length r = c) rows ->
  reshape (replicate (length rows) c) (mjoin rows) = rows.
Proof.
  induction 1 as [| r rows Hr _ IH]; [reflexivity |].
  cbn [length replicate reshape mjoin list_join].
  rewrite take_app_length', drop_app_length' by (symmetry; exact Hr).
  f_equal. exact IH.
Qed.

Lemma length_join_same {A : Type} (c : nat) (rows : list (list A)) :
  Forall (fun r => length r = c) rows ->
  length (mjoin rows) = (length rows * c)%nat.
Proof.
  intros Hrows. rewrite length_join. now apply sum_list_fmap_same.
Qed.

Lemma length_j_range (qbits_integer qbits_decimal : Z) :
  length (j_range qbits_integer qbits_decimal) = Z.to_nat (qbits_integer + qbits_decimal).
Proof. unfold j_range. rewrite length_py_range. f_equal. lia. Qed.

Lemma lookup_j_range (qbits_integer qbits_decimal : Z) (k : nat) :
  (k < Z.to_nat (qbits_integer + qbits_decimal))%nat ->
  j_range qbits_integer qbits_decimal !! k = Some (- qbits_integer + 1 + Z.of_nat k).
Proof. intros Hk. unfold j_range. apply lookup_py_range. lia. Qed.

(** The reshape in [build_discretization_matrix] always succeeds and gives
    one row for each [j1]. *)
Lemma build_discretization_matrix_rows (qbits_integer qbits_decimal : Z) :
  build_discretization_matrix qbits_integer qbits_decimal
  = Ok (map (fun j1 => map (fun j2 => py_pow 2 (- (j1 + j2)))
                           (j_range qbits_integer qbits_decimal))
            (j_range qbits_integer qbits_decimal)).
Proof.
  unfold build_discretization_matrix.
  set (js := j_range qbits_integer qbits_decimal).
  assert (js ≫= (fun j1 => js ≫= (fun j2 => [py_pow 2 (- (j1 + j2))]))
          = mjoin (map (fun j1 => map (fun j2 => py_pow 2 (- (j1 + j2))) js) js)) as ->.
  { rewrite list_bind_join. f_equal. }
  set (rows := map _ js).
  assert (Forall (fun r => length r = length js) rows) as Hrows.
  { subst rows. apply Forall_fmap, Forall_true. intros j1. apply length_map. }
  assert (length rows = length js) as Hlen by (subst rows; apply length_map).
  unfold np_reshape2. rewrite (length_join_same _ _ Hrows), Hlen, Nat.eqb_refl.
  rewrite <- Hlen at 1. now rewrite reshape_join.
Qed.

Lemma py_pow_two_sum (a b : Z) :
  (py_pow 2 (- (a + b)) == py_pow 2 (- a) * py_pow 2 (- b))%Q.
Proof.
  unfold py_pow. replace (- (a + b)) with (- a + - b) by lia.
  apply Qpower_plus. discriminate.
Qed.

(** C5: for non-negative bit counts, [d~] has [qbits_integer +
    qbits_decimal] entries, the [k]-th being [2^(-j)] for
    [j = -qbits_integer + 1 + k] (so [j] runs up to [qbits_decimal]), and
    [H~] is the square matrix with [H~[k1][k2] = 2^(-(j1 + j2))], which is
    the product [d~[k1] * d~[k2]]. *)
Theorem discretization_elements (qbits_integer qbits_decimal : Z) :
  0 <= qbits_integer ->
  0 <= qbits_decimal ->
  let n := Z.to_nat (qbits_integer + qbits_decimal) in
  let j := fun k : nat => - qbits_integer + 1 + Z.of_nat k in
  let d := build_discretization_vector qbits_integer qbits_decimal in
  length d = n
  /\ (forall k, (k < n)%nat -> d !! k = Some (py_pow 2 (- j k)))
  /\ (n <> O -> j (n - 1)%nat = qbits_decimal)
  /\ exists H,
      build_discretization_matrix qbits_integer qbits_decimal = Ok H
      /\ square n H
      /\ forall k1 k2, (k1 < n)%nat -> (k2 < n)%nat ->
           entry H k1 k2 = Some (py_pow 2 (- (j k1 + j k2)))
           /\ (py_pow 2 (- (j k1 + j k2)) == py_pow 2 (- j k1) * py_pow 2 (- j k2))%Q.
Proof.
  intros Hqi Hqd n j d.
  assert (forall k, (k < n)%nat -> d !! k = Some (py_pow 2 (- j k))) as Hd.
  { intros k Hk. subst d. unfold build_discretization_vector.
    rewrite list_lookup_fmap, lookup_j_range by exact Hk. reflexivity. }
  split; [| split; [exact Hd | split]].
  - subst d. unfold build_discretization_vector. now rewrite length_map, length_j_range.
  - intros Hn. subst j n. cbn beta. lia.
  - eexists. split; [apply build_discretization_matrix_rows |]. split.
    + split; [now rewrite length_map, length_j_range |].
      apply Forall_fmap, Forall_true. intros j1. cbn.
      now rewrite length_map, length_j_range.
    + intros k1 k2 Hk1 Hk2. split; [| apply py_pow_two_sum].
      unfold entry. rewrite list_lookup_fmap, lookup_j_range by exact Hk1.
      cbn. rewrite list_lookup_fmap, lookup_j_range by exact Hk2. reflexivity.
Qed.

Lemma discretization_elements_witness :
  let n := Z.to_nat (2 + 1) in
  let j := fun k : nat => - 2 + 1 + Z.of_nat k in
  let d := build_discretization_vector 2 1 in
  length d = n
  /\ (forall k, (k < n)%nat -> d !! k = Some (py_pow 2 (- j k)))
  /\ (n <> O -> j (n - 1)%nat = 1)
  /\ exists H,
      build_discretization_matrix 2 1 = Ok H
      /\ square n H
      /\ forall k1 k2, (k1 < n)%nat -> (k2 < n)%nat ->
           entry H k1 k2 = Some (py_pow 2 (- (j k1 + j k2)))
           /\ (py_pow 2 (- (j k1 + j k2)) == py_pow 2 (- j k1) * py_pow 2 (- j k2))%Q.
Proof. apply (discretization_elements 2 1); lia. Defined.

(** ** Indexing *)

Lemma py_index_nonneg (len : nat) (i : Z) :
  0 <= i < Z.of_nat len -> py_index len i = Ok (Z.to_nat i).
Proof.
  intros Hi. unfold py_index.
  destruct (Z.leb_spec 0 i); [| lia]. destruct (Z.ltb_spec i (Z.of_nat len)); [| lia].
  reflexivity.
Qed.

Lemma py_index_last (len : nat) :
  (1 <= len)%nat -> py_index len (-1) = Ok (len - 1)%nat.
Proof.
  intros Hlen. unfold py_index. cbn [Z.leb Z.compare andb].
  destruct (Z.leb_spec (- Z.of_nat len) (-1)); [| lia]. cbn. f_equal. lia.
Qed.

Lemma get_nonneg {A : Type} (l : list A) (i : Z) (x : A) :
  0 <= i -> l !! Z.to_nat i = Some x -> get l i = Ok x.
Proof.
  intros Hi Hx. unfold get. rewrite py_index_nonneg.
  - cbn. now rewrite Hx.
  - apply lookup_lt_Some in Hx. lia.
Qed.

Lemma get_in_range {A : Type} (l : list A) (i : Z) :
  0 <= i < Z.of_nat (length l) -> exists x, l !! Z.to_nat i = Some x /\ get l i = Ok x.
Proof.
  intros Hi. destruct (lookup_lt_is_Some_2 l (Z.to_nat i)) as [x Hx]; [lia |].
  exists x. split; [exact Hx | apply get_nonneg; [lia | exact Hx]].
Qed.

Lemma set_at_nonneg {A : Type} (l : list A) (i : Z) (x : A) :
  0 <= i < Z.of_nat (length l) -> set_at l i x = Ok (<[Z.to_nat i := x]> l).
Proof. intros Hi. unfold set_at. now rewrite py_index_nonneg. Qed.

Lemma sub_at_in_range (l : list Q) (i : Z) (x : Q) :
  0 <= i < Z.of_nat (length l) ->
  exists l', sub_at l i x = Ok l' /\ length l' = length l.
Proof.
  intros Hi. unfold sub_at. destruct (get_in_range l i Hi) as (v & _ & ->). cbn.
  rewrite set_at_nonneg by exact Hi. eexists. split; [reflexivity |].
  apply length_insert.
Qed.

(** ** Slices *)

Lemma py_clamp_le (len : nat) (i : Z) : (py_clamp len i <= len)%nat.
Proof. unfold py_clamp. destruct (Z.ltb_spec i 0); lia. Qed.

Lemma py_clamp_nonneg (len : nat) (i : Z) :
  0 <= i -> py_clamp len i = Nat.min len (Z.to_nat i).
Proof. intros Hi. unfold py_clamp. destruct (Z.ltb_spec i 0); lia. Qed.

Lemma py_clamp_minus_one (len : nat) : py_clamp len (-1) = (len - 1)%nat.
Proof. unfold py_clamp. cbn [Z.ltb Z.compare]. lia. Qed.

Lemma length_py_slice {A : Type} (l : list A) (start stop : Z) :
  length (py_slice l start stop)
  = (py_clamp (length l) stop - py_clamp (length l) start)%nat.
Proof.
  unfold py_slice. rewrite length_take, length_drop.
  pose proof (py_clamp_le (length l) stop). lia.
Qed.

Lemma np_broadcast_to_same {A : Type} (vals : list A) (n : nat) :
  length vals = n -> np_broadcast_to vals n = Ok vals.
Proof. intros <-. unfold np_broadcast_to. now rewrite Nat.eqb_refl. Qed.

Lemma np_broadcast_to_length {A : Type} (vals vals' : list A) (n : nat) :
  np_broadcast_to vals n = Ok vals' -> length vals' = n.
Proof.
  unfold np_broadcast_to. destruct (Nat.eqb_spec (length vals) n) as [Heq | _].
  - now intros [= <-].
  - destruct vals as [| v [| ? ?]]; try discriminate.
    intros [= <-]. apply length_replicate.
Qed.

Lemma slice_assign_length {A : Type} (l l' : list A) (start stop : Z) (vals : list A) :
  slice_assign l start stop vals = Ok l' -> length l' = length l.
Proof.
  unfold slice_assign.
  destruct (np_broadcast_to _ _) as [vals' |] eqn:Hb; [| discriminate].
  cbn. intros [= <-]. apply np_broadcast_to_length in Hb.
  rewrite !length_app, length_take, length_drop, Hb.
  pose proof (py_clamp_le (length l) start). pose proof (py_clamp_le (length l) stop).
  lia.
Qed.

(** ** The continuous quadratic form of the first order path *)

Lemma build_quadratic_minimization_vector_length (f : list Q) (dx y1 : Q) :
  (2 <= length f)%nat ->
  exists d, build_quadratic_minimization_vector f dx y1 = Ok d
            /\ length d = (length f - 1)%nat.
Proof.
  intros Hf. unfold build_quadratic_minimization_vector.
  set (d0 := map Qopp (py_slice f 0 (-1))).
  assert (length d0 = (length f - 1)%nat) as Hd0.
  { subst d0. rewrite length_map, length_py_slice, py_clamp_minus_one.
    rewrite py_clamp_nonneg by lia. lia. }
  unfold slice_add.
  rewrite np_broadcast_to_same; cycle 1.
  { rewrite !length_py_slice, Hd0, !py_clamp_minus_one, !py_clamp_nonneg by lia. lia. }
  cbn [mbind result_bind].
  destruct (slice_assign d0 0 (-1) _) as [d1 |] eqn:Hd1.
  - apply slice_assign_length in Hd1. cbn [mbind result_bind].
    destruct (sub_at_in_range d1 0 (y1 / dx)%Q) as (d2 & -> & Hd2); [lia |].
    cbn. eexists. split; [reflexivity |]. rewrite length_map. lia.
  - exfalso. revert Hd1. unfold slice_assign. rewrite np_broadcast_to_same; [discriminate |].
    rewrite length_zip_with, !length_py_slice, Hd0, !py_clamp_minus_one,
      !py_clamp_nonneg by lia. lia.
Qed.

(** ** Matrices: entries, sizes, symmetry *)

Lemma entry_map (g : Q -> Q) (M : list (list Q)) (i j : nat) :
  entry (map (map g) M) i j = g <$> entry M i j.
Proof.
  unfold entry. rewrite list_lookup_fmap. destruct (M !! i) as [row |]; cbn; [| reflexivity].
  apply list_lookup_fmap.
Qed.

Lemma square_map (g : Q -> Q) (n : nat) (M : list (list Q)) :
  square n M -> square n (map (map g) M).
Proof.
  intros [Hlen Hrows]. split; [now rewrite length_map |].
  apply Forall_fmap. eapply Forall_impl; [exact Hrows |].
  intros row Hrow. cbn. now rewrite length_map.
Qed.

Lemma symmetric_map (g : Q -> Q) (n : nat) (M : list (list Q)) :
  symmetric n M -> symmetric n (map (map g) M).
Proof.
  intros [Hsq Hsym]. split; [now apply square_map |].
  intros i j Hi Hj. rewrite !entry_map. now rewrite Hsym.
Qed.


Lemma entry_zip_with (A B : list (list Q)) (i j : nat) :
  entry (zip_with (zip_with Qplus) A B) i j
  = a ← entry A i j; b ← entry B i j; Some (a + b)%Q.
Proof.
  unfold entry. rewrite lookup_zip_with.
  destruct (A !! i) as [ra |]; cbn; [| reflexivity].
  destruct (B !! i) as [rb |]; cbn.
  - rewrite lookup_zip_with. destruct (ra !! j); cbn; [| reflexivity].
    destruct (rb !! j); reflexivity.
  - destruct (ra !! j); reflexivity.
Qed.

Lemma square_zip_with (n : nat) (A B : list (list Q)) :
  square n A -> square n B -> square n (zip_with (zip_with Qplus) A B).
Proof.
  intros [HlenA HrowsA] [HlenB HrowsB]. split.
  - rewrite length_zip_with. lia.
  - apply Forall_lookup. intros i row Hrow.
    apply lookup_zip_with_Some in Hrow. destruct Hrow as (ra & rb & -> & Hra & Hrb).
    rewrite Forall_lookup in HrowsA, HrowsB.
    rewrite length_zip_with, (HrowsA _ _ Hra), (HrowsB _ _ Hrb). lia.
Qed.

Lemma np_add2_square (n : nat) (A B : list (list Q)) :
  square n A -> square n B ->
  np_add2 A B = Ok (zip_with (zip_with Qplus) A B).
Proof.
  intros [HlenA _] [HlenB _]. unfold np_add2. now rewrite HlenA, HlenB, Nat.eqb_refl.
Qed.

Lemma symmetric_zip_with (n : nat) (A B : list (list Q)) :
  symmetric n A -> symmetric n B -> symmetric n (zip_with (zip_with Qplus) A B).
Proof.
  intros [HsqA HsymA] [HsqB HsymB]. split; [now apply square_zip_with |].
  intros i j Hi Hj. rewrite !entry_zip_with. now rewrite HsymA, HsymB.
Qed.

Lemma square_np_diag (v : list Q) (k : Z) :
  square (length v + Z.abs_nat k) (np_diag v k).
Proof.
  unfold np_diag. split; [now rewrite length_map, length_seq |].
  apply Forall_fmap, Forall_true. intros i. cbn. now rewrite length_map, length_seq.
Qed.

Lemma entry_np_diag (v : list Q) (k : Z) (i j : nat) :
  (i < length v + Z.abs_nat k)%nat ->
  (j < length v + Z.abs_nat k)%nat ->
  entry (np_diag v k) i j
  = Some (if Z.of_nat j =? Z.of_nat i + k then default 0%Q (v !! Nat.min i j) else 0%Q).
Proof.
  intros Hi Hj. unfold entry, np_diag.
  rewrite list_lookup_fmap, lookup_seq_lt by exact Hi. cbn.
  rewrite list_lookup_fmap, lookup_seq_lt by exact Hj. reflexivity.
Qed.

Lemma symmetric_np_diag_main (v : list Q) : symmetric (length v) (np_diag v 0).
Proof.
  pose proof (square_np_diag v 0) as Hsq. cbn in Hsq. rewrite Nat.add_0_r in Hsq.
  split; [exact Hsq |]. intros i j Hi Hj.
  rewrite !entry_np_diag by (cbn; lia). f_equal.
  rewrite (Nat.min_comm j i).
  destruct (Z.eqb_spec (Z.of_nat j) (Z.of_nat i + 0)),
           (Z.eqb_spec (Z.of_nat i) (Z.of_nat j + 0)); try lia; reflexivity.
Qed.

(** [H[-1, -1] = x] on a non-empty square matrix. *)
Lemma set_at2_last (n : nat) (M : list (list Q)) (x : Q) :
  (1 <= n)%nat -> square n M ->
  exists M', set_at2 M (-1) (-1) x = Ok M'
             /\ square n M'
             /\ forall i j, (i < n)%nat -> (j < n)%nat ->
                  entry M' i j
                  = if ((i =? n - 1) && (j =? n - 1))%nat then Some x else entry M i j.
Proof.
  intros Hn [Hlen Hrows]. unfold set_at2, get, set_at.
  rewrite py_index_last by lia. cbn [mbind result_bind].
  destruct (lookup_lt_is_Some_2 M (length M - 1)) as [row Hrow]; [lia |].
  rewrite Hrow. cbn [mbind result_bind].
  assert (length row = n) as Hrowlen.
  { rewrite Forall_lookup in Hrows. exact (Hrows _ _ Hrow). }
  rewrite py_index_last by lia. cbn [mbind result_bind].
  eexists. split; [reflexivity |]. split.
  - split; [now rewrite length_insert |].
    apply Forall_insert; [exact Hrows |]. now rewrite length_insert.
  - intros i j Hi Hj. unfold entry. rewrite Hlen, Hrowlen.
    destruct (Nat.eqb_spec i (n - 1)) as [-> | Hne].
    + rewrite list_lookup_insert_eq by lia. cbn.
      destruct (Nat.eqb_spec j (n - 1)) as [-> | Hnej].
      * rewrite list_lookup_insert_eq by lia. reflexivity.
      * rewrite list_lookup_insert_ne by lia. rewrite <- Hlen at 1. now rewrite Hrow.
    + rewrite list_lookup_insert_ne by lia. reflexivity.
Qed.

Lemma H_cont_entry_sym (m i j : nat) : H_cont_entry m i j = H_cont_entry m j i.
Proof.
  unfold H_cont_entry.
  destruct (Nat.eqb_spec i j) as [-> | Hne].
  - now rewrite Nat.eqb_refl.
  - destruct (Nat.eqb_spec j i); [lia |]. now rewrite orb_comm.
Qed.

Lemma build_quadratic_minimization_matrix_entries (npoints : nat) (dx : Q) :
  (2 <= npoints)%nat ->
  exists H, build_quadratic_minimization_matrix (Z.of_nat npoints) dx = Ok H
            /\ square (npoints - 1) H
            /\ forall i j, (i < npoints - 1)%nat -> (j < npoints - 1)%nat ->
                 entry H i j = Some (H_cont_entry (npoints - 1) i j / dx ^ 2)%Q.
Proof.
  intros Hn. unfold build_quadratic_minimization_matrix.
  set (m := (npoints - 1)%nat).
  replace (Z.to_nat (Z.of_nat npoints - 1)) with m by lia.
  replace (Z.to_nat (Z.of_nat npoints - 2)) with (m - 1)%nat by lia.
  set (A := np_diag (replicate m 2%Q) 0).
  set (B := np_diag (replicate (m - 1) (-1)%Q) 1).
  set (C := np_diag (replicate (m - 1) (-1)%Q) (-1)).
  assert (square m A) as HA.
  { pose proof (square_np_diag (replicate m 2%Q) 0) as Hsq.
    rewrite length_replicate in Hsq. cbn in Hsq. now rewrite Nat.add_0_r in Hsq. }
  assert (square m B) as HB.
  { pose proof (square_np_diag (replicate (m - 1) (-1)%Q) 1) as Hsq.
    rewrite length_replicate in Hsq. now replace (m - 1 + Z.abs_nat 1)%nat with m in Hsq by lia. }
  assert (square m C) as HC.
  { pose proof (square_np_diag (replicate (m - 1) (-1)%Q) (-1)) as Hsq.
    rewrite length_replicate in Hsq.
    now replace (m - 1 + Z.abs_nat (-1))%nat with m in Hsq by lia. }
  rewrite (np_add2_square m) by assumption. cbn [mbind result_bind].
  rewrite (np_add2_square m) by (try apply square_zip_with; assumption).
  cbn [mbind result_bind].
  destruct (set_at2_last m (zip_with (zip_with Qplus) (zip_with (zip_with Qplus) A B) C) 1%Q)
    as (H' & -> & Hsq' & Hentry'); [lia | repeat apply square_zip_with; assumption |].
  cbn [mbind result_bind]. eexists. split; [reflexivity |].
  split; [now apply square_map |].
  intros i j Hi Hj. rewrite entry_map, Hentry' by assumption. unfold H_cont_entry.
  destruct (Nat.eqb_spec i (m - 1)) as [-> | Hilast].
  - destruct (Nat.eqb_spec j (m - 1)) as [-> | Hjlast]; cbn [andb].
    + now rewrite Nat.eqb_refl.
    + destruct (Nat.eqb_spec (m - 1) j); [lia |].
      rewrite !entry_zip_with. subst A B C.
      rewrite !entry_np_diag by (rewrite length_replicate; lia). cbn [mbind option_bind fmap option_map].
      destruct (Nat.eqb_spec j (m - 1 + 1)); [lia |]. cbn [orb].
      destruct (Z.eqb_spec (Z.of_nat j) (Z.of_nat (m - 1) + 0)); [lia |].
      destruct (Z.eqb_spec (Z.of_nat j) (Z.of_nat (m - 1) + 1)); [lia |].
      destruct (Nat.eqb_spec (m - 1) (j + 1)) as [Hadj | Hfar];
        destruct (Z.eqb_spec (Z.of_nat j) (Z.of_nat (m - 1) + -1)); try lia.
      * rewrite lookup_replicate_2 by lia. reflexivity.
      * reflexivity.
  - cbn [andb]. rewrite !entry_zip_with. subst A B C.
    rewrite !entry_np_diag by (rewrite length_replicate; lia).
    cbn [mbind option_bind fmap option_map].
    destruct (Nat.eqb_spec i j) as [<- | Hne].
    + rewrite Nat.min_id, lookup_replicate_2 by lia.
      destruct (Z.eqb_spec (Z.of_nat i) (Z.of_nat i + 0)); [| lia].
      destruct (Z.eqb_spec (Z.of_nat i) (Z.of_nat i + 1)); [lia |].
      destruct (Z.eqb_spec (Z.of_nat i) (Z.of_nat i + -1)); [lia |]. reflexivity.
    + destruct (Z.eqb_spec (Z.of_nat j) (Z.of_nat i + 0)); [lia |].
      destruct (Nat.eqb_spec j (i + 1)) as [-> | Hnext]; cbn [orb].
      * destruct (Z.eqb_spec (Z.of_nat (i + 1)) (Z.of_nat i + 1)); [| lia].
        destruct (Z.eqb_spec (Z.of_nat (i + 1)) (Z.of_nat i + -1)); [lia |].
        rewrite lookup_replicate_2 by lia. reflexivity.
      * destruct (Z.eqb_spec (Z.of_nat j) (Z.of_nat i + 1)); [lia |].
        destruct (Nat.eqb_spec i (j + 1)) as [-> | Hprev].
        -- destruct (Z.eqb_spec (Z.of_nat j) (Z.of_nat (j + 1) + -1)); [| lia].
           rewrite lookup_replicate_2 by lia. reflexivity.
        -- destruct (Z.eqb_spec (Z.of_nat j) (Z.of_nat i + -1)); [lia |]. reflexivity.
Qed.

(** ** Block expansion *)

Lemma lookup_join_same_length {A : Type} (n : nat) (ls : list (list A)) (j i : nat) :
  Forall (fun l => length l = n) ls ->
  (i < n)%nat ->
  mjoin ls !! (j * n + i)%nat = (l ← ls !! j; l !! i).
Proof.
  intros Hls Hi. revert j. induction Hls as [| l ls Hl _ IH]; intros j.
  - now rewrite lookup_nil.
  - cbn [mjoin list_join]. destruct j as [| j].
    + cbn. apply lookup_app_l. lia.
    + rewrite lookup_app_r by (rewrite Hl; lia).
      replace (S j * n + i - length l)%nat with (j * n + i)%nat by (rewrite Hl; lia).
      apply IH.
Qed.

Section BlockExpansion.

Variables (nb m : nat) (Ht Hc : list (list Q)).
Hypothesis Ht_square : square nb Ht.
Hypothesis Hc_square : square m Hc.

Lemma scaled_row_length (val : Q) (r : nat) :
  (r < nb)%nat -> length (default [] (scale_block Ht val !! r)) = nb.
Proof using Ht_square.
  intros Hr. destruct Ht_square as [Hlen Hrows]. unfold scale_block.
  rewrite list_lookup_fmap.
  destruct (lookup_lt_is_Some_2 Ht r) as [row Hrow]; [lia |].
  rewrite Hrow. cbn. rewrite length_map.
  rewrite Forall_lookup in Hrows. exact (Hrows _ _ Hrow).
Qed.

Lemma hstack_rows_length (row : list Q) :
  length row = m ->
  Forall (fun l => length l = (m * nb)%nat) (hstack nb (map (scale_block Ht) row)).
Proof using Ht_square.
  intros Hrow. unfold hstack. apply Forall_fmap, Forall_forall.
  intros r Hr. apply elem_of_seq in Hr. cbn.
  rewrite (length_join_same nb).
  - now rewrite !length_map, Hrow.
  - apply Forall_fmap, Forall_fmap, Forall_true. intros val. cbn.
    apply scaled_row_length. lia.
Qed.

Lemma np_block2_square : square (m * nb) (np_block2 nb (block_grid Ht Hc)).
Proof using Ht_square Hc_square.
  destruct Hc_square as [Hlen Hrows]. unfold np_block2. split.
  - rewrite (length_join_same nb).
    + unfold block_grid. now rewrite !length_map, Hlen.
    + apply Forall_fmap, Forall_true. intros blocks. cbn. unfold hstack.
      now rewrite length_map, length_seq.
  - apply Forall_join, Forall_fmap. unfold block_grid. apply Forall_fmap.
    eapply Forall_impl; [exact Hrows |]. intros row Hrow. cbn.
    now apply hstack_rows_length.
Qed.

Lemma np_block2_entry (a r b c : nat) :
  (a < m)%nat -> (r < nb)%nat -> (b < m)%nat -> (c < nb)%nat ->
  entry (np_block2 nb (block_grid Ht Hc)) (a * nb + r) (b * nb + c)
  = (h ← entry Ht r c; val ← entry Hc a b; Some (h * val)%Q).
Proof using Ht_square Hc_square.
  intros Ha Hr Hb Hcol. destruct Hc_square as [Hlen Hrows].
  destruct Ht_square as [Htlen Htrows].
  unfold entry at 1, np_block2.
  rewrite (lookup_join_same_length nb); [| | exact Hr]; cycle 1.
  { apply Forall_fmap, Forall_true. intros blocks. cbn. unfold hstack.
    now rewrite length_map, length_seq. }
  unfold block_grid. rewrite !list_lookup_fmap.
  destruct (lookup_lt_is_Some_2 Hc a) as [row Hrow]; [lia |].
  assert (length row = m) as Hrowlen.
  { rewrite Forall_lookup in Hrows. exact (Hrows _ _ Hrow). }
  rewrite Hrow. cbn [fmap option_map option_fmap mbind option_bind].
  unfold hstack. rewrite list_lookup_fmap, lookup_seq_lt by exact Hr.
  cbn [fmap option_map option_fmap mbind option_bind Nat.add].
  rewrite (lookup_join_same_length nb); [| | exact Hcol]; cycle 1.
  { apply Forall_fmap, Forall_fmap, Forall_true. intros val. cbn.
    now apply scaled_row_length. }
  rewrite !list_lookup_fmap.
  destruct (lookup_lt_is_Some_2 row b) as [val Hval]; [lia |].
  rewrite Hval. cbn [fmap option_map option_fmap mbind option_bind].
  unfold scale_block. rewrite list_lookup_fmap.
  destruct (lookup_lt_is_Some_2 Ht r) as [trow Htrow]; [lia |].
  unfold entry. rewrite Htrow, Hrow.
  cbn [fmap option_map option_fmap mbind option_bind default]. unfold id.
  rewrite list_lookup_fmap, Hval.
  destruct (trow !! c); reflexivity.
Qed.

Lemma np_block2_symmetric :
  symmetric nb Ht -> symmetric m Hc -> symmetric (m * nb) (np_block2 nb (block_grid Ht Hc)).
Proof using Ht_square Hc_square.
  intros [_ Htsym] [_ Hcsym]. split; [apply np_block2_square |].
  intros i j Hi Hj.
  assert (nb <> 0)%nat as Hnb by lia.
  pose proof (Nat.div_mod_eq i nb) as Ei. pose proof (Nat.div_mod_eq j nb) as Ej.
  pose proof (Nat.mod_upper_bound i nb Hnb) as Hri.
  pose proof (Nat.mod_upper_bound j nb Hnb) as Hrj.
  assert (i / nb < m)%nat as Hai by (apply Nat.Div0.div_lt_upper_bound; lia).
  assert (j / nb < m)%nat as Haj by (apply Nat.Div0.div_lt_upper_bound; lia).
  assert (forall a r b c, (a < m)%nat -> (r < nb)%nat -> (b < m)%nat -> (c < nb)%nat ->
            entry (np_block2 nb (block_grid Ht Hc)) (a * nb + r) (b * nb + c)
            = entry (np_block2 nb (block_grid Ht Hc)) (b * nb + c) (a * nb + r)) as Hswap.
  { intros a r b c Ha Hr Hb Hcol. rewrite !np_block2_entry by assumption.
    now rewrite (Htsym r c), (Hcsym a b) by assumption. }
  specialize (Hswap (i / nb)%nat (i mod nb)%nat (j / nb)%nat (j mod nb)%nat
                    Hai Hri Haj Hrj).
  replace (i / nb * nb + i mod nb)%nat with i in Hswap by lia.
  replace (j / nb * nb + j mod nb)%nat with j in Hswap by lia.
  exact Hswap.
Qed.

End BlockExpansion.

(** ** QUBOBuilder *)

Lemma build_quadratic_minimization_matrix_symmetric (npoints : nat) (dx : Q) :
  (2 <= npoints)%nat ->
  exists H, build_quadratic_minimization_matrix (Z.of_nat npoints) dx = Ok H
            /\ symmetric (npoints - 1) H.
Proof.
  intros Hn.
  destruct (build_quadratic_minimization_matrix_entries npoints dx Hn)
    as (H & HH & Hsq & Hentry).
  exists H. split; [exact HH |]. split; [exact Hsq |].
  intros i j Hi Hj. rewrite !Hentry by assumption. now rewrite H_cont_entry_sym.
Qed.

(** For any symmetric discretization matrix of size [nb] and any
    discretization vector of that length (not empty in the signed case),
    the QUBO matrix of a block of at least two points is symmetric of size
    [(len(f) - 1) * nb]. *)
Lemma qubo_matrix_symmetric_for_any_elements
    (f : list Q) (dx y1 : Q) (H_discret_elem : list (list Q))
    (d_discret_elem : list Q) (signed : bool) (nb : nat) :
  (2 <= length f)%nat ->
  symmetric nb H_discret_elem ->
  length d_discret_elem = nb ->
  (signed = true -> (1 <= nb)%nat) ->
  exists Qm,
    build_qubo_matrix f dx y1 H_discret_elem d_discret_elem signed = Ok Qm
    /\ symmetric ((length f - 1) * nb) Qm.
Proof.
  intros Hf Htsym Hdlen Hsigned. unfold build_qubo_matrix.
  destruct (build_quadratic_minimization_matrix_symmetric (length f) dx Hf)
    as (Hc & -> & Hcsym).
  cbn [mbind result_bind].
  destruct (build_quadratic_minimization_vector_length f dx y1 Hf) as (d & -> & Hd).
  cbn [mbind result_bind].
  set (m := (length f - 1)%nat) in *.
  assert (exists d', (if signed
                      then d0 ← get d_discret_elem 0;
                           sub_at d 0 (2 * d0 / dx ^ 2)%Q
                      else Ok d) = Ok d' /\ length d' = m) as (d' & -> & Hd').
  { destruct signed; [| by exists d].
    destruct (get_in_range d_discret_elem 0) as (d0 & _ & ->); [specialize (Hsigned eq_refl); lia |].
    cbn [mbind result_bind].
    destruct (sub_at_in_range d 0 (2 * d0 / dx ^ 2)%Q) as (d' & -> & Hlen); [lia |].
    exists d'. split; [reflexivity | lia]. }
  cbn [mbind result_bind].
  destruct Htsym as [Htsq Htsym]. destruct Hcsym as [Hcsq Hcsym].
  assert (length H_discret_elem = nb) as -> by apply Htsq.
  set (d_bin := mjoin _).
  assert (length d_bin = (m * nb)%nat) as Hdbin.
  { subst d_bin. rewrite (length_join_same nb).
    - now rewrite length_map, Hd'.
    - apply Forall_fmap, Forall_true. intros val. cbn. now rewrite length_map. }
  pose proof (np_block2_symmetric nb m H_discret_elem Hc Htsq Hcsq
                (conj Htsq Htsym) (conj Hcsq Hcsym)) as Hbin.
  pose proof (symmetric_np_diag_main d_bin) as Hdiag. rewrite Hdbin in Hdiag.
  rewrite (np_add2_square (m * nb)) by (apply Hbin || apply Hdiag).
  eexists. split; [reflexivity |]. now apply symmetric_zip_with.
Qed.

Lemma build_discretization_matrix_symmetric (qbits_integer qbits_decimal : Z) :
  exists H, build_discretization_matrix qbits_integer qbits_decimal = Ok H
            /\ symmetric (Z.to_nat (qbits_integer + qbits_decimal)) H.
Proof.
  eexists. split; [apply build_discretization_matrix_rows |].
  set (n := Z.to_nat (qbits_integer + qbits_decimal)). split.
  - split; [now rewrite length_map, length_j_range |].
    apply Forall_fmap, Forall_true. intros j1. cbn.
    now rewrite length_map, length_j_range.
  - intros i j Hi Hj. unfold entry.
    rewrite !list_lookup_fmap, !lookup_j_range by assumption. cbn.
    rewrite !list_lookup_fmap, !lookup_j_range by assumption. cbn.
    do 3 f_equal. lia.
Qed.

Lemma length_build_discretization_vector (qbits_integer qbits_decimal : Z) :
  length (build_discretization_vector qbits_integer qbits_decimal)
  = Z.to_nat (qbits_integer + qbits_decimal).
Proof. unfold build_discretization_vector. now rewrite length_map, length_j_range. Qed.

(** C4: for a block of at least two points and discretization elements
    built from bit counts with [qbits_integer + qbits_decimal >= 1], the
    QUBO matrix is returned, is square of size
    [(len(f_block) - 1) * (qbits_integer + qbits_decimal)] and symmetric
    (for every [dx], in particular for [dx > 0]). *)
Theorem build_qubo_matrix_symmetric
    (f_block : list Q) (dx y1 : Q) (qbits_integer qbits_decimal : Z) (signed : bool)
    (H_discret_elem : list (list Q)) :
  (2 <= length f_block)%nat ->
  1 <= qbits_integer + qbits_decimal ->
  build_discretization_matrix qbits_integer qbits_decimal = Ok H_discret_elem ->
  let unknowns := (length f_block - 1)%nat in
  exists Qm,
    build_qubo_matrix f_block dx y1 H_discret_elem
      (build_discretization_vector qbits_integer qbits_decimal) signed = Ok Qm
    /\ symmetric (unknowns * Z.to_nat (qbits_integer + qbits_decimal)) Qm.
Proof.
  intros Hf Hbits HH unknowns.
  destruct (build_discretization_matrix_symmetric qbits_integer qbits_decimal)
    as (H' & HH' & Hsym).
  rewrite HH in HH'. injection HH' as <-.
  apply qubo_matrix_symmetric_for_any_elements; try assumption.
  - apply length_build_discretization_vector.
  - intros _. lia.
Qed.

Lemma build_qubo_matrix_symmetric_witness :
  exists Qm,
    build_qubo_matrix [1%Q; 2%Q; 3%Q] 1%Q 0%Q
      [[1%Q; (1 / 2)%Q]; [(1 / 2)%Q; (1 / 4)%Q]] (build_discretization_vector 1 1) true
    = Ok Qm
    /\ symmetric ((length [1%Q; 2%Q; 3%Q] - 1) * Z.to_nat (1 + 1)) Qm.
Proof.
  apply (build_qubo_matrix_symmetric [1%Q; 2%Q; 3%Q] 1%Q 0%Q 1 1 true);
    [cbn; lia | lia | reflexivity].
Defined.

(** ** BlockSolverLoop *)

Lemma for_each_invariant {A S : Type} (P : S -> Prop) (xs : list A)
    (body : S -> A -> result S) (s r : S) :
  P s ->
  (forall s x s', x ∈ xs -> P s -> body s x = Ok s' -> P s') ->
  for_each xs body s = Ok r ->
  P r.
Proof.
  revert s. induction xs as [| x xs IH]; intros s Hs Hstep; cbn [for_each].
  - now intros [= <-].
  - destruct (body s x) as [s' |] eqn:Hbody; [| discriminate]. cbn [mbind result_bind].
    apply IH.
    + eapply Hstep; [apply list_elem_of_here | exact Hs | exact Hbody].
    + intros s0 x0 s0' Hin. apply Hstep. now apply list_elem_of_further.
Qed.

Lemma for_each_indexed {A S : Type} (P : nat -> S -> Prop) (xs : list A)
    (body : S -> A -> result S) (s : S) :
  P O s ->
  (forall k x s, xs !! k = Some x -> P k s -> exists s', body s x = Ok s' /\ P (Datatypes.S k) s') ->
  exists r, for_each xs body s = Ok r /\ P (length xs) r.
Proof.
  revert P s. induction xs as [| x xs IH]; intros P s Hs Hstep; cbn [for_each length].
  - by exists s.
  - destruct (Hstep O x s eq_refl Hs) as (s' & -> & Hs'). cbn [mbind result_bind].
    apply (IH (fun k => P (Datatypes.S k))); [exact Hs' |].
    intros k x0 s0 Hx0. now apply Hstep.
Qed.

Section SolveProperties.

Variable sample_qubo : list (list Q) -> list sample.

(** What a block iteration that ends normally has done. *)
Lemma solve_block_inv (f : list Q) (dx : Q) (qbits_integer : Z) (signed : bool)
    (points_per_qubo : Z) (average_solutions : bool)
    (H_discret_elem : list (list Q)) (d_discret_elem : list Q)
    (solution solution' : list (option Q)) (error error' : Q) (i : Z) :
  solve_block sample_qubo f dx qbits_integer signed points_per_qubo average_solutions
              H_discret_elem d_discret_elem (solution, error) i
  = Ok (solution', error') ->
  let next_i := Z.min (i + points_per_qubo) (Z.of_nat (length f)) in
  let f_block := py_slice f (i - 1) next_i in
  exists y1 Qm f0 vals energy,
    get solution (i - 1) = Ok (Some y1)
    /\ build_qubo_matrix f_block dx y1 H_discret_elem d_discret_elem signed = Ok Qm
    /\ get f_block 0 = Ok f0
    /\ slice_assign solution i next_i (map Some vals) = Ok solution'
    /\ reported_energy average_solutions (sample_qubo Qm) = Some energy
    /\ error' =
       (error
        + (energy
           + (if signed
              then (y1 ^ 2 + 2 * y1 * f0 * dx) / dx ^ 2
                   + np_sum (map (fun x => x ^ 2) (py_slice f_block 0 (-1)))
                   + (py_pow 4 (qbits_integer - 1)
                      + py_pow 2 qbits_integer * (y1 + f0 * dx)) / dx ^ 2
              else (y1 ^ 2 + 2 * y1 * f0 * dx) / dx ^ 2
                   + np_sum (map (fun x => x ^ 2) (py_slice f_block 0 (-1))))))%Q.
Proof.
  intros Hblock next_i f_block. unfold solve_block in Hblock.
  fold next_i in Hblock. fold f_block in Hblock.
  destruct (get solution (i - 1)) as [[y1 |] |] eqn:Hy1; try discriminate.
  cbn [mbind result_bind] in Hblock.
  destruct (build_qubo_matrix f_block dx y1 _ _ signed) as [Qm |] eqn:HQm;
    [| discriminate].
  cbn [mbind result_bind] in Hblock.
  destruct (np_array2 _) as [[samples_bin m] |]; [| discriminate].
  cbn [mbind result_bind] in Hblock.
  destruct (np_reshape3 _ _ _) as [structured |]; [| discriminate].
  cbn [mbind result_bind] in Hblock.
  destruct (get f_block 0) as [f0 |] eqn:Hf0; [| discriminate].
  cbn [mbind result_bind] in Hblock.
  exists y1, Qm, f0.
  destruct average_solutions.
  - destruct (slice_assign solution i next_i _) as [sol1 |] eqn:Hassign; [| discriminate].
    cbn [mbind result_bind] in Hblock. injection Hblock as <- <-.
    eexists _, _. repeat split; try eassumption; reflexivity.
  - destruct (get (if signed then _ else _) 0) as [best |]; [| discriminate].
    cbn [mbind result_bind] in Hblock.
    destruct (slice_assign solution i next_i _) as [sol1 |] eqn:Hassign; [| discriminate].
    cbn [mbind result_bind] in Hblock.
    destruct (sample_qubo Qm) as [| first rest] eqn:Hset; [discriminate |].
    cbn [py_next mbind result_bind] in Hblock. injection Hblock as <- <-.
    eexists _, _. repeat split; try eassumption; reflexivity.
Qed.


(** C8: a block iteration in signed mode that ends normally has added to
    the running error the energy taken from the sample set plus an
    [error_shift] made of the unsigned constant
    [(y1^2 + 2 y1 f_block[0] dx) / dx^2 + sum(f_block[0:-1]^2)] and, on top
    of it, the recentering offset
    [(4^(qbits_integer-1) + 2^qbits_integer (y1 + f_block[0] dx)) / dx^2],
    where [y1 = solution[i-1]] and [f_block = f[i-1 : next_i]]. *)
Theorem signed_error_shift (f : list Q) (dx : Q) (qbits_integer : Z)
    (points_per_qubo : Z) (average_solutions : bool)
    (H_discret_elem : list (list Q)) (d_discret_elem : list Q)
    (solution solution' : list (option Q)) (error error' : Q) (i : Z) :
  solve_block sample_qubo f dx qbits_integer true points_per_qubo average_solutions
              H_discret_elem d_discret_elem (solution, error) i
  = Ok (solution', error') ->
  let next_i := Z.min (i + points_per_qubo) (Z.of_nat (length f)) in
  let f_block := py_slice f (i - 1) next_i in
  exists y1 f0 Qm energy,
    get solution (i - 1) = Ok (Some y1)
    /\ get f_block 0 = Ok f0
    /\ build_qubo_matrix f_block dx y1 H_discret_elem d_discret_elem true = Ok Qm
    /\ reported_energy average_solutions (sample_qubo Qm) = Some energy
    /\ error' =
       (error
        + (energy
           + ((y1 ^ 2 + 2 * y1 * f0 * dx) / dx ^ 2
              + np_sum (map (fun x => x ^ 2) (py_slice f_block 0 (-1)))
              + (py_pow 4 (qbits_integer - 1)
                 + py_pow 2 qbits_integer * (y1 + f0 * dx)) / dx ^ 2)))%Q.
Proof.
  intros Hblock next_i f_block.
  destruct (solve_block_inv _ _ _ _ _ _ _ _ _ _ _ _ _ Hblock)
    as (y1 & Qm & f0 & vals & energy & Hy1 & HQm & Hf0 & _ & Henergy & Herr).
  exists y1, f0, Qm, energy. repeat split; assumption.
Qed.

End SolveProperties.

Lemma signed_error_shift_witness :
  let f := [1%Q; 2%Q; 3%Q] in
  let solution := [Some 5%Q; None; None] in
  let next_i := Z.min (1 + 2) (Z.of_nat (length f)) in
  let f_block := py_slice f (1 - 1) next_i in
  exists y1 f0 Qm energy,
    get solution (1 - 1) = Ok (Some y1)
    /\ get f_block 0 = Ok f0
    /\ build_qubo_matrix f_block 1%Q y1 [[1%Q]] [1%Q] true = Ok Qm
    /\ reported_energy false (zero_sampler Qm) = Some energy
    /\ (53 # 1)%Q =
       (0
        + (energy
           + ((y1 ^ 2 + 2 * y1 * f0 * 1) / 1 ^ 2
              + np_sum (map (fun x => x ^ 2) (py_slice f_block 0 (-1)))
              + (py_pow 4 (1 - 1) + py_pow 2 1 * (y1 + f0 * 1)) / 1 ^ 2)))%Q.
Proof.
  apply (signed_error_shift zero_sampler [1%Q; 2%Q; 3%Q] 1%Q 1 2 false [[1%Q]] [1%Q]
           [Some 5%Q; None; None] [Some 5%Q; Some (-1)%Q; Some (-1)%Q] 0%Q (53 # 1)%Q 1).
  vm_compute. reflexivity.
Defined.

(** ** The block schedule *)

Lemma py_range_step_positive (start stop step : Z) :
  0 < step ->
  py_range_step start stop step
  = Ok (map (fun k => start + Z.of_nat k * step)
            (seq 0 (Z.to_nat ((stop - start + step - 1) / step)))).
Proof.
  intros Hstep. unfold py_range_step.
  destruct (Z.eqb_spec step 0); [lia |]. destruct (Z.ltb_spec 0 step); [| lia].
  reflexivity.
Qed.

Lemma py_range_step_negative_empty (stop step : Z) :
  step < 0 -> 1 <= stop -> py_range_step 1 stop step = Ok [].
Proof.
  intros Hstep Hstop. unfold py_range_step.
  destruct (Z.eqb_spec step 0); [lia |]. destruct (Z.ltb_spec 0 step); [lia |].
  assert ((1 - stop - step - 1) / - step <= 0) as Hcount.
  { apply Z.lt_succ_r. apply Z.div_lt_upper_bound; lia. }
  now replace (Z.to_nat ((1 - stop - step - 1) / - step)) with O by lia.
Qed.

(** The number of blocks and the bounds of each block: block [k] starts at
    [1 + k * step], which lies before [stop]; the last block reaches
    [stop]. *)
Lemma block_count_bounds (stop step : Z) (k : nat) :
  0 < step ->
  (k < Z.to_nat ((stop - 1 + step - 1) / step))%nat ->
  1 + Z.of_nat k * step < stop.
Proof.
  intros Hstep Hk.
  pose proof (Z.mul_div_le (stop - 1 + step - 1) step Hstep) as Hle.
  assert (Z.of_nat k + 1 <= (stop - 1 + step - 1) / step) as Hq by lia.
  nia.
Qed.

Lemma block_count_reaches (stop step : Z) :
  0 < step ->
  stop <= 1 + Z.of_nat (Z.to_nat ((stop - 1 + step - 1) / step)) * step.
Proof.
  intros Hstep.
  pose proof (Z.mul_succ_div_gt (stop - 1 + step - 1) step Hstep) as Hgt.
  destruct (Z.le_gt_cases 0 ((stop - 1 + step - 1) / step)) as [Hpos | Hneg].
  - rewrite Z2Nat.id by exact Hpos. nia.
  - replace (Z.to_nat ((stop - 1 + step - 1) / step)) with O by lia. nia.
Qed.

Lemma py_range_step_lookup (stop step : Z) (indices : list Z) (k : nat) (i : Z) :
  0 < step ->
  py_range_step 1 stop step = Ok indices ->
  indices !! k = Some i ->
  i = 1 + Z.of_nat k * step /\ 1 <= i < stop.
Proof.
  intros Hstep Hrange Hk. rewrite py_range_step_positive in Hrange by exact Hstep.
  injection Hrange as <-. rewrite list_lookup_fmap in Hk.
  destruct (seq _ _ !! k) as [k' |] eqn:Hseq; [| discriminate].
  apply lookup_seq in Hseq. destruct Hseq as [-> Hlt]. cbn in Hk. injection Hk as <-.
  split; [reflexivity |]. split; [nia |]. now apply block_count_bounds.
Qed.

Lemma py_range_step_from_one (stop step : Z) (indices : list Z) :
  1 <= stop ->
  py_range_step 1 stop step = Ok indices ->
  forall i, i ∈ indices -> 1 <= i < stop.
Proof.
  intros Hstop Hrange i Hin.
  destruct (Z.lt_trichotomy step 0) as [Hneg | [-> | Hpos]].
  - rewrite py_range_step_negative_empty in Hrange by assumption.
    injection Hrange as <-. now apply elem_of_nil in Hin.
  - discriminate.
  - apply list_elem_of_lookup in Hin. destruct Hin as [k Hk].
    now destruct (py_range_step_lookup stop step indices k i Hpos Hrange Hk).
Qed.

(** ** Frame of the block assignment *)

Lemma slice_assign_lookup_before {A : Type} (l l' : list A) (start stop : Z)
    (vals : list A) (k : nat) :
  slice_assign l start stop vals = Ok l' ->
  (k < py_clamp (length l) start)%nat ->
  l' !! k = l !! k.
Proof.
  unfold slice_assign. destruct (np_broadcast_to _ _) as [vals' |]; [| discriminate].
  cbn. intros [= <-] Hk. pose proof (py_clamp_le (length l) start).
  rewrite lookup_app_l by (rewrite length_take; lia).
  now apply lookup_take_lt.
Qed.

(** C10: when [solve] returns for an input with at least one grid point,
    entry 0 of the solution is the boundary value given as argument: it is
    assigned before the loop and every block writes from index [i >= 1]
    on. *)
Theorem solve_keeps_boundary (sample_qubo : list (list Q) -> list sample)
    (f : list Q) (dx y1 : Q) (qbits_integer qbits_decimal : Z)
    (signed : bool) (points_per_qubo : Z) (average_solutions : bool)
    (solution : list (option Q)) (error : Q) :
  (1 <= length f)%nat ->
  solve sample_qubo f dx y1 qbits_integer qbits_decimal signed points_per_qubo
        average_solutions = Ok (solution, error) ->
  solution !! O = Some (Some y1).
Proof.
  intros Hf. unfold solve.
  rewrite set_at_nonneg by (rewrite length_replicate; lia).
  cbn [mbind result_bind].
  rewrite build_discretization_matrix_rows. cbn [mbind result_bind].
  destruct (py_range_step 1 _ points_per_qubo) as [indices |] eqn:Hrange;
    [| discriminate].
  cbn [mbind result_bind]. intros Hloop.
  apply (for_each_invariant (fun st => fst st !! O = Some (Some y1))) in Hloop;
    [exact Hloop | |].
  - cbn. apply list_lookup_insert_eq. rewrite length_replicate. lia.
  - intros [sol err] i [sol' err'] Hin Hsol Hblock. cbn [fst] in *.
    apply solve_block_inv in Hblock.
    destruct Hblock as (_ & _ & _ & vals & _ & _ & _ & _ & Hassign & _).
    rewrite (slice_assign_lookup_before _ _ _ _ _ _ Hassign); [exact Hsol |].
    apply lookup_lt_Some in Hsol.
    assert (1 <= Z.of_nat (length f)) as Hstop by lia.
    destruct (py_range_step_from_one _ _ _ Hstop Hrange i Hin) as [Hi _].
    rewrite py_clamp_nonneg by lia. lia.
Qed.

Lemma solve_keeps_boundary_witness :
  [Some 1%Q; Some 0%Q; Some 0%Q] !! O = Some (Some 1%Q).
Proof.
  apply (solve_keeps_boundary zero_sampler [0%Q; 0%Q; 0%Q] 1%Q 1%Q 1 0 false 2 false
           [Some 1%Q; Some 0%Q; Some 0%Q] 1%Q).
  - cbn. lia.
  - vm_compute. reflexivity.
Defined.

(** ** Totality of a block iteration *)

Lemma np_broadcast_to_Forall {A : Type} (P : A -> Prop) (vals vals' : list A) (n : nat) :
  np_broadcast_to vals n = Ok vals' -> Forall P vals -> Forall P vals'.
Proof.
  unfold np_broadcast_to. destruct (length vals =? n)%nat.
  - now intros [= <-].
  - destruct vals as [| v [| ? ?]]; try discriminate.
    intros [= <-] Hv. apply Forall_replicate. now apply Forall_inv in Hv.
Qed.

Lemma slice_assign_total {A : Type} (l : list A) (start stop : Z) (vals : list A) :
  length vals = (py_clamp (length l) stop - py_clamp (length l) start)%nat ->
  exists l', slice_assign l start stop vals = Ok l'.
Proof.
  intros Hvals. unfold slice_assign. rewrite np_broadcast_to_same by exact Hvals.
  cbn. by eexists.
Qed.

Lemma slice_assign_assigned (solution solution' : list (option Q)) (start stop : Z)
    (vals : list (option Q)) :
  slice_assign solution start stop vals = Ok solution' ->
  Forall is_Some vals ->
  assigned_upto (py_clamp (length solution) start) solution ->
  assigned_upto (py_clamp (length solution) stop) solution'.
Proof.
  unfold slice_assign.
  destruct (np_broadcast_to vals _) as [vals' |] eqn:Hb; [| discriminate].
  cbn. intros [= <-] Hvals Hbefore j Hj.
  pose proof (np_broadcast_to_length _ _ _ Hb) as Hlen.
  pose proof (np_broadcast_to_Forall _ _ _ _ Hb Hvals) as Hsome.
  pose proof (py_clamp_le (length solution) start) as Hs.
  destruct (Nat.lt_ge_cases j (py_clamp (length solution) start)) as [Hlt | Hge].
  - rewrite lookup_app_l by (rewrite length_take; lia).
    rewrite lookup_take_lt by exact Hlt. now apply Hbefore.
  - rewrite lookup_app_r by (rewrite length_take; lia).
    rewrite length_take, lookup_app_l by lia.
    destruct (lookup_lt_is_Some_2 vals' (j - py_clamp (length solution) start
                                          `min` length solution)) as [x Hx]; [lia |].
    rewrite Hx. rewrite Forall_lookup in Hsome. destruct (Hsome _ _ Hx) as [v ->].
    by exists v.
Qed.

Lemma np_array2_uniform (rows : list (list Z)) (m : nat) :
  rows <> [] ->
  Forall (fun r => length r = m) rows ->
  np_array2 rows = Ok (rows, m).
Proof.
  intros Hne Hrows. destruct rows as [| r rows']; [contradiction |].
  unfold np_array2.
  assert (length r = m) as Hr by now apply Forall_inv in Hrows.
  assert (forallb (fun r' => (length r' =? length r)%nat) (r :: rows') = true) as ->.
  { apply forallb_forall. intros r' Hin. apply Nat.eqb_eq.
    rewrite Forall_forall in Hrows. rewrite Hr. apply Hrows. now apply list_elem_of_In. }
  now rewrite Hr.
Qed.

Lemma np_reshape3_uniform (a : list (list Z)) (groups n : nat) :
  a <> [] -> (1 <= n)%nat ->
  np_reshape3 a (groups * n) n
  = Ok (map (fun row => reshape (replicate groups n) row) a).
Proof.
  intros Hne Hn. unfold np_reshape3.
  assert (1 <= length a)%nat as Hlen by (destruct a; [contradiction | cbn; lia]).
  destruct (Nat.eqb_spec (length a * n) 0) as [Hzero | _]; [nia |].
  replace (length a * (groups * n))%nat with (groups * (length a * n))%nat by lia.
  rewrite Nat.Div0.mod_mul, Nat.eqb_refl. cbn [orb negb].
  rewrite Nat.div_mul by lia. reflexivity.
Qed.

Lemma samples_cont_rows (signed : bool) (qbits_integer : Z) (d_discret_elem : list Q)
    (groups nb : nat) (rows : list (list Z)) :
  let structured := map (fun row => reshape (replicate groups nb) row) rows in
  let samples_cont := map (map (decode_group d_discret_elem)) structured in
  let samples_cont :=
    if signed
    then map (map (fun x => (x - py_pow 2 (qbits_integer - 1))%Q)) samples_cont
    else samples_cont in
  length samples_cont = length rows
  /\ Forall (fun row => length row = groups) samples_cont.
Proof.
  cbv zeta. split.
  - destruct signed; now rewrite !length_map.
  - destruct signed; repeat rewrite Forall_fmap; apply Forall_true; intros row; cbn;
      rewrite ?length_map, length_reshape; apply length_replicate.
Qed.

Section SolveTotality.

Variable sample_qubo : list (list Q) -> list sample.
Hypothesis sampler_ok : sampler_well_formed sample_qubo.

Lemma solve_block_total (f : list Q) (dx : Q) (qbits_integer : Z) (signed : bool)
    (points_per_qubo : Z) (average_solutions : bool)
    (H_discret_elem : list (list Q)) (d_discret_elem : list Q) (nb : nat)
    (solution : list (option Q)) (error : Q) (i : Z) :
  symmetric nb H_discret_elem ->
  length d_discret_elem = nb ->
  (1 <= nb)%nat ->
  1 <= points_per_qubo ->
  1 <= i < Z.of_nat (length f) ->
  length solution = length f ->
  assigned_upto (Z.to_nat i) solution ->
  exists solution' error',
    solve_block sample_qubo f dx qbits_integer signed points_per_qubo average_solutions
                H_discret_elem d_discret_elem (solution, error) i
    = Ok (solution', error')
    /\ length solution' = length f
    /\ assigned_upto (Z.to_nat (Z.min (i + points_per_qubo) (Z.of_nat (length f))))
                     solution'.
Proof using sampler_ok.
  intros Htsym <- Hnb Hpp Hi Hlen Hassigned. unfold solve_block.
  set (nb := length d_discret_elem) in *.
  set (next_i := Z.min (i + points_per_qubo) (Z.of_nat (length f))).
  set (f_block := py_slice f (i - 1) next_i).
  assert (i < next_i <= Z.of_nat (length f)) as Hnext by (subst next_i; lia).
  destruct (Hassigned (Z.to_nat (i - 1))) as [y1 Hy1]; [lia |].
  rewrite (get_nonneg _ _ (Some y1)) by (lia || exact Hy1).
  cbn [mbind result_bind].
  assert (length f_block = Z.to_nat (next_i - i + 1)) as Hfb.
  { subst f_block. rewrite length_py_slice, !py_clamp_nonneg by lia. lia. }
  set (groups := Z.to_nat (next_i - i)).
  destruct (qubo_matrix_symmetric_for_any_elements f_block dx y1 H_discret_elem
              d_discret_elem signed nb) as (Qm & -> & Hsym);
    [lia | assumption | reflexivity | intros; lia |].
  cbn [mbind result_bind].
  assert (length Qm = (groups * nb)%nat) as HQm.
  { destruct Hsym as [[HlenQ _] _]. rewrite HlenQ, Hfb. subst groups. f_equal. lia. }
  destruct (sampler_ok Qm) as [Hne Hvals]. rewrite HQm in Hvals.
  set (sample_set := sample_qubo Qm) in *.
  assert (map sample_values sample_set <> []) as Hne'.
  { destruct sample_set; [contradiction | discriminate]. }
  rewrite (np_array2_uniform _ (groups * nb)) by (try apply Forall_fmap; assumption).
  cbn [mbind result_bind].
  rewrite np_reshape3_uniform by assumption. cbn [mbind result_bind].
  destruct (get_in_range f_block 0) as (f0 & _ & ->); [lia |].
  cbn [mbind result_bind].
  assert (py_clamp (length solution) next_i - py_clamp (length solution) i = groups)%nat
    as Hslice.
  { rewrite !py_clamp_nonneg by lia. subst groups. lia. }
  assert (forall vals solution',
            slice_assign solution i next_i (map Some vals) = Ok solution' ->
            length solution' = length f
            /\ assigned_upto (Z.to_nat next_i) solution') as Hfinish.
  { intros vals sol' Hsol'. split.
    - now rewrite (slice_assign_length _ _ _ _ _ Hsol').
    - replace (Z.to_nat next_i) with (py_clamp (length solution) next_i)
        by (rewrite py_clamp_nonneg by lia; lia).
      eapply slice_assign_assigned; [exact Hsol' | |].
      + apply Forall_fmap, Forall_true. intros v. by exists v.
      + rewrite py_clamp_nonneg by lia.
        replace (length solution `min` Z.to_nat i)%nat with (Z.to_nat i) by lia.
        exact Hassigned. }
  destruct (samples_cont_rows signed qbits_integer d_discret_elem groups nb
              (map sample_values sample_set)) as [Hcount Hrows].
  destruct average_solutions.
  - match goal with
    | |- context [slice_assign solution i next_i ?v] =>
        destruct (slice_assign_total solution i next_i v) as [sol' Hsol'];
        [| rewrite Hsol']
    end.
    { rewrite !length_map, length_seq, Nat.div_mul, Hslice by lia. reflexivity. }
    cbn [mbind result_bind]. exists sol'. eexists. split; [reflexivity |].
    eapply Hfinish. exact Hsol'.
  - match goal with
    | |- context [get ?sc 0] =>
        destruct (get_in_range sc 0) as (best & Hbest & ->)
    end.
    { rewrite Hcount, length_map. destruct sample_set; [contradiction | cbn; lia]. }
    cbn [mbind result_bind].
    assert (length best = groups) as Hbestlen.
    { rewrite Forall_lookup in Hrows. exact (Hrows _ _ Hbest). }
    destruct (slice_assign_total solution i next_i (map Some best)) as [sol' Hsol'];
      [now rewrite length_map, Hslice |].
    rewrite Hsol'. cbn [mbind result_bind].
    destruct sample_set as [| first rest]; [contradiction |].
    cbn [py_next mbind result_bind]. exists sol'. eexists. split; [reflexivity |].
    eapply Hfinish. exact Hsol'.
Qed.



(** [solve] returns whenever the sampler keeps its contract, for every [dx]
    and [y1]: the solution has the length of [f] and all of it has been
    assigned. *)
Lemma solve_total (f : list Q) (dx y1 : Q) (qbits_integer qbits_decimal : Z)
    (signed : bool) (points_per_qubo : Z) (average_solutions : bool) :
  (1 <= length f)%nat ->
  1 <= points_per_qubo ->
  1 <= qbits_integer + qbits_decimal ->
  exists solution error,
    solve sample_qubo f dx y1 qbits_integer qbits_decimal signed points_per_qubo
          average_solutions = Ok (solution, error)
    /\ length solution = length f
    /\ assigned_upto (length f) solution.
Proof using sampler_ok.
  intros Hf Hpp Hbits. unfold solve.
  rewrite set_at_nonneg by (rewrite length_replicate; lia).
  cbn [mbind result_bind].
  destruct (build_discretization_matrix_symmetric qbits_integer qbits_decimal)
    as (Ht & -> & Htsym).
  cbn [mbind result_bind].
  rewrite py_range_step_positive by lia. cbn [mbind result_bind].
  set (n := Z.of_nat (length f)).
  set (indices := map _ (seq 0 _)).
  set (P := fun (k : nat) (st : list (option Q) * Q) =>
              length (fst st) = length f
              /\ assigned_upto (Z.to_nat (Z.min (1 + Z.of_nat k * points_per_qubo) n))
                               (fst st)).
  destruct (for_each_indexed P indices
              (solve_block sample_qubo f dx qbits_integer signed points_per_qubo
                 average_solutions Ht
                 (build_discretization_vector qbits_integer qbits_decimal))
              (<[Z.to_nat 0 := Some y1]> (replicate (length f) None), 0%Q))
    as ([sol err] & Hloop & Hlen & Hall).
  - subst P. cbn [fst]. split; [now rewrite length_insert, length_replicate |].
    intros j Hj. assert (j = O) as -> by lia. exists y1.
    apply list_lookup_insert_eq. rewrite length_replicate. lia.
  - intros k x [sol err] Hx [Hlen Hupto]. cbn [fst] in Hlen, Hupto.
    assert (x = 1 + Z.of_nat k * points_per_qubo /\ 1 <= x < n) as [Hxk Hxn].
    { eapply py_range_step_lookup; [| | exact Hx]; [lia |].
      apply py_range_step_positive. lia. }
    destruct (solve_block_total f dx qbits_integer signed points_per_qubo
                average_solutions Ht
                (build_discretization_vector qbits_integer qbits_decimal)
                (Z.to_nat (qbits_integer + qbits_decimal)) sol err x)
      as (sol' & err' & Hblock & Hlen' & Hupto'); try assumption.
    + apply length_build_discretization_vector.
    + lia.
    + replace (Z.to_nat x) with (Z.to_nat (Z.min (1 + Z.of_nat k * points_per_qubo) n))
        by lia. exact Hupto.
    + exists (sol', err'). split; [exact Hblock |]. subst P. cbn [fst].
      split; [exact Hlen' |].
      replace (Z.min (1 + Z.of_nat (S k) * points_per_qubo) n)
        with (Z.min (x + points_per_qubo) (Z.of_nat (length f))) by lia.
      exact Hupto'.
  - exists sol, err. split; [exact Hloop |]. split; [exact Hlen |].
    cbn [fst] in Hall. subst indices. rewrite length_map, length_seq in Hall.
    pose proof (block_count_reaches n points_per_qubo ltac:(lia)) as Hreach.
    replace (length f) with
      (Z.to_nat (Z.min (1 + Z.of_nat (Z.to_nat ((n - 1 + points_per_qubo - 1)
                                                 / points_per_qubo))
                           * points_per_qubo) n)) at 1 by lia.
    exact Hall.
Qed.

End SolveTotality.

Lemma zero_sampler_well_formed : sampler_well_formed zero_sampler.
Proof.
  intros Qm. split; [discriminate |].
  unfold zero_sampler. apply Forall_singleton. cbn. apply length_replicate.
Qed.

(** ** Invalid configurations *)

Lemma j_range_no_bits (qbits_integer qbits_decimal : Z) :
  qbits_integer + qbits_decimal = 0 -> j_range qbits_integer qbits_decimal = [].
Proof. intros Hbits. unfold j_range. apply py_range_nil. lia. Qed.

Lemma build_qubo_matrix_no_bits_signed (f : list Q) (dx y1 : Q)
    (H_discret_elem : list (list Q)) :
  (2 <= length f)%nat ->
  build_qubo_matrix f dx y1 H_discret_elem [] true = Raise IndexError.
Proof.
  intros Hf. unfold build_qubo_matrix.
  destruct (build_quadratic_minimization_matrix_symmetric (length f) dx Hf) as (Hc & -> & _).
  cbn [mbind result_bind].
  destruct (build_quadratic_minimization_vector_length f dx y1 Hf) as (d & -> & _).
  reflexivity.
Qed.

Lemma np_array2_error (rows : list (list Z)) (e : exn) :
  np_array2 rows = Raise e -> e = ValueError.
Proof.
  unfold np_array2. destruct rows as [| r rows']; [discriminate |].
  destruct (forallb _ _); [discriminate |]. now intros [= <-].
Qed.

Section InvalidConfiguration.

Variable sample_qubo : list (list Q) -> list sample.
Variables (f : list Q) (dx y1 : Q) (qbits_integer qbits_decimal : Z).
Variables (signed average_solutions : bool).

Lemma solve_zero_block_size :
  (1 <= length f)%nat ->
  solve sample_qubo f dx y1 qbits_integer qbits_decimal signed 0 average_solutions
  = Raise ValueError.
Proof.
  intros Hf. unfold solve.
  rewrite set_at_nonneg by (rewrite length_replicate; lia).
  cbn [mbind result_bind]. rewrite build_discretization_matrix_rows. reflexivity.
Qed.

Lemma solve_negative_block_size (points_per_qubo : Z) :
  (1 <= length f)%nat ->
  points_per_qubo < 0 ->
  solve sample_qubo f dx y1 qbits_integer qbits_decimal signed points_per_qubo
        average_solutions
  = Ok (Some y1 :: replicate (length f - 1) None, 0%Q).
Proof.
  intros Hf Hpp. unfold solve.
  rewrite set_at_nonneg by (rewrite length_replicate; lia).
  cbn [mbind result_bind]. rewrite build_discretization_matrix_rows.
  cbn [mbind result_bind]. rewrite py_range_step_negative_empty by lia.
  cbn [mbind result_bind for_each].
  destruct (length f) as [| n']; [lia |]. cbn. now rewrite Nat.sub_0_r.
Qed.

Lemma solve_no_bits (points_per_qubo : Z) :
  (2 <= length f)%nat ->
  1 <= points_per_qubo ->
  qbits_integer + qbits_decimal = 0 ->
  solve sample_qubo f dx y1 qbits_integer qbits_decimal signed points_per_qubo
        average_solutions
  = Raise (if signed then IndexError else ValueError).
Proof.
  intros Hf Hpp Hbits. unfold solve.
  rewrite set_at_nonneg by (rewrite length_replicate; lia).
  cbn [mbind result_bind]. rewrite build_discretization_matrix_rows.
  unfold build_discretization_vector. rewrite j_range_no_bits by exact Hbits.
  cbn [mbind result_bind map]. rewrite py_range_step_positive by lia.
  cbn [mbind result_bind].
  assert (exists count',
            Z.to_nat ((Z.of_nat (length f) - 1 + points_per_qubo - 1) / points_per_qubo)
            = S count') as [count' ->].
  { exists (Z.to_nat ((Z.of_nat (length f) - 1 + points_per_qubo - 1)
                      / points_per_qubo) - 1)%nat.
    assert (1 <= (Z.of_nat (length f) - 1 + points_per_qubo - 1) / points_per_qubo)
      by (apply Z.div_le_lower_bound; lia).
    lia. }
  cbn [seq map for_each].
  match goal with
  | |- (?block ≫= _) = _ =>
      assert (block = Raise (if signed then IndexError else ValueError)) as ->;
      [| reflexivity]
  end.
  unfold solve_block.
  replace (1 + Z.of_nat 0 * points_per_qubo) with 1 by lia.
  set (next_i := Z.min (1 + points_per_qubo) (Z.of_nat (length f))).
  set (f_block := py_slice f (1 - 1) next_i).
  assert (2 <= length f_block)%nat as Hfb.
  { subst f_block. rewrite length_py_slice, !py_clamp_nonneg by lia. lia. }
  rewrite (get_nonneg _ _ (Some y1)); [| lia |]; cycle 1.
  { apply list_lookup_insert_eq. rewrite length_replicate. lia. }
  cbn [mbind result_bind].
  destruct signed.
  - now rewrite build_qubo_matrix_no_bits_signed.
  - destruct (qubo_matrix_symmetric_for_any_elements f_block dx y1 [] [] false O)
      as (Qm & -> & _); [exact Hfb | | reflexivity | discriminate |].
    { split; [split; [reflexivity | constructor] |]. intros i j Hi. lia. }
    cbn [mbind result_bind].
    destruct (np_array2 _) as [[samples_bin m] | e] eqn:Harray;
      [| now rewrite (np_array2_error _ _ Harray)].
    cbn [mbind result_bind]. unfold np_reshape3. cbn [length].
    now rewrite Nat.mul_0_r.
Qed.

End InvalidConfiguration.

(** C2, as stated, fails: there is no check of the configuration.  With
    [dx = -1] the solver runs two blocks and returns; with
    [points_per_qubo = -1] it returns at once, leaving all but entry 0
    unassigned; with no bits at all the discretization builders return
    empty arrays. *)
Lemma solve_accepts_invalid_configuration :
  solve zero_sampler [1%Q; 1%Q; 1%Q] (-1)%Q 0%Q 1 0 false 1 false
  = Ok ([Some 0%Q; Some 0%Q; Some 0%Q], 2%Q)
  /\ solve zero_sampler [0%Q; 0%Q; 0%Q] 1%Q 0%Q 1 1 false (-1) false
     = Ok ([Some 0%Q; None; None], 0%Q)
  /\ build_discretization_matrix 0 0 = Ok []
  /\ build_discretization_vector 0 0 = [].
Proof. repeat split. Qed.

(** C2, amended: the configuration is never validated and no error of its
    own is raised for it.  With [qbits_integer + qbits_decimal = 0] the
    discretization builders return empty arrays, and [solve] fails in its
    first block, with [IndexError] at [d_discret_elem[0]] in signed mode and
    with [ValueError] at the reshape of the samples otherwise.  With
    [points_per_qubo = 0] [solve] fails with the [ValueError] of [range],
    after the discretization elements were built; with
    [points_per_qubo < 0] the loop body never runs and [solve] returns with
    only entry 0 assigned and error 0.  [dx] is not looked at: with a valid
    block size and bit count and a sampler that keeps its contract [solve]
    returns for every [dx], also for [dx <= 0]. *)
Theorem configuration_is_not_validated (sample_qubo : list (list Q) -> list sample)
    (f : list Q) (dx y1 : Q) (qbits_integer qbits_decimal : Z)
    (signed : bool) (points_per_qubo : Z) (average_solutions : bool) :
  (2 <= length f)%nat ->
  let result :=
    solve sample_qubo f dx y1 qbits_integer qbits_decimal signed points_per_qubo
          average_solutions in
  (qbits_integer + qbits_decimal = 0 ->
   build_discretization_matrix qbits_integer qbits_decimal = Ok []
   /\ build_discretization_vector qbits_integer qbits_decimal = [])
  /\ (qbits_integer + qbits_decimal = 0 -> 1 <= points_per_qubo ->
      result = Raise (if signed then IndexError else ValueError))
  /\ (points_per_qubo = 0 -> result = Raise ValueError)
  /\ (points_per_qubo < 0 ->
      result = Ok (Some y1 :: replicate (length f - 1) None, 0%Q))
  /\ (1 <= points_per_qubo -> 1 <= qbits_integer + qbits_decimal ->
      sampler_well_formed sample_qubo ->
      exists solution error, result = Ok (solution, error)).
Proof.
  intros Hf result. subst result. repeat split.
  - rewrite build_discretization_matrix_rows, j_range_no_bits by assumption. reflexivity.
  - unfold build_discretization_vector. now rewrite j_range_no_bits.
  - intros Hbits Hpp. now apply solve_no_bits.
  - intros ->. apply solve_zero_block_size. lia.
  - intros Hpp. apply solve_negative_block_size; lia.
  - intros Hpp Hbits Hsampler.
    destruct (solve_total sample_qubo Hsampler f dx y1 qbits_integer qbits_decimal signed
                points_per_qubo average_solutions) as (sol & err & Hsolve & _);
      [lia | exact Hpp | exact Hbits |].
    by exists sol, err.
Qed.

Lemma configuration_is_not_validated_witness :
  let result := solve zero_sampler [0%Q; 0%Q; 0%Q] (-1)%Q 0%Q 0 0 true 1 false in
  (0 + 0 = 0 ->
   build_discretization_matrix 0 0 = Ok [] /\ build_discretization_vector 0 0 = [])
  /\ (0 + 0 = 0 -> 1 <= 1 -> result = Raise (if true then IndexError else ValueError))
  /\ (1 = 0 -> result = Raise ValueError)
  /\ (1 < 0 -> result = Ok (Some 0%Q :: replicate (length [0%Q; 0%Q; 0%Q] - 1) None, 0%Q))
  /\ (1 <= 1 -> 1 <= 0 + 0 -> sampler_well_formed zero_sampler ->
      exists solution error, result = Ok (solution, error)).
Proof.
  apply (configuration_is_not_validated zero_sampler [0%Q; 0%Q; 0%Q] (-1)%Q 0%Q 0 0 true 1
           false).
  cbn. lia.
Defined.

(** ** FunctionalAssembler with the name bound: sums *)

Lemma qsum_ext {A : Type} (g h : A -> Q) (l : list A) :
  (forall x, x ∈ l -> (g x == h x)%Q) -> (qsum g l == qsum h l)%Q.
Proof.
  induction l as [| x l IH]; intros Hgh; cbn [qsum fold_right]; [reflexivity |].
  fold (qsum g l). fold (qsum h l).
  rewrite (Hgh x) by apply list_elem_of_here.
  rewrite IH; [reflexivity |]. intros y Hy. apply Hgh. now apply list_elem_of_further.
Qed.

Lemma qsum_zero {A : Type} (g : A -> Q) (l : list A) :
  (forall x, x ∈ l -> (g x == 0)%Q) -> (qsum g l == 0)%Q.
Proof.
  intros Hg. rewrite (qsum_ext g (fun _ => 0%Q)) by exact Hg.
  clear Hg. induction l as [| x l IH]; cbn [qsum fold_right]; [reflexivity |].
  fold (qsum (fun _ : A => 0%Q) l). rewrite IH. reflexivity.
Qed.

Lemma qsum_plus {A : Type} (g h : A -> Q) (l : list A) :
  (qsum (fun x => g x + h x) l == qsum g l + qsum h l)%Q.
Proof.
  induction l as [| x l IH]; cbn [qsum fold_right]; [reflexivity |].
  fold (qsum (fun x => (g x + h x)%Q) l). fold (qsum g l). fold (qsum h l).
  rewrite IH. ring.
Qed.

Lemma qsum_app {A : Type} (g : A -> Q) (l1 l2 : list A) :
  (qsum g (l1 ++ l2) == qsum g l1 + qsum g l2)%Q.
Proof.
  induction l1 as [| x l1 IH].
  - cbn [app]. change (qsum g []) with 0%Q. ring.
  - cbn [qsum fold_right app].
    fold (qsum g (l1 ++ l2)). fold (qsum g l1). rewrite IH. ring.
Qed.

Lemma qsum_map {A B : Type} (g : B -> Q) (h : A -> B) (l : list A) :
  qsum g (map h l) = qsum (fun x => g (h x)) l.
Proof.
  induction l as [| x l IH]; cbn [qsum fold_right map]; [reflexivity |].
  fold (qsum g (map h l)). now rewrite IH.
Qed.

(** Exchange of two sums over independent ranges. *)
Lemma qsum_swap {A B : Type} (g : A -> B -> Q) (xs : list A) (ys : list B) :
  (qsum (fun x => qsum (fun y => g x y) ys) xs
   == qsum (fun y => qsum (fun x => g x y) xs) ys)%Q.
Proof.
  induction xs as [| x xs IH]; cbn [qsum fold_right].
  - symmetry. apply qsum_zero. reflexivity.
  - fold (qsum (fun x => qsum (fun y => g x y) ys) xs). rewrite IH.
    rewrite <- qsum_plus. apply qsum_ext. intros y _. reflexivity.
Qed.

(** A sum over a range that depends on the outer index, as one sum over the
    pairs. *)
Lemma qsum_pairs {A B : Type} (g : A -> B -> Q) (range : A -> list B) (xs : list A) :
  (qsum (fun x => qsum (g x) (range x)) xs
   == qsum (fun p => g (fst p) (snd p)) (x ← xs; map (pair x) (range x)))%Q.
Proof.
  induction xs as [| x xs IH]; cbn [qsum fold_right]; [reflexivity |].
  fold (qsum (fun x => qsum (g x) (range x)) xs).
  rewrite bind_cons, qsum_app, qsum_map, IH. reflexivity.
Qed.

(** ** Steps that add to one entry *)

Lemma adds_nothing (n a b : nat) (g : Q) (s s' : list (list Q) * list Q) :
  (g == 0)%Q -> fst s' = fst s -> adds n a b g s s'.
Proof.
  intros Hg Hfst Hsq. rewrite Hfst. split; [exact Hsq |].
  intros v Hv. exists v. split; [exact Hv |]. rewrite Hg. ring.
Qed.

Lemma adds_equal (n a b : nat) (g g' : Q) (s s' : list (list Q) * list Q) :
  (g == g')%Q -> adds n a b g s s' -> adds n a b g' s s'.
Proof.
  intros Hg Hadds Hsq. destruct (Hadds Hsq) as [Hsq' Hentry]. split; [exact Hsq' |].
  intros v Hv. destruct (Hentry v Hv) as (v' & Hv' & Heq).
  exists v'. split; [exact Hv' |]. now rewrite <- Hg.
Qed.

Lemma for_each_adds {A : Type} (n a b : nat) (g : A -> Q) (xs : list A)
    (body : list (list Q) * list Q -> A -> result (list (list Q) * list Q))
    (s r : list (list Q) * list Q) :
  (forall s x s', x ∈ xs -> body s x = Ok s' -> adds n a b (g x) s s') ->
  for_each xs body s = Ok r ->
  adds n a b (qsum g xs) s r.
Proof.
  revert s. induction xs as [| x xs IH]; intros s Hbody; cbn [for_each qsum fold_right].
  - intros [= <-]. now apply adds_nothing.
  - fold (qsum g xs). destruct (body s x) as [s' |] eqn:Hstep; [| discriminate].
    cbn [mbind result_bind]. intros Hrest Hsq.
    destruct (Hbody s x s' (list_elem_of_here _ _) Hstep Hsq) as [Hsq' Hentry'].
    destruct (IH s' (fun s0 x0 s0' Hin => Hbody s0 x0 s0' (list_elem_of_further _ _ _ Hin))
                 Hrest Hsq') as [Hsqr Hentryr].
    split; [exact Hsqr |]. intros v Hv.
    destruct (Hentry' v Hv) as (v' & Hv' & Heq').
    destruct (Hentryr v' Hv') as (v'' & Hv'' & Heq'').
    exists v''. split; [exact Hv'' |]. rewrite Heq'', Heq'. ring.
Qed.

(** [H[i, j] += x] at non-negative indices. *)
Lemma py_index_inv (len : nat) (i : Z) (k : nat) :
  0 <= i -> py_index len i = Ok k -> k = Z.to_nat i /\ (k < len)%nat.
Proof.
  intros Hi. unfold py_index.
  destruct (Z.leb_spec 0 i); [| lia]. destruct (Z.ltb_spec i (Z.of_nat len)); cbn [andb].
  - intros [= <-]. lia.
  - destruct ((- Z.of_nat len <=? i) && (i <? 0)) eqn:Hneg; [| discriminate]. lia.
Qed.

Lemma get_inv {A : Type} (l : list A) (i : Z) (x : A) :
  0 <= i -> get l i = Ok x -> l !! Z.to_nat i = Some x.
Proof.
  intros Hi. unfold get. destruct (py_index (length l) i) as [k |] eqn:Hk; [| discriminate].
  apply py_index_inv in Hk; [| exact Hi]. destruct Hk as [-> _]. cbn.
  destruct (l !! Z.to_nat i); [now intros [= <-] | discriminate].
Qed.

Lemma add_at2_adds (n a b : nat) (H H' : list (list Q)) (d : list Q) (i j : Z) (x : Q) :
  0 <= i -> 0 <= j ->
  add_at2 H i j x = Ok H' ->
  adds n a b (if ((Z.to_nat i =? a) && (Z.to_nat j =? b))%nat then x else 0%Q)
       (H, d) (H', d).
Proof.
  intros Hi Hj. unfold add_at2, get2, set_at2.
  destruct (get H i) as [row |] eqn:Hrow; [| discriminate]. cbn [mbind result_bind].
  destruct (get row j) as [v0 |] eqn:Hv0; [| discriminate]. cbn [mbind result_bind].
  apply get_inv in Hrow; [| exact Hi]. apply get_inv in Hv0; [| exact Hj].
  unfold set_at.
  rewrite (py_index_nonneg (length row)) by (apply lookup_lt_Some in Hv0; lia).
  cbn [mbind result_bind].
  rewrite (py_index_nonneg (length H)) by (apply lookup_lt_Some in Hrow; lia).
  cbn [mbind result_bind]. intros [= <-] [Hlen Hrows]. cbn [fst] in *. split.
  - split; [now rewrite length_insert |].
    apply Forall_insert; [exact Hrows |]. rewrite length_insert.
    rewrite Forall_lookup in Hrows. exact (Hrows _ _ Hrow).
  - intros v Hv. unfold entry in *.
    destruct (Nat.eqb_spec (Z.to_nat i) a) as [<- | Hne]; cbn [andb].
    + rewrite list_lookup_insert_eq by (apply lookup_lt_Some in Hrow; exact Hrow).
      rewrite Hrow in Hv. cbn in Hv |- *.
      destruct (Nat.eqb_spec (Z.to_nat j) b) as [<- | Hnej].
      * rewrite list_lookup_insert_eq by (apply lookup_lt_Some in Hv0; exact Hv0).
        rewrite Hv0 in Hv. injection Hv as <-. eexists. split; reflexivity.
      * rewrite list_lookup_insert_ne by exact Hnej. exists v. split; [exact Hv | ring].
    + rewrite list_lookup_insert_ne by exact Hne. exists v. split; [exact Hv | ring].
Qed.

(** ** FunctionalAssembler with the name bound: one point *)

Section BoundName.

Variable findiff_forward : Z -> Z -> result (list Q).
Variables (funcs : list (list Q)) (dx : Q) (known_points : list Q).
Variables (max_acc point_ind last_ind : Z).

Lemma quadratic_term_unfold (a b : nat) (k1 s1 k2 s2 : Z)
    (do1 acc1 len1 last1 do2 acc2 len2 last2 : Z) :
  get_deriv_range k1 point_ind last_ind max_acc = (do1, acc1, len1, last1) ->
  get_deriv_range k2 point_ind last_ind max_acc = (do2, acc2, len2, last2) ->
  quadratic_term findiff_forward funcs dx known_points max_acc point_ind last_ind
                 a b k1 s1 k2 s2
  = if (1 <=? acc1) && (1 <=? acc2)
       && negb ((last1 <? Z.of_nat (length known_points))
               && (last2 <? Z.of_nat (length known_points)))
       && (0 <=? point_ind + s1 - Z.of_nat (length known_points)) && (0 <=? point_ind + s2 - Z.of_nat (length known_points))
       && (Z.to_nat (point_ind + s1 - Z.of_nat (length known_points)) =? a)%nat
       && (Z.to_nat (point_ind + s2 - Z.of_nat (length known_points)) =? b)%nat
    then (term_func funcs point_ind k1 * term_func funcs point_ind k2
          / dx ^ (do1 + do2)
          * term_coeff findiff_forward max_acc point_ind last_ind k1 s1
          * term_coeff findiff_forward max_acc point_ind last_ind k2 s2)%Q
    else 0%Q.
Proof.
  intros E1 E2. unfold quadratic_term, term_scheme. now rewrite E1, E2.
Qed.

Lemma term_coeff_fetched (k s do acc len last : Z) (coeffs : list Q) (c : Q) :
  get_deriv_range k point_ind last_ind max_acc = (do, acc, len, last) ->
  get_finite_difference_coefficients findiff_forward do acc = Ok coeffs ->
  0 <= s ->
  get coeffs s = Ok c ->
  term_coeff findiff_forward max_acc point_ind last_ind k s = c.
Proof.
  intros E Hcoeffs Hs Hc. unfold term_coeff, term_scheme. rewrite E, Hcoeffs.
  now rewrite (get_inv _ _ _ Hs Hc).
Qed.

Lemma term_func_fetched (k : Z) (v : Q) :
  get2 funcs k point_ind = Ok v -> term_func funcs point_ind k = v.
Proof. intros Hv. unfold term_func. now rewrite Hv. Qed.

Lemma term_range_unfold (k do acc len last : Z) :
  get_deriv_range k point_ind last_ind max_acc = (do, acc, len, last) ->
  term_range max_acc point_ind last_ind k = py_range 0 len.
Proof. intros E. unfold term_range, term_scheme. now rewrite E. Qed.

Lemma elem_of_py_range_nonneg (start stop x : Z) :
  x ∈ py_range start stop -> start <= x.
Proof.
  unfold py_range. intros Hx. apply list_elem_of_fmap in Hx.
  destruct Hx as (k & -> & _). lia.
Qed.

(** With the name bound, the quadratic terms of a point add its
    contribution to every entry of [H]. *)
Lemma add_quadratic_terms_bound_adds (n a b : nat) (H : list (list Q)) (d : list Q)
    (s' : list (list Q) * list Q) :
  add_quadratic_terms_reading findiff_forward "first_unknown_index_global" H d
    point_ind last_ind funcs dx known_points max_acc = Ok s' ->
  adds n a b
       (point_contribution findiff_forward funcs dx known_points max_acc point_ind
                           last_ind (shape0 funcs) a b)
       (H, d) s'.
Proof.
  unfold add_quadratic_terms_reading, point_contribution.
  apply for_each_adds. clear H d s'.
  intros [H d] k1 s' _.
  destruct (get_deriv_range k1 point_ind last_ind max_acc)
    as [[[do1 acc1] len1] last1] eqn:E1.
  destruct (Z.ltb_spec acc1 1) as [Hacc1 | Hacc1].
  { intros [= <-]. apply adds_nothing; [| reflexivity].
    apply qsum_zero. intros k2 _. apply qsum_zero. intros s1 _.
    apply qsum_zero. intros s2 _.
    destruct (get_deriv_range k2 point_ind last_ind max_acc)
      as [[[do2 acc2] len2] last2] eqn:E2.
    rewrite (quadratic_term_unfold _ _ _ _ _ _ _ _ _ _ _ _ _ _ E1 E2).
    destruct (Z.leb_spec 1 acc1); [lia | reflexivity]. }
  destruct (get_finite_difference_coefficients findiff_forward do1 acc1)
    as [coeffs1 |] eqn:Hcoeffs1; [| discriminate].
  cbn [mbind result_bind]. apply for_each_adds. clear H d s'.
  intros [H d] k2 s' _.
  destruct (get_deriv_range k2 point_ind last_ind max_acc)
    as [[[do2 acc2] len2] last2] eqn:E2.
  rewrite load_name_bound. cbn [mbind result_bind].
  rewrite (term_range_unfold _ _ _ _ _ E1), (term_range_unfold _ _ _ _ _ E2).
  destruct (((last1 <? Z.of_nat (length known_points))
               && (last2 <? Z.of_nat (length known_points))) || (acc2 <? 1)) eqn:Hskip.
  { intros [= <-]. apply adds_nothing; [| reflexivity].
    apply qsum_zero. intros s1 _. apply qsum_zero. intros s2 _.
    rewrite (quadratic_term_unfold _ _ _ _ _ _ _ _ _ _ _ _ _ _ E1 E2).
    destruct (Z.leb_spec 1 acc2), (Z.ltb_spec acc2 1); try lia;
      rewrite ?andb_false_r, ?orb_true_r, ?orb_false_r in *; cbn [andb]; try reflexivity.
    rewrite Hskip. cbn [negb]. now rewrite ?andb_false_r. }
  destruct (get_finite_difference_coefficients findiff_forward do2 acc2)
    as [coeffs2 |] eqn:Hcoeffs2; [| discriminate].
  cbn [mbind result_bind].
  destruct (get2 funcs k1 point_ind) as [f1 |] eqn:Hf1; [| discriminate].
  cbn [mbind result_bind].
  destruct (get2 funcs k2 point_ind) as [f2 |] eqn:Hf2; [| discriminate].
  cbn [mbind result_bind]. apply for_each_adds. clear H d s'.
  intros [H d] s1 s' Hs1. apply elem_of_py_range_nonneg in Hs1. cbn beta iota. apply for_each_adds. clear H d s'.
  intros [H d] s2 s' Hs2. apply elem_of_py_range_nonneg in Hs2. cbn beta iota.
  rewrite (quadratic_term_unfold _ _ _ _ _ _ _ _ _ _ _ _ _ _ E1 E2).
  apply orb_false_elim in Hskip. destruct Hskip as [Hknown Hacc2].
  rewrite Hknown. destruct (Z.leb_spec 1 acc1); [| lia].
  destruct (Z.ltb_spec acc2 1); [discriminate |]. destruct (Z.leb_spec 1 acc2); [| lia].
  cbn [andb negb].
  set (u1 := point_ind + s1 - Z.of_nat (length known_points)). set (u2 := point_ind + s2 - Z.of_nat (length known_points)).
  destruct (Z.ltb_spec u1 0) as [Hu1 | Hu1], (Z.ltb_spec u2 0) as [Hu2 | Hu2];
    cbn [andb].
  - intros [= <-]. apply adds_nothing; [| reflexivity].
    destruct (Z.leb_spec 0 u1); [lia | reflexivity].
  - destruct (get coeffs1 s1) as [c1 |]; [| discriminate]. cbn [mbind result_bind].
    destruct (get coeffs2 s2) as [c2 |]; [| discriminate]. cbn [mbind result_bind].
    destruct (Z.leb_spec 0 u1); [lia |]. cbn [andb].
    destruct (get known_points _) as [known |]; [| discriminate].
    cbn [mbind result_bind].
    destruct (add_at d _ _) as [d' |]; [| discriminate]. cbn [mbind result_bind].
    intros [= <-]. now apply adds_nothing.
  - destruct (get coeffs1 s1) as [c1 |]; [| discriminate]. cbn [mbind result_bind].
    destruct (get coeffs2 s2) as [c2 |]; [| discriminate]. cbn [mbind result_bind].
    destruct (Z.leb_spec 0 u1); [| lia]. destruct (Z.leb_spec 0 u2); [lia |].
    cbn [andb].
    destruct (get known_points _) as [known |]; [| discriminate].
    cbn [mbind result_bind].
    destruct (add_at d _ _) as [d' |]; [| discriminate]. cbn [mbind result_bind].
    intros [= <-]. now apply adds_nothing.
  - destruct (get coeffs1 s1) as [c1 |] eqn:Hc1; [| discriminate].
    cbn [mbind result_bind].
    destruct (get coeffs2 s2) as [c2 |] eqn:Hc2; [| discriminate].
    cbn [mbind result_bind].
    destruct (Z.leb_spec 0 u1); [| lia]. destruct (Z.leb_spec 0 u2); [| lia].
    cbn [andb].
    destruct (add_at2 H u1 u2 _) as [H' |] eqn:Hadd; [| discriminate].
    cbn [mbind result_bind]. intros [= <-].
    rewrite (term_func_fetched _ _ Hf1), (term_func_fetched _ _ Hf2).
    rewrite (term_coeff_fetched _ _ _ _ _ _ _ _ E1 Hcoeffs1 Hs1 Hc1).
    rewrite (term_coeff_fetched _ _ _ _ _ _ _ _ E2 Hcoeffs2 Hs2 Hc2).
    eapply adds_equal; [| eapply add_at2_adds; [| | exact Hadd]; lia].
    destruct ((Z.to_nat u1 =? a)%nat && (Z.to_nat u2 =? b)%nat); reflexivity.
Qed.


(** The contribution of a point as a double sum over the pairs (term,
    scheme index). *)
Lemma point_contribution_pairs (rows : Z) (a b : nat) :
  let T := quadratic_term findiff_forward funcs dx known_points max_acc point_ind
                          last_ind in
  let pairs := k ← py_range 1 rows;
               map (pair k) (term_range max_acc point_ind last_ind k) in
  (point_contribution findiff_forward funcs dx known_points max_acc point_ind last_ind
                      rows a b
   == qsum (fun p1 => qsum (fun p2 => T a b (fst p1) (snd p1) (fst p2) (snd p2)) pairs)
           pairs)%Q.
Proof.
  intros T pairs. unfold point_contribution. fold T.
  transitivity
    (qsum (fun k1 =>
             qsum (fun s1 => qsum (fun p2 => T a b k1 s1 (fst p2) (snd p2)) pairs)
                  (term_range max_acc point_ind last_ind k1))
          (py_range 1 rows)).
  - apply qsum_ext. intros k1 _.
    etransitivity;
      [apply (qsum_swap (fun k2 s1 =>
                           qsum (fun s2 => T a b k1 s1 k2 s2)
                                (term_range max_acc point_ind last_ind k2))) |].
    apply qsum_ext. intros s1 _.
    apply (qsum_pairs (fun k2 s2 => T a b k1 s1 k2 s2)).
  - apply (qsum_pairs
             (fun k1 s1 => qsum (fun p2 => T a b k1 s1 (fst p2) (snd p2)) pairs)).
Qed.

Lemma quadratic_term_sym (a b : nat) (k1 s1 k2 s2 : Z) :
  (quadratic_term findiff_forward funcs dx known_points max_acc point_ind last_ind
                  a b k1 s1 k2 s2
   == quadratic_term findiff_forward funcs dx known_points max_acc point_ind last_ind
                     b a k2 s2 k1 s1)%Q.
Proof.
  destruct (get_deriv_range k1 point_ind last_ind max_acc)
    as [[[do1 acc1] len1] last1] eqn:E1.
  destruct (get_deriv_range k2 point_ind last_ind max_acc)
    as [[[do2 acc2] len2] last2] eqn:E2.
  rewrite (quadratic_term_unfold _ _ _ _ _ _ _ _ _ _ _ _ _ _ E1 E2).
  rewrite (quadratic_term_unfold _ _ _ _ _ _ _ _ _ _ _ _ _ _ E2 E1).
  rewrite (Z.add_comm do2 do1).
  destruct (1 <=? acc1), (1 <=? acc2), (last1 <? Z.of_nat (length known_points)),
    (last2 <? Z.of_nat (length known_points)),
    (0 <=? point_ind + s1 - Z.of_nat (length known_points)),
    (0 <=? point_ind + s2 - Z.of_nat (length known_points)),
    (Z.to_nat (point_ind + s1 - Z.of_nat (length known_points)) =? a)%nat,
    (Z.to_nat (point_ind + s2 - Z.of_nat (length known_points)) =? b)%nat;
    cbn [andb negb]; try reflexivity; unfold Qdiv; ring.
Qed.

Lemma point_contribution_sym (rows : Z) (a b : nat) :
  (point_contribution findiff_forward funcs dx known_points max_acc point_ind last_ind
                      rows a b
   == point_contribution findiff_forward funcs dx known_points max_acc point_ind
                         last_ind rows b a)%Q.
Proof.
  etransitivity; [apply point_contribution_pairs |].
  etransitivity; [| symmetry; apply point_contribution_pairs]. cbv zeta.
  etransitivity; [apply qsum_swap |].
  apply qsum_ext. intros p2 _. apply qsum_ext. intros p1 _.
  apply quadratic_term_sym.
Qed.

End BoundName.

(** ** FunctionalAssembler with the name bound: the whole block *)

Lemma np_zeros2_square (n : Z) (H : list (list Q)) :
  np_zeros2 n n = Ok H ->
  square (Z.to_nat n) H
  /\ forall i j, (i < Z.to_nat n)%nat -> (j < Z.to_nat n)%nat -> entry H i j = Some 0%Q.
Proof.
  unfold np_zeros2. destruct ((n <? 0) || (n <? 0)); [discriminate |].
  intros [= <-]. split.
  - split; [apply length_replicate |]. apply Forall_replicate, length_replicate.
  - intros i j Hi Hj. unfold entry. rewrite lookup_replicate_2 by exact Hi. cbn.
    now apply lookup_replicate_2.
Qed.

(** Had [add_quadratic_terms] read the name it binds
    ([first_unknown_index_global]), every matrix returned by the general
    assembler would be symmetric. *)
Lemma general_assembler_symmetric_with_bound_name
    (findiff_forward : Z -> Z -> result (list Q))
    (funcs : list (list Q)) (dx : Q) (known_points : list Q)
    (max_acc points_per_step : Z) (H : list (list Q)) (d : list Q) :
  build_quadratic_minimization_matrices_general_reading findiff_forward
    "first_unknown_index_global" funcs dx known_points max_acc points_per_step
  = Ok (H, d) ->
  symmetric_up_to_eq
    (Z.to_nat (Z.min points_per_step (shape1 funcs - Z.of_nat (length known_points))))
    H.
Proof.
  unfold build_quadratic_minimization_matrices_general_reading.
  set (unknowns := Z.min points_per_step (shape1 funcs - Z.of_nat (length known_points))).
  set (last := Z.of_nat (length known_points) + unknowns - 1).
  destruct (np_zeros2 unknowns unknowns) as [H0 |] eqn:HH0; [| discriminate].
  cbn [mbind result_bind].
  destruct (np_zeros unknowns) as [d0 |]; [| discriminate].
  cbn [mbind result_bind]. intros Hloop.
  destruct (np_zeros2_square _ _ HH0) as [Hsq0 Hzero].
  set (n := Z.to_nat unknowns) in *.
  assert (forall a b,
            adds n a b
              (qsum (fun p => point_contribution findiff_forward funcs dx known_points
                                max_acc p last (shape0 funcs) a b)
                    (py_range 0 (last + 1)))
              (H0, d0) (H, d)) as Hadds.
  { intros a b. eapply for_each_adds; [| exact Hloop].
    intros [H1 d1] p s' _. cbn beta iota.
    destruct (add_linear_terms _ _ _ _ _ _ _ _) as [d1' |]; [| discriminate].
    cbn [mbind result_bind]. intros Hquad.
    apply (add_quadratic_terms_bound_adds _ _ _ _ _ _ _ n a b) in Hquad.
    exact Hquad. }
  split; [apply (Hadds O O), Hsq0 |].
  intros i j Hi Hj.
  destruct (Hadds i j Hsq0) as [_ Hij]. destruct (Hadds j i Hsq0) as [_ Hji].
  cbn [fst] in Hij, Hji.
  destruct (Hij 0%Q (Hzero i j Hi Hj)) as (v & Hv & Hveq).
  destruct (Hji 0%Q (Hzero j i Hj Hi)) as (w & Hw & Hweq).
  exists v, w. split; [exact Hv |]. split; [exact Hw |].
  rewrite Hveq, Hweq. apply Qplus_comp; [reflexivity |].
  apply qsum_ext. intros p _. apply point_contribution_sym.
Qed.

(** The bound variant does return matrices that are not zero: for the
    equation [y' - 1 = 0] on three grid points with one known point, and for
    [y'' + 2 y' + y = 0]. *)
Example general_assembler_with_bound_name_first_order
    (findiff_forward : Z -> Z -> result (list Q)) :
  build_quadratic_minimization_matrices_general_reading findiff_forward
    "first_unknown_index_global"
    [[(-1)%Q; (-1)%Q; (-1)%Q]; [0%Q; 0%Q; 0%Q]; [1%Q; 1%Q; 1%Q]] 1%Q [0%Q] 1 2
  = Ok ([[2%Q; (-1)%Q]; [(-1)%Q; 1%Q]], [0%Q; (-2)%Q]).
Proof. vm_compute. reflexivity. Qed.

Example general_assembler_with_bound_name_second_order
    (findiff_forward : Z -> Z -> result (list Q)) :
  build_quadratic_minimization_matrices_general_reading findiff_forward
    "first_unknown_index_global"
    [[0%Q; 0%Q; 0%Q]; [1%Q; 1%Q; 1%Q]; [2%Q; 2%Q; 2%Q]; [1%Q; 1%Q; 1%Q]] 1%Q [5%Q] 1 2
  = Ok ([[1%Q; (-2)%Q]; [(-2)%Q; 6%Q]], [0%Q; 0%Q]).
Proof. vm_compute. reflexivity. Qed.

(** ** No read of an unassigned entry *)

Lemma bind_never_uninitialised {A B : Type} (m : result A) (k : A -> result B) :
  never_uninitialised m ->
  (forall a, m = Ok a -> never_uninitialised (k a)) ->
  never_uninitialised (m ≫= k).
Proof.
  intros Hm Hk. destruct m as [a | e]; cbn [mbind result_bind].
  - now apply Hk.
  - intros [= ->]. now apply Hm.
Qed.

Create HintDb python_exn.

Ltac never_uninitialised_step :=
  first
    [ apply bind_never_uninitialised; [| intros ? ?]
    | match goal with
      | |- never_uninitialised (if ?c then _ else _) => destruct c
      | |- never_uninitialised (match ?x with _ => _ end) => destruct x
      | |- never_uninitialised (Ok _) => discriminate
      | |- never_uninitialised (Raise _) => discriminate
      end
    | solve [auto with python_exn] ].

Ltac never_uninitialised_tac := repeat never_uninitialised_step.

Lemma py_index_never_uninitialised (len : nat) (i : Z) :
  never_uninitialised (py_index len i).
Proof. unfold py_index. never_uninitialised_tac. Qed.
#[local] Hint Resolve py_index_never_uninitialised : python_exn.

Lemma get_never_uninitialised {A : Type} (l : list A) (i : Z) :
  never_uninitialised (get l i).
Proof. unfold get. never_uninitialised_tac. Qed.
#[local] Hint Resolve get_never_uninitialised : python_exn.

Lemma set_at_never_uninitialised {A : Type} (l : list A) (i : Z) (x : A) :
  never_uninitialised (set_at l i x).
Proof. unfold set_at. never_uninitialised_tac. Qed.
#[local] Hint Resolve set_at_never_uninitialised : python_exn.

Lemma sub_at_never_uninitialised (l : list Q) (i : Z) (x : Q) :
  never_uninitialised (sub_at l i x).
Proof. unfold sub_at. never_uninitialised_tac. Qed.
#[local] Hint Resolve sub_at_never_uninitialised : python_exn.

Lemma set_at2_never_uninitialised (m : list (list Q)) (i j : Z) (x : Q) :
  never_uninitialised (set_at2 m i j x).
Proof. unfold set_at2. never_uninitialised_tac. Qed.
#[local] Hint Resolve set_at2_never_uninitialised : python_exn.

Lemma np_broadcast_to_never_uninitialised {A : Type} (vals : list A) (n : nat) :
  never_uninitialised (np_broadcast_to vals n).
Proof. unfold np_broadcast_to. never_uninitialised_tac. Qed.
#[local] Hint Resolve np_broadcast_to_never_uninitialised : python_exn.

Lemma slice_assign_never_uninitialised {A : Type} (l : list A) (start stop : Z)
    (vals : list A) :
  never_uninitialised (slice_assign l start stop vals).
Proof. unfold slice_assign. never_uninitialised_tac. Qed.
#[local] Hint Resolve slice_assign_never_uninitialised : python_exn.

Lemma slice_add_never_uninitialised (l : list Q) (start stop : Z) (vals : list Q) :
  never_uninitialised (slice_add l start stop vals).
Proof. unfold slice_add. never_uninitialised_tac. Qed.
#[local] Hint Resolve slice_add_never_uninitialised : python_exn.

Lemma np_add2_never_uninitialised (A B : list (list Q)) :
  never_uninitialised (np_add2 A B).
Proof. unfold np_add2. never_uninitialised_tac. Qed.
#[local] Hint Resolve np_add2_never_uninitialised : python_exn.

Lemma np_array2_never_uninitialised (rows : list (list Z)) :
  never_uninitialised (np_array2 rows).
Proof. unfold np_array2. never_uninitialised_tac. Qed.
#[local] Hint Resolve np_array2_never_uninitialised : python_exn.

Lemma np_reshape3_never_uninitialised (a : list (list Z)) (m n : nat) :
  never_uninitialised (np_reshape3 a m n).
Proof. unfold np_reshape3. never_uninitialised_tac. Qed.
#[local] Hint Resolve np_reshape3_never_uninitialised : python_exn.

Lemma py_next_never_uninitialised {A : Type} (l : list A) :
  never_uninitialised (py_next l).
Proof. unfold py_next. never_uninitialised_tac. Qed.
#[local] Hint Resolve py_next_never_uninitialised : python_exn.

Lemma build_quadratic_minimization_matrix_never_uninitialised (npoints : Z) (dx : Q) :
  never_uninitialised (build_quadratic_minimization_matrix npoints dx).
Proof. unfold build_quadratic_minimization_matrix. never_uninitialised_tac. Qed.
#[local] Hint Resolve build_quadratic_minimization_matrix_never_uninitialised : python_exn.

Lemma build_quadratic_minimization_vector_never_uninitialised (f : list Q) (dx y1 : Q) :
  never_uninitialised (build_quadratic_minimization_vector f dx y1).
Proof. unfold build_quadratic_minimization_vector. never_uninitialised_tac. Qed.
#[local] Hint Resolve build_quadratic_minimization_vector_never_uninitialised : python_exn.

Lemma build_qubo_matrix_never_uninitialised (f : list Q) (dx y1 : Q)
    (H_discret_elem : list (list Q)) (d_discret_elem : list Q) (signed : bool) :
  never_uninitialised (build_qubo_matrix f dx y1 H_discret_elem d_discret_elem signed).
Proof. unfold build_qubo_matrix. never_uninitialised_tac. Qed.
#[local] Hint Resolve build_qubo_matrix_never_uninitialised : python_exn.

Lemma for_each_never_uninitialised {A S : Type} (P : nat -> S -> Prop) (xs : list A)
    (body : S -> A -> result S) (s : S) :
  P O s ->
  (forall k x s, xs !! k = Some x -> P k s ->
     never_uninitialised (body s x)
     /\ forall s', body s x = Ok s' -> P (Datatypes.S k) s') ->
  never_uninitialised (for_each xs body s).
Proof.
  revert P s. induction xs as [| x xs IH]; intros P s Hs Hstep; cbn [for_each].
  - discriminate.
  - destruct (Hstep O x s eq_refl Hs) as [Hnever Hnext].
    apply bind_never_uninitialised; [exact Hnever |].
    intros s' Hs'. apply (IH (fun k => P (Datatypes.S k))); [now apply Hnext |].
    intros k x0 s0 Hx0. now apply Hstep.
Qed.

Section NoUninitialisedRead.

Variable sample_qubo : list (list Q) -> list sample.

Lemma solve_block_never_uninitialised (f : list Q) (dx : Q) (qbits_integer : Z)
    (signed : bool) (points_per_qubo : Z) (average_solutions : bool)
    (H_discret_elem : list (list Q)) (d_discret_elem : list Q)
    (solution : list (option Q)) (error : Q) (i : Z) :
  1 <= i <= Z.of_nat (length solution) ->
  assigned_upto (Z.to_nat i) solution ->
  never_uninitialised
    (solve_block sample_qubo f dx qbits_integer signed points_per_qubo average_solutions
                 H_discret_elem d_discret_elem (solution, error) i).
Proof.
  intros Hi Hassigned. unfold solve_block.
  destruct (Hassigned (Z.to_nat (i - 1))) as [y1 Hy1]; [lia |].
  rewrite (get_nonneg _ _ (Some y1)) by (lia || exact Hy1).
  cbn [mbind result_bind]. never_uninitialised_tac.
Qed.

(** [solve] never reads an entry of the solution that it has not assigned:
    whatever the sampler returns, the marker is not raised. *)
Lemma solve_never_uninitialised (f : list Q) (dx y1 : Q)
    (qbits_integer qbits_decimal : Z) (signed : bool) (points_per_qubo : Z)
    (average_solutions : bool) :
  never_uninitialised
    (solve sample_qubo f dx y1 qbits_integer qbits_decimal signed points_per_qubo
           average_solutions).
Proof.
  unfold solve.
  apply bind_never_uninitialised; [auto with python_exn |]. intros sol0 Hsol0.
  rewrite build_discretization_matrix_rows. cbn [mbind result_bind].
  assert (1 <= length f)%nat as Hf.
  { destruct f; [discriminate | cbn; lia]. }
  rewrite set_at_nonneg in Hsol0 by (rewrite length_replicate; lia).
  injection Hsol0 as <-.
  destruct (Z.lt_trichotomy points_per_qubo 0) as [Hneg | [-> | Hpos]].
  - rewrite py_range_step_negative_empty by lia. discriminate.
  - discriminate.
  - rewrite py_range_step_positive by exact Hpos. cbn [mbind result_bind].
    set (n := Z.of_nat (length f)).
    apply (for_each_never_uninitialised
             (fun k st =>
                length (fst st) = length f
                /\ assigned_upto (Z.to_nat (Z.min (1 + Z.of_nat k * points_per_qubo) n))
                                 (fst st))).
    + cbn [fst]. split; [now rewrite length_insert, length_replicate |].
      intros j Hj. assert (j = O) as -> by lia. exists y1.
      apply list_lookup_insert_eq. rewrite length_replicate. lia.
    + intros k x [sol err] Hx [Hlen Hupto]. cbn [fst] in Hlen, Hupto.
      assert (x = 1 + Z.of_nat k * points_per_qubo /\ 1 <= x < n) as [Hxk Hxn].
      { eapply py_range_step_lookup; [exact Hpos | | exact Hx].
        now apply py_range_step_positive. }
      replace (Z.min (1 + Z.of_nat k * points_per_qubo) n) with x in Hupto by lia.
      split; [apply solve_block_never_uninitialised; [lia | exact Hupto] |].
      intros [sol' err'] Hblock. cbn [fst].
      apply solve_block_inv in Hblock.
      destruct Hblock as (_ & _ & _ & vals & _ & _ & _ & _ & Hassign & _).
      split; [now rewrite (slice_assign_length _ _ _ _ _ Hassign) |].
      replace (Z.to_nat (Z.min (1 + Z.of_nat (S k) * points_per_qubo) n))
        with (py_clamp (length sol) (Z.min (x + points_per_qubo) (Z.of_nat (length f))))
        by (rewrite py_clamp_nonneg by lia; lia).
      eapply slice_assign_assigned; [exact Hassign | |].
      * apply Forall_fmap, Forall_true. intros v. by exists v.
      * rewrite py_clamp_nonneg by lia.
        replace (length sol `min` Z.to_nat x)%nat with (Z.to_nat x) by lia.
        exact Hupto.
Qed.

End NoUninitialisedRead.

(** * Further properties *)

(** ** RangeSelector: the scheme stays inside the window *)

(** X1: for a term index of at least 1 at a point that is not behind
    [last_point_ind], the selected scheme never reaches past
    [last_point_ind]; the selected accuracy never exceeds a maximum of at
    least 1; and a scheme with accuracy of at least 1 has at least one
    point, the first being [point_ind]. *)
Theorem get_deriv_range_within_window
    (deriv_ind point_ind last_point_ind max_acc : Z)
    (deriv_order accuracy len last_scheme : Z) :
  1 <= deriv_ind ->
  point_ind <= last_point_ind ->
  get_deriv_range deriv_ind point_ind last_point_ind max_acc
  = (deriv_order, accuracy, len, last_scheme) ->
  last_scheme <= last_point_ind
  /\ (1 <= max_acc -> accuracy <= max_acc)
  /\ (1 <= accuracy -> 1 <= len /\ point_ind <= last_scheme).
Proof.
  intros Hind Hpoint. unfold get_deriv_range.
  destruct (Z.eqb_spec (deriv_ind - 1) 0) as [Hzero | Hpos];
    intros [= <- <- <- <-]; lia.
Qed.

Lemma get_deriv_range_within_window_witness :
  9 <= 9
  /\ (1 <= 4 -> 2 <= 4)
  /\ (1 <= 2 -> 1 <= 4 /\ 6 <= 9).
Proof.
  apply (get_deriv_range_within_window 3 6 9 4 2 2 4 9); [lia | lia | reflexivity].
Defined.

(** ** The continuous matrix of the first order path *)

(** X2: for at least two points and a grid step other than 0 the matrix has
    one row and column for each unknown; before the division by [dx ** 2]
    its diagonal is 2 except for a 1 in the last place, the entries next to
    the diagonal are -1 and all others are 0. *)
Theorem build_quadratic_minimization_matrix_tridiagonal (npoints : nat) (dx : Q) :
  (2 <= npoints)%nat ->
  ~ (dx == 0)%Q ->
  exists H,
    build_quadratic_minimization_matrix (Z.of_nat npoints) dx = Ok H
    /\ square (npoints - 1) H
    /\ forall i j, (i < npoints - 1)%nat -> (j < npoints - 1)%nat ->
         entry H i j
         = Some ((if (i =? j)%nat then (if (i =? npoints - 2)%nat then 1 else 2)
                  else if ((j =? i + 1) || (i =? j + 1))%nat then -1
                  else 0) / dx ^ 2)%Q.
Proof.
  intros Hn _.
  destruct (build_quadratic_minimization_matrix_entries npoints dx Hn)
    as (H & HH & Hsq & Hentry).
  exists H. split; [exact HH |]. split; [exact Hsq |].
  intros i j Hi Hj. rewrite (Hentry i j Hi Hj). unfold H_cont_entry.
  now replace (npoints - 1 - 1)%nat with (npoints - 2)%nat by lia.
Qed.

Lemma build_quadratic_minimization_matrix_tridiagonal_witness :
  exists H,
    build_quadratic_minimization_matrix (Z.of_nat 4) 2%Q = Ok H
    /\ square (4 - 1) H
    /\ forall i j, (i < 4 - 1)%nat -> (j < 4 - 1)%nat ->
         entry H i j
         = Some ((if (i =? j)%nat then (if (i =? 4 - 2)%nat then 1 else 2)
                  else if ((j =? i + 1) || (i =? j + 1))%nat then -1
                  else 0) / 2 ^ 2)%Q.
Proof.
  apply (build_quadratic_minimization_matrix_tridiagonal 4 2%Q); [lia | discriminate].
Defined.

(** X3: with fewer than two points there is no last diagonal entry to set:
    [build_quadratic_minimization_matrix] raises [IndexError], and so does
    [build_qubo_matrix] for a block of fewer than two points, whatever the
    discretization elements are. *)
Theorem build_qubo_matrix_too_short (f : list Q) (dx y1 : Q)
    (H_discret_elem : list (list Q)) (d_discret_elem : list Q) (signed : bool)
    (npoints : Z) :
  (npoints <= 1 -> build_quadratic_minimization_matrix npoints dx = Raise IndexError)
  /\ ((length f <= 1)%nat ->
      build_qubo_matrix f dx y1 H_discret_elem d_discret_elem signed = Raise IndexError).
Proof.
  assert (forall n, n <= 1 -> build_quadratic_minimization_matrix n dx = Raise IndexError)
    as Hshort.
  { intros n Hle. unfold build_quadratic_minimization_matrix.
    replace (Z.to_nat (n - 1)) with O by lia. replace (Z.to_nat (n - 2)) with O by lia.
    reflexivity. }
  split; [apply Hshort |].
  intros Hf. unfold build_qubo_matrix. rewrite Hshort by lia. reflexivity.
Qed.

(** ** StencilLibrary: the tables are forward difference schemes *)

(** X4: every tabulated scheme (odd accuracy order, derivative order of at
    least 1) is a forward difference scheme of its two orders, up to the
    rounding of its table.  The [m]-th moment over the offsets
    [0, 1, 2, ...] of the numbers that are returned, taken without
    rounding, differs by at most [2 ** -43] from [deriv_order!] for
    [m = deriv_order] and from 0 for every other [m] below
    [deriv_order + accuracy_order]; for the integer tables of accuracy
    order 1 the moments are exact, and the zeroth moment of a float64 table
    (accuracy order 3 or 5) is not zero. *)
Theorem coefficients_table_moments
    (findiff_forward : Z -> Z -> result (list Q))
    (deriv_order accuracy_order : Z) (coeffs : list Q) (m : nat) :
  Z.odd accuracy_order = true ->
  1 <= deriv_order ->
  get_finite_difference_coefficients findiff_forward deriv_order accuracy_order
  = Ok coeffs ->
  Z.of_nat m < deriv_order + accuracy_order ->
  let target :=
    if Z.of_nat m =? deriv_order
    then inject_Z (Z.of_nat (fact (Z.to_nat deriv_order)))
    else 0%Q in
  (Qabs (scheme_moment coeffs m - target) <= py_pow 2 (-43))%Q
  /\ (accuracy_order = 1 -> (scheme_moment coeffs m == target)%Q)
  /\ (accuracy_order <> 1 -> ~ (scheme_moment coeffs 0 == 0)%Q).
Proof.
  intros Hodd Hd. unfold get_finite_difference_coefficients.
  destruct (Z.eqb_spec deriv_order 0) as [-> | _]; [lia |].
  rewrite Zmod_odd, Hodd. cbn [Z.eqb].
  destruct (closed_form_coefficients deriv_order accuracy_order) as [c |] eqn:Hc;
    [| discriminate].
  intros [= <-] Hm. apply closed_form_coefficients_cases in Hc.
  destruct Hc as [(-> & -> & ->) | [(-> & -> & ->) | [(-> & -> & ->) | (-> & -> & ->)]]];
    do 6 (destruct m as [| m];
          [first [lia
                 | cbv zeta; split; [apply Qle_bool_imp_le; vm_compute; reflexivity |];
                   split; [first [intros _; vm_compute; reflexivity | discriminate] |];
                   first [intros _; vm_compute; discriminate | congruence]] |]);
    lia.
Qed.

Lemma coefficients_table_moments_witness :
  (Qabs (scheme_moment [py_truediv (-11) 6; 3%Q; py_truediv (-3) 2; py_truediv 1 3] 1
         - inject_Z (Z.of_nat (fact (Z.to_nat 1))))
   <= py_pow 2 (-43))%Q
  /\ (3 = 1 ->
      (scheme_moment [py_truediv (-11) 6; 3%Q; py_truediv (-3) 2; py_truediv 1 3] 1
       == inject_Z (Z.of_nat (fact (Z.to_nat 1))))%Q)
  /\ (3 <> 1 ->
      ~ (scheme_moment [py_truediv (-11) 6; 3%Q; py_truediv (-3) 2; py_truediv 1 3] 0
         == 0)%Q).
Proof.
  apply (coefficients_table_moments findiff_table 1 3); [reflexivity | lia | reflexivity | lia].
Defined.

(** ** The continuous vector of the first order path *)

Lemma py_slice_from_zero_to_last {A : Type} (l : list A) :
  py_slice l 0 (-1) = take (length l - 1) l.
Proof.
  unfold py_slice. rewrite py_clamp_minus_one, py_clamp_nonneg by lia.
  rewrite Nat.min_0_r, Nat.sub_0_r. reflexivity.
Qed.

Lemma py_slice_from_one_to_last {A : Type} (l : list A) :
  py_slice l 1 (-1) = take (length l - 2) (drop 1 l).
Proof.
  unfold py_slice. rewrite py_clamp_minus_one, py_clamp_nonneg by lia.
  destruct l as [| x l]; [reflexivity |]. cbn [length].
  replace (S (length l) `min` Z.to_nat 1)%nat with 1%nat by lia.
  f_equal. lia.
Qed.

(** At float64 the definitions that carry the element type are the
    definitions of the float64 path. *)
Lemma build_quadratic_minimization_vector_of_float64 (f : list Q) (dx y1 : Q) :
  build_quadratic_minimization_vector_of Float64 f dx y1
  = build_quadratic_minimization_vector f dx y1.
Proof. reflexivity. Qed.

Lemma build_qubo_matrix_of_float64 (f : list Q) (dx y1 : Q)
    (H_discret_elem : list (list Q)) (d_discret_elem : list Q) (signed : bool) :
  build_qubo_matrix_of Float64 f dx y1 H_discret_elem d_discret_elem signed
  = build_qubo_matrix f dx y1 H_discret_elem d_discret_elem signed.
Proof. reflexivity. Qed.


Lemma solve_of_float64 (sample_qubo : list (list Q) -> list sample)
    (f : list Q) (dx y1 : Q) (qbits_integer qbits_decimal : Z) (signed : bool)
    (points_per_qubo : Z) (average_solutions : bool) :
  solve_of Float64 sample_qubo f dx y1 qbits_integer qbits_decimal signed points_per_qubo
           average_solutions
  = solve sample_qubo f dx y1 qbits_integer qbits_decimal signed points_per_qubo
          average_solutions.
Proof. reflexivity. Qed.

(** The vector before the boundary term and the scaling. *)
Lemma build_quadratic_minimization_vector_of_explicit (dt : dtype) (f : list Q) (dx y1 : Q) :
  (2 <= length f)%nat ->
  let d0 := map Qopp (take (length f - 1) f) in
  let d1 := zip_with Qplus (take (length f - 2) d0) (take (length f - 2) (drop 1 f))
            ++ drop (length f - 2) d0 in
  build_quadratic_minimization_vector_of dt f dx y1
  = Ok (map (fun x => (x * 2 / dx)%Q)
            (<[O := np_store dt (default 0%Q (d1 !! O) - y1 / dx)%Q]> d1)).
Proof.
  intros Hf d0 d1. unfold build_quadratic_minimization_vector_of.
  rewrite py_slice_from_zero_to_last, py_slice_from_one_to_last. fold d0.
  assert (length d0 = (length f - 1)%nat) as Hd0.
  { subst d0. rewrite length_map, length_take. lia. }
  unfold slice_add. rewrite py_slice_from_zero_to_last, Hd0.
  replace (length f - 1 - 1)%nat with (length f - 2)%nat by lia.
  rewrite np_broadcast_to_same
    by (rewrite !length_take, length_drop, Hd0; lia).
  cbn [mbind result_bind]. unfold slice_assign.
  rewrite py_clamp_minus_one, py_clamp_nonneg, Hd0 by lia.
  replace ((length f - 1) `min` Z.to_nat 0)%nat with O by lia.
  replace (length f - 1 - 1 - 0)%nat with (length f - 2)%nat by lia.
  rewrite np_broadcast_to_same
    by (rewrite length_zip_with, !length_take, length_drop, Hd0; lia).
  cbn [mbind result_bind take app Nat.add]. fold d1.
  assert (1 <= length d1)%nat as Hd1.
  { subst d1. rewrite length_app, length_drop, Hd0. lia. }
  change (take 0 d0 ++ d1) with d1.
  destruct (get_in_range d1 0) as (v & Hv & ->); [lia |].
  cbn [mbind result_bind]. rewrite set_at_nonneg by lia.
  change (Z.to_nat 0) with O in *. now rewrite Hv.
Qed.


(** The entries before the boundary term and the scaling. *)
Lemma explicit_vector_lookup (f : list Q) :
  (2 <= length f)%nat ->
  let d0 := map Qopp (take (length f - 1) f) in
  let d1 := zip_with Qplus (take (length f - 2) d0) (take (length f - 2) (drop 1 f))
            ++ drop (length f - 2) d0 in
  length d1 = (length f - 1)%nat
  /\ forall k, (k < length f - 1)%nat ->
       d1 !! k
       = Some (if (k + 2 <? length f)%nat
               then (- default 0 (f !! k) + default 0 (f !! S k))%Q
               else (- default 0 (f !! k))%Q).
Proof.
  intros Hf d0 d1.
  assert (length d0 = (length f - 1)%nat) as Hd0.
  { subst d0. rewrite length_map, length_take. lia. }
  split.
  { subst d1. rewrite length_app, length_zip_with, !length_take, !length_drop, Hd0. lia. }
  intros k Hk. subst d1.
  set (z := zip_with Qplus (take (length f - 2) d0) (take (length f - 2) (drop 1 f))).
  assert (length z = (length f - 2)%nat) as Hz.
  { subst z. rewrite length_zip_with, !length_take, length_drop, Hd0. lia. }
  destruct (lookup_lt_is_Some_2 f k) as [fk Hfk]; [lia |].
  assert (d0 !! k = Some (- fk)%Q) as Hd0k.
  { subst d0. rewrite list_lookup_fmap, lookup_take_lt by lia. now rewrite Hfk. }
  rewrite Hfk. cbn [default].
  destruct (Nat.ltb_spec (k + 2) (length f)) as [Hin | Hlast].
  - destruct (lookup_lt_is_Some_2 f (S k)) as [fk1 Hfk1]; [lia |].
    rewrite Hfk1. cbn [default].
    rewrite lookup_app_l by (rewrite Hz; lia). subst z.
    rewrite lookup_zip_with, !lookup_take_lt, Hd0k, lookup_drop by lia.
    cbn. now rewrite Hfk1.
  - rewrite lookup_app_r by (rewrite Hz; lia).
    rewrite Hz, lookup_drop.
    replace (length f - 2 + (k - (length f - 2)))%nat with k by lia. exact Hd0k.
Qed.

(** X5: for at least two points, a grid step other than 0 and an array [f]
    of the type float64 or int64, the vector has one entry for each
    unknown: [(f[k+1] - f[k]) * 2 / dx], with only [-f[k]] in the last
    place; in the first place [y1 / dx] is taken off before the scaling,
    and there the difference is stored into the array, which truncates it
    toward zero when [f] is an int64 array. *)
Theorem build_quadratic_minimization_vector_entries (dt : dtype) (f : list Q) (dx y1 : Q) :
  (2 <= length f)%nat ->
  ~ (dx == 0)%Q ->
  exists d,
    build_quadratic_minimization_vector_of dt f dx y1 = Ok d
    /\ length d = (length f - 1)%nat
    /\ forall k, (k < length f - 1)%nat -> d !! k = Some (d_cont_entry dt f dx y1 k).
Proof.
  intros Hf _. rewrite build_quadratic_minimization_vector_of_explicit by exact Hf.
  destruct (explicit_vector_lookup f Hf) as [Hd1 Hlookup].
  cbv zeta in *. set (d1 := _ ++ _) in *.
  eexists. split; [reflexivity |]. split.
  - now rewrite length_map, length_insert.
  - intros k Hk. rewrite list_lookup_fmap. unfold d_cont_entry.
    destruct (Nat.eqb_spec k 0) as [-> | Hne].
    + rewrite list_lookup_insert_eq by lia. rewrite (Hlookup O) by lia. reflexivity.
    + rewrite list_lookup_insert_ne by lia. rewrite (Hlookup k) by lia. reflexivity.
Qed.

Lemma build_quadratic_minimization_vector_entries_witness :
  exists d,
    build_quadratic_minimization_vector_of Int64 [1%Q; 2%Q; 4%Q; 8%Q] 1%Q (1 # 2)%Q = Ok d
    /\ length d = (length [1%Q; 2%Q; 4%Q; 8%Q] - 1)%nat
    /\ forall k, (k < length [1%Q; 2%Q; 4%Q; 8%Q] - 1)%nat ->
         d !! k = Some (d_cont_entry Int64 [1%Q; 2%Q; 4%Q; 8%Q] 1%Q (1 # 2)%Q k).
Proof.
  apply (build_quadratic_minimization_vector_entries Int64 [1%Q; 2%Q; 4%Q; 8%Q] 1%Q
           (1 # 2)%Q);
    [cbn; lia | discriminate].
Defined.

(** For the integers 1, 2, 4, 8 with [dx = 1] and [y1 = 1/2] the first
    entry is 0 where the float64 array gives 1: the difference [1 - 1/2] is
    truncated. *)
Example build_quadratic_minimization_vector_truncates :
  exists d_int d_float,
    build_quadratic_minimization_vector_of Int64 [1%Q; 2%Q; 4%Q; 8%Q] 1%Q (1 # 2)%Q
    = Ok d_int
    /\ build_quadratic_minimization_vector_of Float64 [1%Q; 2%Q; 4%Q; 8%Q] 1%Q (1 # 2)%Q
       = Ok d_float
    /\ Forall2 Qeq d_int [0%Q; 4%Q; (-8)%Q]
    /\ Forall2 Qeq d_float [1%Q; 4%Q; (-8)%Q].
Proof.
  do 2 eexists. split; [reflexivity |]. split; [reflexivity |].
  split; repeat constructor.
Qed.

(** ** The value of [f] at the last point is never used *)

Lemma for_each_ext {A S : Type} (xs : list A) (body1 body2 : S -> A -> result S) (s : S) :
  (forall s x, x ∈ xs -> body1 s x = body2 s x) ->
  for_each xs body1 s = for_each xs body2 s.
Proof.
  revert s. induction xs as [| x xs IH]; intros s Hext; cbn [for_each]; [reflexivity |].
  rewrite (Hext s x) by apply list_elem_of_here.
  destruct (body2 s x) as [s' |]; cbn [mbind result_bind]; [| reflexivity].
  apply IH. intros s0 x0 Hin. apply Hext. now apply list_elem_of_further.
Qed.

Lemma py_slice_init_of_snoc {A : Type} (l : list A) (a : A) :
  py_slice (l ++ [a]) 0 (-1) = l.
Proof.
  rewrite py_slice_from_zero_to_last, length_app. cbn [length].
  replace (length l + 1 - 1)%nat with (length l) by lia.
  now rewrite take_app_length.
Qed.

Lemma py_slice_inner_of_snoc {A : Type} (l : list A) (a : A) :
  py_slice (l ++ [a]) 1 (-1) = drop 1 l.
Proof.
  rewrite py_slice_from_one_to_last, length_app. cbn [length].
  destruct l as [| x l]; [reflexivity |]. cbn [length app drop].
  replace (S (length l) + 1 - 2)%nat with (length l) by lia.
  rewrite drop_0. now rewrite take_app_length.
Qed.

Lemma minimization_vector_of_snoc (f : list Q) (a b : Q) (dx y1 : Q) :
  build_quadratic_minimization_vector (f ++ [a]) dx y1
  = build_quadratic_minimization_vector (f ++ [b]) dx y1.
Proof.
  unfold build_quadratic_minimization_vector.
  now rewrite !py_slice_init_of_snoc, !py_slice_inner_of_snoc.
Qed.

Lemma qubo_matrix_of_snoc (f : list Q) (a b : Q) (dx y1 : Q)
    (H_discret_elem : list (list Q)) (d_discret_elem : list Q) (signed : bool) :
  build_qubo_matrix (f ++ [a]) dx y1 H_discret_elem d_discret_elem signed
  = build_qubo_matrix (f ++ [b]) dx y1 H_discret_elem d_discret_elem signed.
Proof.
  unfold build_qubo_matrix.
  rewrite (minimization_vector_of_snoc f a b), !length_app. reflexivity.
Qed.

(** X6: [build_quadratic_minimization_vector] and [build_qubo_matrix] do not
    depend on the last entry of [f]. *)
Theorem build_qubo_matrix_last_value_unused (f : list Q) (a b : Q) (dx y1 : Q)
    (H_discret_elem : list (list Q)) (d_discret_elem : list Q) (signed : bool) :
  build_quadratic_minimization_vector (f ++ [a]) dx y1
  = build_quadratic_minimization_vector (f ++ [b]) dx y1
  /\ build_qubo_matrix (f ++ [a]) dx y1 H_discret_elem d_discret_elem signed
     = build_qubo_matrix (f ++ [b]) dx y1 H_discret_elem d_discret_elem signed.
Proof.
  split; [apply minimization_vector_of_snoc | apply qubo_matrix_of_snoc].
Qed.

Lemma py_slice_of_snoc_inside {A : Type} (l : list A) (a : A) (start stop : Z) :
  0 <= start -> 0 <= stop <= Z.of_nat (length l) ->
  py_slice (l ++ [a]) start stop = py_slice l start stop.
Proof.
  intros Hstart Hstop. unfold py_slice. rewrite length_app. cbn [length].
  rewrite !py_clamp_nonneg by lia.
  destruct (Z.le_gt_cases (Z.of_nat (length l)) start) as [Hout | Hin].
  - replace ((length l + 1) `min` Z.to_nat stop - (length l + 1) `min` Z.to_nat start)%nat
      with O by lia.
    replace (length l `min` Z.to_nat stop - length l `min` Z.to_nat start)%nat
      with O by lia.
    reflexivity.
  - replace ((length l + 1) `min` Z.to_nat stop)%nat with (Z.to_nat stop) by lia.
    replace ((length l + 1) `min` Z.to_nat start)%nat with (Z.to_nat start) by lia.
    replace (length l `min` Z.to_nat stop)%nat with (Z.to_nat stop) by lia.
    replace (length l `min` Z.to_nat start)%nat with (Z.to_nat start) by lia.
    rewrite drop_app_le by lia. rewrite take_app_le by (rewrite length_drop; lia).
    reflexivity.
Qed.

Lemma py_slice_of_snoc_to_end {A : Type} (l : list A) (a : A) (start : Z) :
  0 <= start <= Z.of_nat (length l) ->
  py_slice (l ++ [a]) start (Z.of_nat (length l) + 1) = drop (Z.to_nat start) l ++ [a].
Proof.
  intros Hstart. unfold py_slice. rewrite length_app. cbn [length].
  rewrite !py_clamp_nonneg by lia.
  replace ((length l + 1) `min` Z.to_nat (Z.of_nat (length l) + 1))%nat
    with (length l + 1)%nat by lia.
  replace ((length l + 1) `min` Z.to_nat start)%nat with (Z.to_nat start) by lia.
  rewrite drop_app_le by lia.
  apply take_ge. rewrite length_app, length_drop. cbn [length]. lia.
Qed.

Section LastValue.

Variable sample_qubo : list (list Q) -> list sample.

Lemma solve_block_last_value_unused (f : list Q) (a b : Q) (dx : Q)
    (qbits_integer : Z) (signed : bool) (points_per_qubo : Z)
    (average_solutions : bool) (H_discret_elem : list (list Q))
    (d_discret_elem : list Q) (state : list (option Q) * Q) (i : Z) :
  0 < points_per_qubo ->
  1 <= i <= Z.of_nat (length f) ->
  solve_block sample_qubo (f ++ [a]) dx qbits_integer signed points_per_qubo
              average_solutions H_discret_elem d_discret_elem state i
  = solve_block sample_qubo (f ++ [b]) dx qbits_integer signed points_per_qubo
                average_solutions H_discret_elem d_discret_elem state i.
Proof.
  intros Hpp Hi. unfold solve_block. destruct state as [solution error].
  rewrite !length_app. cbn [length].
  replace (Z.of_nat (length f + 1)) with (Z.of_nat (length f) + 1) by lia.
  destruct (Z.le_gt_cases (i + points_per_qubo) (Z.of_nat (length f))) as [Hin | Hend].
  - rewrite Z.min_l by lia.
    now rewrite !(py_slice_of_snoc_inside f _ (i - 1) (i + points_per_qubo)) by lia.
  - rewrite Z.min_r by lia.
    rewrite !(py_slice_of_snoc_to_end f _ (i - 1)) by lia.
    set (g := drop (Z.to_nat (i - 1)) f).
    assert (exists g0 g', g = g0 :: g') as (g0 & g' & Hg).
    { destruct g as [| g0 g'] eqn:Eg; [| by eexists _, _].
      apply (f_equal length) in Eg. subst g. rewrite length_drop in Eg. cbn in Eg. lia. }
    rewrite !py_slice_init_of_snoc.
    assert (forall y1, build_qubo_matrix (g ++ [a]) dx y1 H_discret_elem d_discret_elem signed
                       = build_qubo_matrix (g ++ [b]) dx y1 H_discret_elem d_discret_elem
                           signed) as HQ.
    { intros y1. apply qubo_matrix_of_snoc. }
    assert (get (g ++ [a]) 0 = get (g ++ [b]) 0) as Hget by (rewrite Hg; reflexivity).
    rewrite Hget.
    destruct (get solution (i - 1)) as [[y1 |] |]; cbn [mbind result_bind];
      try reflexivity.
    now rewrite HQ.
Qed.

(** X7: [solve] does not depend on the value of [f] at the last grid point:
    two inputs that differ only there give the same solution and the same
    error, or the same exception. *)
Theorem solve_last_value_unused (f : list Q) (a b : Q) (dx y1 : Q)
    (qbits_integer qbits_decimal : Z) (signed : bool) (points_per_qubo : Z)
    (average_solutions : bool) :
  solve sample_qubo (f ++ [a]) dx y1 qbits_integer qbits_decimal signed points_per_qubo
        average_solutions
  = solve sample_qubo (f ++ [b]) dx y1 qbits_integer qbits_decimal signed
          points_per_qubo average_solutions.
Proof.
  unfold solve. rewrite !length_app. cbn [length].
  destruct (set_at _ 0 (Some y1)) as [solution |]; cbn [mbind result_bind];
    [| reflexivity].
  destruct (build_discretization_matrix _ _) as [Ht |]; cbn [mbind result_bind];
    [| reflexivity].
  destruct (py_range_step 1 (Z.of_nat (length f + 1)) points_per_qubo)
    as [indices |] eqn:Hrange; cbn [mbind result_bind]; [| reflexivity].
  apply for_each_ext. intros state i Hin.
  destruct (Z.lt_trichotomy points_per_qubo 0) as [Hneg | [-> | Hpos]].
  - rewrite py_range_step_negative_empty in Hrange by lia. injection Hrange as <-.
    now apply elem_of_nil in Hin.
  - discriminate.
  - apply solve_block_last_value_unused; [exact Hpos |].
    assert (1 <= Z.of_nat (length f + 1)) as Hstop by lia.
    destruct (py_range_step_from_one _ _ _ Hstop Hrange i Hin). lia.
Qed.

End LastValue.

(** ** [solve] on degenerate grids and with an arbitrary sampler *)

Lemma for_each_indexed_ok {A S : Type} (P : nat -> S -> Prop) (xs : list A)
    (body : S -> A -> result S) (s r : S) :
  P O s ->
  (forall k x s s', xs !! k = Some x -> P k s -> body s x = Ok s' ->
     P (Datatypes.S k) s') ->
  for_each xs body s = Ok r ->
  P (length xs) r.
Proof.
  revert P s. induction xs as [| x xs IH]; intros P s Hs Hstep; cbn [for_each length].
  - now intros [= <-].
  - destruct (body s x) as [s' |] eqn:Hbody; [| discriminate].
    cbn [mbind result_bind].
    apply (IH (fun k => P (Datatypes.S k))).
    + now apply (Hstep O x s s').
    + intros k x0 s0 s0' Hx0. now apply Hstep.
Qed.

Section AnySampler.

Variable sample_qubo : list (list Q) -> list sample.

(** X8: on an empty grid [solve] fails with [IndexError] when it stores the
    boundary value; on a grid of one point it returns the boundary value
    alone with error 0, for every block size other than 0 and without a
    call of the sampler. *)
Theorem solve_degenerate_grids (a : Q) (dx y1 : Q) (qbits_integer qbits_decimal : Z)
    (signed : bool) (points_per_qubo : Z) (average_solutions : bool) :
  solve sample_qubo [] dx y1 qbits_integer qbits_decimal signed points_per_qubo
        average_solutions = Raise IndexError
  /\ (points_per_qubo <> 0 ->
      solve sample_qubo [a] dx y1 qbits_integer qbits_decimal signed points_per_qubo
            average_solutions = Ok ([Some y1], 0%Q)).
Proof.
  split; [reflexivity |]. intros Hpp. unfold solve.
  rewrite build_discretization_matrix_rows. cbn [length replicate set_at mbind result_bind].
  change (set_at [None] 0 (Some y1)) with (Ok [Some y1]). cbn [mbind result_bind].
  destruct (Z.lt_trichotomy points_per_qubo 0) as [Hneg | [-> | Hpos]];
    [| contradiction |].
  - now rewrite py_range_step_negative_empty by lia.
  - rewrite py_range_step_positive by exact Hpos.
    replace (Z.to_nat ((Z.of_nat 1 - 1 + points_per_qubo - 1) / points_per_qubo))
      with O; [reflexivity |].
    rewrite Z.div_small by lia. reflexivity.
Qed.

(** X9: whatever the sampler returns, a solution returned by [solve] has the
    length of [f], and for a block size of at least 1 all of its entries
    have been assigned: a block either assigns its whole slice or ends the
    run with an exception. *)
Theorem solve_returns_full_solution (f : list Q) (dx y1 : Q)
    (qbits_integer qbits_decimal : Z) (signed : bool) (points_per_qubo : Z)
    (average_solutions : bool) (solution : list (option Q)) (error : Q) :
  solve sample_qubo f dx y1 qbits_integer qbits_decimal signed points_per_qubo
        average_solutions = Ok (solution, error) ->
  length solution = length f
  /\ (1 <= points_per_qubo ->
      forall k, (k < length f)%nat -> exists v, solution !! k = Some (Some v)).
Proof.
  unfold solve.
  destruct (set_at (replicate (length f) None) 0 (Some y1)) as [sol0 |] eqn:Hsol0;
    [| discriminate].
  assert (1 <= length f)%nat as Hf.
  { destruct f; [discriminate | cbn; lia]. }
  rewrite set_at_nonneg in Hsol0 by (rewrite length_replicate; lia).
  injection Hsol0 as <-. cbn [mbind result_bind].
  rewrite build_discretization_matrix_rows. cbn [mbind result_bind].
  destruct (py_range_step 1 (Z.of_nat (length f)) points_per_qubo) as [indices |] eqn:Hrange;
    [| discriminate].
  cbn [mbind result_bind]. intros Hloop. split.
  - apply (for_each_invariant (fun st => length (fst st) = length f)) in Hloop;
      [exact Hloop | |].
    + cbn [fst]. now rewrite length_insert, length_replicate.
    + intros [sol err] i [sol' err'] _ Hlen Hblock. cbn [fst] in *.
      apply solve_block_inv in Hblock.
      destruct Hblock as (_ & _ & _ & vals & _ & _ & _ & _ & Hassign & _).
      now rewrite (slice_assign_length _ _ _ _ _ Hassign).
  - intros Hpp. set (n := Z.of_nat (length f)) in *.
    rewrite py_range_step_positive in Hrange by lia. injection Hrange as <-.
    apply (for_each_indexed_ok
             (fun k st =>
                length (fst st) = length f
                /\ assigned_upto (Z.to_nat (Z.min (1 + Z.of_nat k * points_per_qubo) n))
                                 (fst st))) in Hloop.
    + destruct Hloop as [_ Hall]. cbn [fst] in Hall.
      rewrite length_map, length_seq in Hall.
      pose proof (block_count_reaches n points_per_qubo ltac:(lia)) as Hreach.
      intros k Hk. apply Hall. lia.
    + cbn [fst]. split; [now rewrite length_insert, length_replicate |].
      intros j Hj. assert (j = O) as -> by lia. exists y1.
      apply list_lookup_insert_eq. rewrite length_replicate. lia.
    + intros k x [sol err] [sol' err'] Hx [Hlen Hupto] Hblock. cbn [fst] in *.
      assert (x = 1 + Z.of_nat k * points_per_qubo /\ 1 <= x < n) as [Hxk Hxn].
      { eapply py_range_step_lookup; [| | exact Hx]; [lia |].
        apply py_range_step_positive. lia. }
      replace (Z.min (1 + Z.of_nat k * points_per_qubo) n) with x in Hupto by lia.
      apply solve_block_inv in Hblock.
      destruct Hblock as (_ & _ & _ & vals & _ & _ & _ & _ & Hassign & _).
      split; [now rewrite (slice_assign_length _ _ _ _ _ Hassign) |].
      replace (Z.to_nat (Z.min (1 + Z.of_nat (S k) * points_per_qubo) n))
        with (py_clamp (length sol) (Z.min (x + points_per_qubo) (Z.of_nat (length f))))
        by (rewrite py_clamp_nonneg by lia; lia).
      eapply slice_assign_assigned; [exact Hassign | |].
      * apply Forall_fmap, Forall_true. intros v. by exists v.
      * rewrite py_clamp_nonneg by lia.
        replace (length sol `min` Z.to_nat x)%nat with (Z.to_nat x) by lia.
        exact Hupto.
Qed.

End AnySampler.

Lemma solve_returns_full_solution_witness :
  length [Some 1%Q; Some 0%Q; Some 0%Q] = length [0%Q; 0%Q; 0%Q]
  /\ (1 <= 2 ->
      forall k, (k < length [0%Q; 0%Q; 0%Q])%nat ->
        exists v, [Some 1%Q; Some 0%Q; Some 0%Q] !! k = Some (Some v)).
Proof.
  apply (solve_returns_full_solution zero_sampler [0%Q; 0%Q; 0%Q] 1%Q 1%Q 1 0 false 2 false
           [Some 1%Q; Some 0%Q; Some 0%Q] 1%Q).
  vm_compute. reflexivity.
Defined.

(** ** Sums over index ranges *)

Lemma np_sum_from (l : list Q) (a : Q) :
  (fold_left Qplus l a == a + qsum (fun x => x) l)%Q.
Proof.
  revert a. induction l as [| x l IH]; intros a; cbn [fold_left qsum fold_right].
  - ring.
  - fold (qsum (fun x : Q => x) l). rewrite IH. ring.
Qed.

Lemma np_sum_qsum (l : list Q) : (np_sum l == qsum (fun x => x) l)%Q.
Proof. unfold np_sum. rewrite np_sum_from. ring. Qed.

Lemma qsum_seq_ext (g h : nat -> Q) (s n : nat) :
  (forall k, (s <= k < s + n)%nat -> (g k == h k)%Q) ->
  (qsum g (seq s n) == qsum h (seq s n))%Q.
Proof. intros Hgh. apply qsum_ext. intros k Hk. apply Hgh. now apply elem_of_seq in Hk. Qed.

Lemma qsum_seq_S (g : nat -> Q) (n : nat) :
  (qsum g (seq 0 (S n)) == qsum g (seq 0 n) + g n)%Q.
Proof.
  rewrite seq_S, qsum_app. cbn [qsum fold_right plus]. ring.
Qed.





(** ** The quadratic form of the first order problem *)

Section ResidualIdentity.

Variables (dx y1 : Q) (V F : nat -> Q).
Hypothesis dx_nonzero : ~ (dx == 0)%Q.




End ResidualIdentity.


(** ** The energy of an assignment in terms of the decoded values *)


Section GroupedSums.

(** [X] gives the values of the binary variables, [w] the weights of the
    places of one group of [nb] variables. *)
Variables (X w : nat -> Q) (nb m : nat).



End GroupedSums.


(** ** Decoding the groups of one sample *)

Lemma qsum_cons {A : Type} (h : A -> Q) (x : A) (l : list A) :
  qsum h (x :: l) = (h x + qsum h l)%Q.
Proof. reflexivity. Qed.

Lemma qsum_lookup {A : Type} (h : A -> Q) (l : list A) :
  (qsum h l
   == qsum (fun k => match l !! k with Some v => h v | None => 0 end) (seq 0 (length l)))%Q.
Proof.
  induction l as [| x l IH]; [reflexivity |].
  cbn [length seq]. rewrite !qsum_cons, <- fmap_S_seq.
  change (S <$> seq 0 (length l)) with (map S (seq 0 (length l))).
  rewrite qsum_map, IH. reflexivity.
Qed.



(** ** The entries of the QUBO matrix *)




(** ** The energy of an assignment and the residual of the decoded values *)


Lemma py_pow_two_succ (e : Z) : (py_pow 2 e == 2 * py_pow 2 (e - 1))%Q.
Proof.
  unfold py_pow. replace e with (1 + (e - 1)) at 1 by lia.
  rewrite Qpower_plus by discriminate. reflexivity.
Qed.







(** ** What a block stores when it takes the best sample *)


Lemma zero_sampler_faithful : sampler_faithful zero_sampler.
Proof.
  intros Qm s Hs. unfold zero_sampler in Hs. apply list_elem_of_singleton in Hs. subst s.
  cbn [sample_values sample_energy]. split; [apply length_replicate |]. split.
  - unfold binary. apply Forall_replicate. now left.
  - symmetry. unfold qubo_energy. apply qsum_zero. intros a _. apply qsum_zero.
    intros b Hb. apply elem_of_seq in Hb. rewrite length_replicate in Hb.
    rewrite (lookup_replicate_2 (length Qm) 0 b) by lia. cbn [default from_option id].
    ring.
Qed.

Section BestSample.

Variable sample_qubo : list (list Q) -> list sample.

(** A block that takes the best sample assigns the values decoded from the
    first record of the sample set and adds its energy. *)
Lemma solve_block_best_inv (f : list Q) (dx : Q) (qbits_integer : Z) (signed : bool)
    (points_per_qubo : Z) (H_discret_elem : list (list Q)) (d_discret_elem : list Q)
    (solution solution' : list (option Q)) (error error' : Q) (i : Z) :
  solve_block sample_qubo f dx qbits_integer signed points_per_qubo false
              H_discret_elem d_discret_elem (solution, error) i
  = Ok (solution', error') ->
  let next_i := Z.min (i + points_per_qubo) (Z.of_nat (length f)) in
  let f_block := py_slice f (i - 1) next_i in
  exists y1 Qm f0 first rest,
    get solution (i - 1) = Ok (Some y1)
    /\ build_qubo_matrix f_block dx y1 H_discret_elem d_discret_elem signed = Ok Qm
    /\ get f_block 0 = Ok f0
    /\ sample_qubo Qm = first :: rest
    /\ slice_assign solution i next_i
         (map Some (decoded_values d_discret_elem qbits_integer signed (sample_values first)))
       = Ok solution'
    /\ error' =
       (error
        + (sample_energy first
           + (if signed
              then (y1 ^ 2 + 2 * y1 * f0 * dx) / dx ^ 2
                   + np_sum (map (fun x => x ^ 2) (py_slice f_block 0 (-1)))
                   + (py_pow 4 (qbits_integer - 1)
                      + py_pow 2 qbits_integer * (y1 + f0 * dx)) / dx ^ 2
              else (y1 ^ 2 + 2 * y1 * f0 * dx) / dx ^ 2
                   + np_sum (map (fun x => x ^ 2) (py_slice f_block 0 (-1))))))%Q.
Proof.
  intros Hblock next_i f_block. unfold solve_block in Hblock.
  fold next_i in Hblock. fold f_block in Hblock.
  destruct (get solution (i - 1)) as [[y1 |] |] eqn:Hy1; try discriminate.
  cbn [mbind result_bind] in Hblock.
  destruct (build_qubo_matrix f_block dx y1 _ _ signed) as [Qm |] eqn:HQm;
    [| discriminate].
  cbn [mbind result_bind] in Hblock.
  destruct (sample_qubo Qm) as [| first rest] eqn:Hset.
  { cbn in Hblock. discriminate. }
  cbn [map np_array2] in Hblock.
  destruct (forallb _ _); [| discriminate].
  cbn [mbind result_bind] in Hblock.
  unfold np_reshape3 in Hblock.
  destruct (_ || _)%bool; [discriminate |].
  cbn [mbind result_bind map] in Hblock.
  destruct (get f_block 0) as [f0 |] eqn:Hf0; [| discriminate].
  cbn [mbind result_bind] in Hblock.
  exists y1, Qm, f0, first, rest.
  assert (forall (A : Type) (a : A) (l : list A), get (a :: l) 0 = Ok a) as Hhead.
  { intros A a l. apply get_nonneg; [lia | reflexivity]. }
  destruct signed; cbn [map] in Hblock; rewrite Hhead in Hblock;
    cbn [mbind result_bind] in Hblock;
    unfold decoded_values; rewrite ?map_map in Hblock;
    (destruct (slice_assign solution i next_i _) as [sol1 |] eqn:Hassign; [| discriminate]);
    cbn [py_next mbind result_bind] in Hblock; injection Hblock as <- <-;
    repeat split; try (reflexivity || assumption);
    rewrite map_map; exact Hassign.
Qed.

End BestSample.


(** ** FunctionalAssembler as written *)

Lemma for_each_unchanged {A S : Type} (xs : list A) (body : S -> A -> result S) (s : S) :
  (forall x, x ∈ xs -> body s x = Ok s) -> for_each xs body s = Ok s.
Proof.
  induction xs as [| x xs IH]; intros Hbody; cbn [for_each]; [reflexivity |].
  rewrite Hbody by apply list_elem_of_here. cbn [mbind result_bind].
  apply IH. intros y Hy. apply Hbody. now apply list_elem_of_further.
Qed.

Lemma add_at_inv (l l' : list Q) (i : Z) (x : Q) :
  0 <= i ->
  add_at l i x = Ok l' ->
  exists v, l !! Z.to_nat i = Some v /\ l' = <[Z.to_nat i := (v + x)%Q]> l.
Proof.
  intros Hi. unfold add_at.
  destruct (get l i) as [v |] eqn:Hv; [| discriminate]. cbn [mbind result_bind].
  apply get_inv in Hv; [| exact Hi].
  rewrite set_at_nonneg by (apply lookup_lt_Some in Hv; lia).
  intros [= <-]. now exists v.
Qed.

Section AsWritten.

Variable findiff_forward : Z -> Z -> result (list Q).

(** X12: the linear terms of a point leave the vector's length and every
    entry that belongs to an unknown before that point as they are: a
    scheme starts at its point and runs forward. *)
Theorem add_linear_terms_frame (d d' : list Q) (point_ind last_unknown_ind_global : Z)
    (funcs : list (list Q)) (dx : Q) (known_points : list Q)
    (max_considered_accuracy : Z) :
  add_linear_terms findiff_forward d point_ind last_unknown_ind_global funcs dx
                   known_points max_considered_accuracy = Ok d' ->
  length d' = length d
  /\ forall k, Z.of_nat k < point_ind - Z.of_nat (length known_points) ->
       d' !! k = d !! k.
Proof.
  unfold add_linear_terms.
  set (P := fun d1 : list Q =>
              length d1 = length d
              /\ forall k, Z.of_nat k < point_ind - Z.of_nat (length known_points) ->
                   d1 !! k = d !! k).
  intros Hloop. apply (for_each_invariant P) in Hloop; [exact Hloop | now split |].
  clear Hloop d'. intros d1 deriv_ind d' _ Hd1.
  destruct (get_deriv_range _ _ _ _) as [[[deriv_order accuracy_order] len] last_scheme].
  destruct (_ || _)%bool; [now intros [= <-] |].
  destruct (get_finite_difference_coefficients _ _ _) as [coeffs |]; [| discriminate].
  cbn [mbind result_bind].
  destruct (get2 funcs 0 point_ind) as [f_shift |]; [| discriminate].
  cbn [mbind result_bind].
  destruct (get2 funcs deriv_ind point_ind) as [f_mult |]; [| discriminate].
  cbn [mbind result_bind].
  intros Hinner. apply (for_each_invariant P) in Hinner; [exact Hinner | exact Hd1 |].
  clear Hinner d'. intros d2 scheme_ind d' Hscheme [Hlen Hframe].
  apply elem_of_py_range_nonneg in Hscheme.
  destruct (Z.ltb_spec (point_ind + scheme_ind - Z.of_nat (length known_points)) 0)
    as [Hneg | Hnonneg]; [now intros [= <-] |].
  destruct (get coeffs scheme_ind) as [c |]; [| discriminate].
  cbn [mbind result_bind]. intros Hadd.
  apply add_at_inv in Hadd; [| exact Hnonneg].
  destruct Hadd as (v & Hv & ->). split.
  - now rewrite length_insert.
  - intros k Hk. rewrite list_lookup_insert_ne by lia. now apply Hframe.
Qed.

(** X13: the outcomes of the general assembler as it is written.  A
    negative number of unknowns gives [ValueError]; without a multiplier
    row, or without any point to visit, the result is a matrix and a vector
    of zeros; in every other case the assembler computes the linear terms of
    point 0 and then ends with [NameError] in [add_quadratic_terms] (or
    with the exception of the linear terms).  An array without rows is
    taken to have no columns. *)
Theorem general_assembler_outcomes (funcs : list (list Q)) (dx : Q) (known_points : list Q)
    (max_considered_accuracy points_per_step : Z) :
  let first := Z.of_nat (length known_points) in
  let unknowns := Z.min points_per_step (shape1 funcs - first) in
  let zeros := replicate (Z.to_nat unknowns) 0%Q in
  let outcome :=
    build_quadratic_minimization_matrices_general findiff_forward funcs dx known_points
      max_considered_accuracy points_per_step in
  (unknowns < 0 -> outcome = Raise ValueError)
  /\ (0 <= unknowns -> shape0 funcs <= 1 \/ first + unknowns <= 0 ->
      outcome = Ok (replicate (Z.to_nat unknowns) zeros, zeros))
  /\ (0 <= unknowns -> 2 <= shape0 funcs -> 1 <= first + unknowns ->
      outcome
      = match add_linear_terms findiff_forward zeros 0 (first + unknowns - 1) funcs dx
                known_points max_considered_accuracy with
        | Ok _ => Raise (NameError "first_unknown_ind_global")
        | Raise e => Raise e
        end).
Proof.
  intros first unknowns zeros outcome. subst outcome.
  unfold build_quadratic_minimization_matrices_general,
    build_quadratic_minimization_matrices_general_reading.
  fold first. fold unknowns. unfold np_zeros2, np_zeros.
  split; [| split].
  - intros Hneg. destruct (Z.ltb_spec unknowns 0); [reflexivity | lia].
  - intros Hnonneg Htrivial.
    destruct (Z.ltb_spec unknowns 0); [lia |]. cbn [orb mbind result_bind].
    fold zeros. apply for_each_unchanged. intros point_ind Hpoint.
    destruct Htrivial as [Hrows | Hpoints].
    + unfold add_linear_terms, add_quadratic_terms_reading.
      rewrite py_range_nil by exact Hrows. reflexivity.
    + rewrite py_range_nil in Hpoint by lia. inversion Hpoint.
  - intros Hnonneg Hrows Hpoints.
    destruct (Z.ltb_spec unknowns 0); [lia |]. cbn [orb mbind result_bind].
    fold zeros. rewrite py_range_cons by lia. cbn [for_each].
    destruct (add_linear_terms _ _ _ _ _ _ _ _) as [d' | e]; [| reflexivity].
    cbn [mbind result_bind]. fold (add_quadratic_terms findiff_forward).
    rewrite add_quadratic_terms_name_error by exact Hrows. reflexivity.
Qed.

End AsWritten.

Lemma add_linear_terms_frame_witness :
  length [5%Q; 5%Q; 7%Q] = length [5%Q; 7%Q; 9%Q]
  /\ forall k, Z.of_nat k < 2 - Z.of_nat (length [0%Q]) ->
       [5%Q; 5%Q; 7%Q] !! k = [5%Q; 7%Q; 9%Q] !! k.
Proof.
  apply (add_linear_terms_frame findiff_table [5%Q; 7%Q; 9%Q] [5%Q; 5%Q; 7%Q] 2 3
           [[(-1)%Q; (-1)%Q; (-1)%Q; (-1)%Q]; [0%Q; 0%Q; 2%Q; 0%Q];
            [1%Q; 1%Q; 1%Q; 1%Q]] 1%Q [0%Q] 1).
  vm_compute. reflexivity.
Defined.

(** ** The range of the decoded values *)

Lemma py_pow_two_nonneg (e : Z) : (0 <= py_pow 2 e)%Q.
Proof. unfold py_pow. apply Qpower_0_le. discriminate. Qed.

(** The weights of a group form a geometric sum. *)
Lemma geometric_weights (e : Z) (n : nat) :
  (qsum (fun r => py_pow 2 (e - 1 - Z.of_nat r)) (seq 0 n)
   == py_pow 2 e - py_pow 2 (e - Z.of_nat n))%Q.
Proof.
  induction n as [| n IH].
  - replace (e - Z.of_nat 0) with e by lia. cbn [seq qsum fold_right]. ring.
  - rewrite qsum_seq_S, IH, (py_pow_two_succ (e - Z.of_nat n)).
    replace (e - Z.of_nat (S n)) with (e - Z.of_nat n - 1) by lia.
    replace (e - 1 - Z.of_nat n) with (e - Z.of_nat n - 1) by lia.
    ring.
Qed.

Lemma discretization_vector_sum (qbits_integer qbits_decimal : Z) :
  0 <= qbits_integer + qbits_decimal ->
  (np_sum (build_discretization_vector qbits_integer qbits_decimal)
   == py_pow 2 qbits_integer - py_pow 2 (- qbits_decimal))%Q.
Proof.
  intros Hbits. rewrite np_sum_qsum, qsum_lookup, length_build_discretization_vector.
  rewrite (qsum_seq_ext _ (fun r => py_pow 2 (qbits_integer - 1 - Z.of_nat r))).
  - rewrite geometric_weights. replace (qbits_integer - Z.of_nat (Z.to_nat (qbits_integer + qbits_decimal)))
      with (- qbits_decimal) by lia.
    reflexivity.
  - intros r Hr. unfold build_discretization_vector.
    rewrite list_lookup_fmap, lookup_j_range by lia. cbn.
    replace (- (- qbits_integer + 1 + Z.of_nat r)) with (qbits_integer - 1 - Z.of_nat r) by lia.
    reflexivity.
Qed.

Lemma qsum_nonneg (l : list Q) :
  Forall (fun v => 0 <= v)%Q l -> (0 <= qsum (fun v => v) l)%Q.
Proof.
  induction 1 as [| v l Hv _ IH]; [apply Qle_refl |].
  rewrite qsum_cons. replace 0%Q with (0 + 0)%Q by reflexivity.
  now apply Qplus_le_compat.
Qed.

(** A group of binary variables decodes to a value between 0 and the sum
    of the weights. *)
Lemma decode_group_bounds (d_discret_elem : list Q) (g : list Z) :
  Forall (fun v => 0 <= v)%Q d_discret_elem ->
  binary g ->
  (0 <= decode_group d_discret_elem g <= np_sum d_discret_elem)%Q.
Proof.
  intros Hw Hg. unfold decode_group. rewrite !np_sum_qsum.
  revert d_discret_elem Hw. induction Hg as [| b g Hb _ IH]; intros w Hw.
  - cbn [zip_with qsum fold_right]. split; [apply Qle_refl | now apply qsum_nonneg].
  - destruct Hw as [| v w Hv Hw].
    + cbn [zip_with qsum fold_right]. split; apply Qle_refl.
    + cbn [zip_with]. rewrite !qsum_cons. destruct (IH w Hw) as [Hlow Hhigh].
      destruct Hb as [-> | ->].
      * assert (inject_Z 0 * v == 0)%Q as -> by ring. split.
        -- replace 0%Q with (0 + 0)%Q at 1 by reflexivity.
           apply Qplus_le_compat; [apply Qle_refl | exact Hlow].
        -- now apply Qplus_le_compat.
      * assert (inject_Z 1 * v == v)%Q as -> by ring. split.
        -- replace 0%Q with (0 + 0)%Q at 1 by reflexivity.
           now apply Qplus_le_compat.
        -- apply Qplus_le_compat; [apply Qle_refl | exact Hhigh].
Qed.

(** The values decoded from binary variables: between 0 and
    [2 ** qbits_integer - 2 ** -qbits_decimal], shifted down by
    [2 ** (qbits_integer - 1)] in the signed case. *)
Lemma decoded_values_range (qbits_integer qbits_decimal : Z) (signed : bool) (x : list Z) :
  0 <= qbits_integer + qbits_decimal ->
  binary x ->
  Forall (fun v =>
            (if signed then - py_pow 2 (qbits_integer - 1) else 0) <= v
            /\ v <= (if signed then py_pow 2 (qbits_integer - 1) else py_pow 2 qbits_integer)
                    - py_pow 2 (- qbits_decimal))%Q
         (decoded_values (build_discretization_vector qbits_integer qbits_decimal)
                         qbits_integer signed x).
Proof.
  intros Hbits Hx. unfold decoded_values. apply Forall_fmap.
  eapply Forall_impl; [apply Forall_reshape; exact Hx |].
  intros g Hg. cbn.
  assert (Forall (fun v => 0 <= v)%Q (build_discretization_vector qbits_integer qbits_decimal))
    as Hw.
  { unfold build_discretization_vector. apply Forall_fmap, Forall_true. intros j. cbn.
    apply py_pow_two_nonneg. }
  destruct (decode_group_bounds _ g Hw Hg) as [Hlow Hhigh].
  rewrite discretization_vector_sum in Hhigh by exact Hbits.
  destruct signed; [| split; assumption].
  pose proof (py_pow_two_succ qbits_integer) as Htwice.
  set (v := decode_group _ g) in *. set (c := py_pow 2 (qbits_integer - 1)) in *.
  rewrite Htwice in Hhigh. split.
  - assert (- c == 0 + - c)%Q as -> by ring.
    apply Qplus_le_compat; [exact Hlow | apply Qle_refl].
  - assert (c - py_pow 2 (- qbits_decimal)
            == 2 * c - py_pow 2 (- qbits_decimal) + - c)%Q as -> by ring.
    apply Qplus_le_compat; [exact Hhigh | apply Qle_refl].
Qed.

Section ValuesInRange.

Variable sample_qubo : list (list Q) -> list sample.

(** X14: with a sampler that returns binary variables, every value that
    [solve] assigns behind the boundary value when it takes the best sample
    lies in the range of the fixed point representation: from 0 to
    [2 ** qbits_integer - 2 ** -qbits_decimal], shifted down by
    [2 ** (qbits_integer - 1)] in the signed case.  A solution that leaves
    this range cannot be followed. *)
Theorem solve_values_in_range (f : list Q) (dx y1 : Q) (qbits_integer qbits_decimal : Z)
    (signed : bool) (points_per_qubo : Z) (solution : list (option Q)) (error : Q) :
  0 <= qbits_integer + qbits_decimal ->
  (forall Qm s, s ∈ sample_qubo Qm -> binary (sample_values s)) ->
  solve sample_qubo f dx y1 qbits_integer qbits_decimal signed points_per_qubo false
  = Ok (solution, error) ->
  forall k v, (1 <= k)%nat -> solution !! k = Some (Some v) ->
    ((if signed then - py_pow 2 (qbits_integer - 1) else 0) <= v
     /\ v <= (if signed then py_pow 2 (qbits_integer - 1) else py_pow 2 qbits_integer)
             - py_pow 2 (- qbits_decimal))%Q.
Proof.
  intros Hbits Hsampler. unfold solve.
  set (in_range := fun v : Q =>
         ((if signed then - py_pow 2 (qbits_integer - 1) else 0) <= v
          /\ v <= (if signed then py_pow 2 (qbits_integer - 1) else py_pow 2 qbits_integer)
                  - py_pow 2 (- qbits_decimal))%Q).
  set (ok := fun o : option Q => match o with Some v => in_range v | None => True end).
  destruct (set_at (replicate (length f) None) 0 (Some y1)) as [sol0 |] eqn:Hsol0;
    [| discriminate].
  assert (1 <= length f)%nat as Hf.
  { destruct f; [discriminate | cbn; lia]. }
  rewrite set_at_nonneg in Hsol0 by (rewrite length_replicate; lia).
  injection Hsol0 as <-. cbn [mbind result_bind].
  destruct (build_discretization_matrix qbits_integer qbits_decimal)
    as [H_discret_elem |]; [| discriminate].
  cbn [mbind result_bind].
  destruct (py_range_step 1 (Z.of_nat (length f)) points_per_qubo) as [indices |] eqn:Hrange;
    [| discriminate].
  cbn [mbind result_bind]. intros Hloop.
  apply (for_each_invariant
           (fun st => exists o tl, fst st = o :: tl /\ Forall ok tl)) in Hloop.
  - destruct Hloop as (o & tl & Hsol & Htl). cbn [fst] in Hsol. subst solution.
    intros k v Hk Hv. destruct k as [| k]; [lia |]. cbn in Hv.
    rewrite Forall_lookup in Htl. exact (Htl k (Some v) Hv).
  - cbn [fst]. destruct (length f) as [| n]; [lia |]. cbn [replicate].
    eexists _, _. split; [reflexivity |].
    apply Forall_replicate. exact I.
  - intros [sol err] i [sol' err'] Hi (o & tl & Hsol & Htl) Hblock. cbn [fst] in *.
    subst sol.
    assert (1 <= Z.of_nat (length f)) as Hstop by lia.
    apply (py_range_step_from_one _ _ _ Hstop Hrange) in Hi.
    apply solve_block_best_inv in Hblock.
    destruct Hblock as (yb & Qm & f0 & first & rest & _ & _ & _ & Hset & Hassign & _).
    unfold slice_assign in Hassign.
    destruct (np_broadcast_to _ _) as [vals' |] eqn:Hvals; [| discriminate].
    cbn [mbind result_bind] in Hassign. injection Hassign as <-.
    assert (Forall ok vals') as Hvals'.
    { eapply np_broadcast_to_Forall; [exact Hvals |].
      apply Forall_fmap.
      eapply Forall_impl;
        [apply (decoded_values_range qbits_integer qbits_decimal signed _ Hbits) |].
      - apply (Hsampler Qm). rewrite Hset. apply list_elem_of_here.
      - intros v Hv. exact Hv. }
    cbn [length] in *.
    assert (exists s, py_clamp (S (length tl)) i = S s) as [s ->].
    { rewrite py_clamp_nonneg by lia.
      exists (Nat.min (length tl) (Z.to_nat i - 1)). lia. }
    cbn [take drop Nat.add app]. eexists _, _. split; [reflexivity |].
    apply Forall_app. split; [now apply Forall_take |].
    apply Forall_app. split; [exact Hvals' | now apply Forall_drop].
Qed.

End ValuesInRange.

Lemma solve_values_in_range_witness :
  ((if true then - py_pow 2 (1 - 1) else 0) <= -1
   /\ -1 <= (if true then py_pow 2 (1 - 1) else py_pow 2 1) - py_pow 2 (- 0))%Q.
Proof.
  apply (solve_values_in_range zero_sampler [(1 # 2)%Q; (1 # 2)%Q; 0%Q] 1%Q 1%Q 1 0 true 2
           [Some 1%Q; Some (-1)%Q; Some (-1)%Q] (416 # 64)%Q) with (k := 1%nat).
  - lia.
  - intros Qm s Hs. apply (zero_sampler_faithful Qm s Hs).
  - vm_compute. reflexivity.
  - lia.
  - reflexivity.
Defined.

(** ** A sampler that answers with an empty sample set *)

Section EmptySampleSet.

Variable sample_qubo : list (list Q) -> list sample.

(** X15: when the sampler answers with an empty sample set, [solve] ends in
    the first block with [ValueError]: the empty array of samples cannot be
    reshaped into groups.  No solution value is returned, in either mode. *)
Theorem solve_empty_sample_set (f : list Q) (dx y1 : Q) (qbits_integer qbits_decimal : Z)
    (signed : bool) (points_per_qubo : Z) (average_solutions : bool) :
  (2 <= length f)%nat ->
  1 <= points_per_qubo ->
  1 <= qbits_integer + qbits_decimal ->
  (forall Qm, sample_qubo Qm = []) ->
  solve sample_qubo f dx y1 qbits_integer qbits_decimal signed points_per_qubo
        average_solutions
  = Raise ValueError.
Proof.
  intros Hf Hpp Hbits Hempty. unfold solve.
  rewrite set_at_nonneg by (rewrite length_replicate; lia).
  cbn [mbind result_bind].
  destruct (build_discretization_matrix_symmetric qbits_integer qbits_decimal)
    as (H_discret_elem & -> & Hsym).
  cbn [mbind result_bind]. rewrite py_range_step_positive by lia.
  cbn [mbind result_bind].
  assert (exists count',
            Z.to_nat ((Z.of_nat (length f) - 1 + points_per_qubo - 1) / points_per_qubo)
            = S count') as [count' ->].
  { exists (Z.to_nat ((Z.of_nat (length f) - 1 + points_per_qubo - 1)
                      / points_per_qubo) - 1)%nat.
    assert (1 <= (Z.of_nat (length f) - 1 + points_per_qubo - 1) / points_per_qubo)
      by (apply Z.div_le_lower_bound; lia).
    lia. }
  cbn [seq map for_each].
  match goal with
  | |- (?block ≫= _) = _ => assert (block = Raise ValueError) as ->; [| reflexivity]
  end.
  unfold solve_block.
  replace (1 + Z.of_nat 0 * points_per_qubo) with 1 by lia.
  set (next_i := Z.min (1 + points_per_qubo) (Z.of_nat (length f))).
  set (f_block := py_slice f (1 - 1) next_i).
  assert (2 <= length f_block)%nat as Hfb.
  { subst f_block. rewrite length_py_slice, !py_clamp_nonneg by lia. lia. }
  rewrite (get_nonneg _ _ (Some y1)); [| lia |]; cycle 1.
  { apply list_lookup_insert_eq. rewrite length_replicate. lia. }
  cbn [mbind result_bind].
  destruct (qubo_matrix_symmetric_for_any_elements f_block dx y1 H_discret_elem
              (build_discretization_vector qbits_integer qbits_decimal) signed
              (Z.to_nat (qbits_integer + qbits_decimal)) Hfb Hsym)
    as (Qm & -> & _);
    [apply length_build_discretization_vector | intros _; lia |].
  cbn [mbind result_bind]. rewrite Hempty. reflexivity.
Qed.

End EmptySampleSet.

Lemma solve_empty_sample_set_witness :
  solve (fun _ => []) [1%Q; 2%Q; 3%Q] 1%Q 0%Q 1 1 true 1 true = Raise ValueError.
Proof.
  apply (solve_empty_sample_set (fun _ => []) [1%Q; 2%Q; 3%Q] 1%Q 0%Q 1 1 true 1 true);
    [cbn; lia | lia | lia | reflexivity].
Defined.

(** ** Sums over the records of a sample set *)


(** ** Weighted means *)





(** ** What a block stores in the averaging mode *)

Section AveragedBlock.

Variable sample_qubo : list (list Q) -> list sample.


End AveragedBlock.



(** ** The range of the values in the averaging mode *)


Section AveragedRange.

Variable sample_qubo : list (list Q) -> list sample.


End AveragedRange.


(** ** A sampler that finds the minimum *)

Section OptimalBlock.

Variable sample_qubo : list (list Q) -> list sample.
Hypothesis sampler_ok : sampler_faithful sample_qubo.


End OptimalBlock.


(** For an int64 array the property fails.  With [f = [1, 1]],
    [dx = 1], [y1 = 1/2] and one binary variable for each of the weights 1
    and 1/2, the vector of the block is truncated from [-3/2] to [-1]
    before the scaling; the assignment of least energy then decodes to 1,
    which is what the block stores, with squared residual 1/4, while the
    value 3/2 has squared residual 0. *)
Example solve_block_of_integers_not_best :
  let sampler := fun Qm : list (list Q) =>
    [ {| sample_values := [1; 0];
         sample_energy := qubo_energy Qm [1; 0];
         sample_num_occurrences := 1 |} ] in
  let H_discret_elem := [[1%Q; (1 # 2)%Q]; [(1 # 2)%Q; (1 # 4)%Q]] in
  let d_discret_elem := [1%Q; (1 # 2)%Q] in
  build_discretization_matrix 1 1 = Ok H_discret_elem
  /\ build_discretization_vector 1 1 = d_discret_elem
  /\ exists Qm,
       build_qubo_matrix_of Int64 [1%Q; 1%Q] 1%Q (1 # 2)%Q H_discret_elem d_discret_elem
                            false = Ok Qm
       /\ Forall (fun x => (qubo_energy Qm [1%Z; 0%Z] <= qubo_energy Qm x)%Q)
                 [[0; 0]; [0; 1]; [1; 0]; [1; 1]]
       /\ (exists error',
             solve_block_of Int64 sampler [1%Q; 1%Q] 1%Q 1 false 1 false H_discret_elem
                            d_discret_elem ([Some (1 # 2)%Q; None], 0%Q) 1
             = Ok ([Some (1 # 2)%Q; Some (2 # 2)%Q], error'))
       /\ decoded_values d_discret_elem 1 false [1; 0] = [(2 # 2)%Q]
       /\ (squared_residual [1%Q; 1%Q] 1%Q [(1 # 2)%Q; (2 # 2)%Q] == 1 # 4)%Q
       /\ (squared_residual [1%Q; 1%Q] 1%Q [(1 # 2)%Q; (3 # 2)%Q] == 0)%Q.
Proof.
  cbv zeta. split; [reflexivity |]. split; [reflexivity |].
  eexists. split; [reflexivity |].
  split; [repeat constructor; vm_compute; discriminate |].
  split; [eexists; vm_compute; reflexivity |].
  split; [vm_compute; reflexivity |].
  split; reflexivity.
Qed.

(** ** The solver marches from left to right *)

Lemma for_each_app {A S : Type} (xs ys : list A) (body : S -> A -> result S) (s : S) :
  for_each (xs ++ ys) body s = (s' ← for_each xs body s; for_each ys body s').
Proof.
  revert s. induction xs as [| x xs IH]; intros s; cbn [app for_each mbind result_bind];
    [reflexivity |].
  destruct (body s x) as [s' |]; cbn [mbind result_bind]; [apply IH | reflexivity].
Qed.

(** Two arrays that agree before index [K] give slices that agree up to
    their last element, when the slice ends at [K] or before. *)
Lemma py_slice_agree (f f' : list Q) (K : nat) (start stop : Z) :
  length f = length f' ->
  take K f = take K f' ->
  0 <= start < stop - 1 ->
  stop <= Z.of_nat (length f) ->
  stop <= Z.of_nat K + 1 ->
  exists g a b,
    g <> []
    /\ py_slice f start stop = g ++ [a]
    /\ py_slice f' start stop = g ++ [b].
Proof.
  intros Hlen Hagree Hstart Hstop HK.
  assert (forall l : list Q,
            stop <= Z.of_nat (length l) ->
            py_slice l start stop
            = take (Z.to_nat (stop - 1) - Z.to_nat start) (drop (Z.to_nat start) l)
              ++ [default 0%Q (l !! Z.to_nat (stop - 1))]) as Hslice.
  { intros l Hl. unfold py_slice. rewrite !py_clamp_nonneg by lia.
    replace (length l `min` Z.to_nat stop - length l `min` Z.to_nat start)%nat
      with (S (Z.to_nat (stop - 1) - Z.to_nat start)) by lia.
    replace (length l `min` Z.to_nat start)%nat with (Z.to_nat start) by lia.
    destruct (lookup_lt_is_Some_2 l (Z.to_nat (stop - 1))) as [v Hv]; [lia |].
    rewrite Hv. cbn [default from_option id].
    apply take_S_r. rewrite lookup_drop. rewrite <- Hv. f_equal. lia. }
  exists (take (Z.to_nat (stop - 1) - Z.to_nat start) (drop (Z.to_nat start) f)),
         (default 0%Q (f !! Z.to_nat (stop - 1))),
         (default 0%Q (f' !! Z.to_nat (stop - 1))).
  split; [| split].
  - intros Hnil. apply (f_equal length) in Hnil.
    rewrite length_take, length_drop in Hnil. cbn [length] in Hnil. lia.
  - apply Hslice. exact Hstop.
  - rewrite Hslice by lia. f_equal.
    rewrite !take_drop_commute.
    replace (Z.to_nat start + (Z.to_nat (stop - 1) - Z.to_nat start))%nat
      with (Nat.min (Z.to_nat (stop - 1)) K) by lia.
    now rewrite <- !take_take, Hagree.
Qed.

Section Marching.

Variable sample_qubo : list (list Q) -> list sample.

(** A block whose intervals end at index [K] or before runs in the same way
    for two arrays that agree before [K]. *)
Lemma solve_block_agree (f f' : list Q) (K : nat) (dx : Q) (qbits_integer : Z)
    (signed : bool) (points_per_qubo : Z) (average_solutions : bool)
    (H_discret_elem : list (list Q)) (d_discret_elem : list Q)
    (state : list (option Q) * Q) (i : Z) :
  length f = length f' ->
  take K f = take K f' ->
  0 < points_per_qubo ->
  1 <= i < Z.of_nat (length f) ->
  Z.min (i + points_per_qubo) (Z.of_nat (length f)) <= Z.of_nat K + 1 ->
  solve_block sample_qubo f dx qbits_integer signed points_per_qubo average_solutions
              H_discret_elem d_discret_elem state i
  = solve_block sample_qubo f' dx qbits_integer signed points_per_qubo average_solutions
                H_discret_elem d_discret_elem state i.
Proof.
  intros Hlen Hagree Hpp Hi HK. unfold solve_block. destruct state as [solution error].
  rewrite <- Hlen.
  set (next_i := Z.min (i + points_per_qubo) (Z.of_nat (length f))) in *.
  destruct (py_slice_agree f f' K (i - 1) next_i Hlen Hagree)
    as (g & a & b & Hg & -> & ->); [lia | lia | lia |].
  rewrite !py_slice_init_of_snoc.
  assert (get (g ++ [a]) 0 = get (g ++ [b]) 0) as ->.
  { destruct g as [| g0 g']; [contradiction | reflexivity]. }
  destruct (get solution (i - 1)) as [[y1 |] |]; cbn [mbind result_bind];
    try reflexivity.
  now rewrite (qubo_matrix_of_snoc g a b).
Qed.

(** X19: for a block size of at least 1, two arrays [f] of one length that
    agree before index [K] give solutions that agree on all blocks whose
    intervals end at [K] or before, that is on the first
    [1 + (K // points_per_qubo) * points_per_qubo] entries: the value of
    [f] at a point never influences the solution before that point. *)
Theorem solve_marches_forward (f f' : list Q) (K : nat) (dx y1 : Q)
    (qbits_integer qbits_decimal : Z) (signed : bool) (points_per_qubo : Z)
    (average_solutions : bool) (solution solution' : list (option Q))
    (error error' : Q) :
  1 <= points_per_qubo ->
  length f = length f' ->
  take K f = take K f' ->
  solve sample_qubo f dx y1 qbits_integer qbits_decimal signed points_per_qubo
        average_solutions = Ok (solution, error) ->
  solve sample_qubo f' dx y1 qbits_integer qbits_decimal signed points_per_qubo
        average_solutions = Ok (solution', error') ->
  forall k, Z.of_nat k < 1 + (Z.of_nat K / points_per_qubo) * points_per_qubo ->
    solution !! k = solution' !! k.
Proof.
  intros Hpp Hlen Hagree. unfold solve. rewrite <- Hlen.
  destruct (set_at (replicate (length f) None) 0 (Some y1)) as [sol0 |] eqn:Hsol0;
    [| discriminate].
  assert (1 <= length f)%nat as Hf.
  { destruct f; [discriminate | cbn; lia]. }
  rewrite set_at_nonneg in Hsol0 by (rewrite length_replicate; lia).
  injection Hsol0 as <-. cbn [mbind result_bind].
  destruct (build_discretization_matrix qbits_integer qbits_decimal)
    as [H_discret_elem |]; [| discriminate].
  cbn [mbind result_bind].
  rewrite py_range_step_positive by lia. cbn [mbind result_bind].
  set (n := Z.of_nat (length f)) in *.
  set (count := Z.to_nat ((n - 1 + points_per_qubo - 1) / points_per_qubo)).
  set (J := Nat.min (Z.to_nat (Z.of_nat K / points_per_qubo)) count).
  assert (0 <= Z.of_nat K / points_per_qubo) as Hdiv by (apply Z.div_pos; lia).
  assert ((Z.of_nat K / points_per_qubo) * points_per_qubo <= Z.of_nat K) as Hfloor.
  { rewrite Z.mul_comm. apply Z.mul_div_le. lia. }
  replace (seq 0 count) with (seq 0 J ++ seq J (count - J))
    by (rewrite <- seq_app; f_equal; lia).
  rewrite map_app, !for_each_app.
  set (init := (<[Z.to_nat 0 := Some y1]> (replicate (length f) None), 0%Q)).
  rewrite (for_each_ext (map _ (seq 0 J))
             (solve_block sample_qubo f dx qbits_integer signed points_per_qubo
                          average_solutions H_discret_elem
                          (build_discretization_vector qbits_integer qbits_decimal))
             (solve_block sample_qubo f' dx qbits_integer signed points_per_qubo
                          average_solutions H_discret_elem
                          (build_discretization_vector qbits_integer qbits_decimal))).
  2:{ intros state i Hi. apply list_elem_of_fmap in Hi. destruct Hi as (j & -> & Hj).
      apply elem_of_seq in Hj.
      assert (1 + Z.of_nat j * points_per_qubo < n) as Hin.
      { apply block_count_bounds; [lia |]. fold count. lia. }
      apply (solve_block_agree f f' K); try assumption; try lia.
      fold n.
      assert (Z.of_nat j + 1 <= Z.of_nat K / points_per_qubo) as Hj' by lia.
      assert ((Z.of_nat j + 1) * points_per_qubo
              <= (Z.of_nat K / points_per_qubo) * points_per_qubo)
        by (apply Z.mul_le_mono_nonneg_r; lia).
      lia. }
  destruct (for_each (map _ (seq 0 J)) _ init) as [[sol1 err1] |] eqn:Hfirst;
    [| discriminate].
  cbn [mbind result_bind].
  assert (length sol1 = length f) as Hlen1.
  { apply (for_each_invariant (fun st => length (fst st) = length f)) in Hfirst;
      [exact Hfirst | |].
    - subst init. cbn [fst]. now rewrite length_insert, length_replicate.
    - intros [sol err] i [sol' err'] _ Hl Hblock. cbn [fst] in *.
      apply solve_block_inv in Hblock.
      destruct Hblock as (_ & _ & _ & vals & _ & _ & _ & _ & Hassign & _).
      now rewrite (slice_assign_length _ _ _ _ _ Hassign). }
  assert (forall g final,
            for_each (map (fun k => 1 + Z.of_nat k * points_per_qubo) (seq J (count - J)))
              (solve_block sample_qubo g dx qbits_integer signed points_per_qubo
                           average_solutions H_discret_elem
                           (build_discretization_vector qbits_integer qbits_decimal))
              (sol1, err1) = Ok final ->
            forall k, (k < 1 + J * Z.to_nat points_per_qubo)%nat ->
              fst final !! k = sol1 !! k) as Hrest.
  { intros g final Hloop.
    apply (for_each_invariant
             (fun st => length (fst st) = length f
                        /\ forall k, (k < 1 + J * Z.to_nat points_per_qubo)%nat ->
                             fst st !! k = sol1 !! k)) in Hloop.
    - apply Hloop.
    - cbn [fst]. now split.
    - intros [sol err] i [sol' err'] Hi [Hl Hsame] Hblock. cbn [fst] in *.
      apply list_elem_of_fmap in Hi. destruct Hi as (j & -> & Hj).
      apply elem_of_seq in Hj.
      apply solve_block_inv in Hblock.
      destruct Hblock as (_ & _ & _ & vals & _ & _ & _ & _ & Hassign & _).
      split; [now rewrite (slice_assign_length _ _ _ _ _ Hassign) |].
      intros k Hk.
      rewrite (slice_assign_lookup_before _ _ _ _ _ _ Hassign); [now apply Hsame |].
      rewrite py_clamp_nonneg by lia. rewrite Hl.
      assert (Z.of_nat J * points_per_qubo <= Z.of_nat j * points_per_qubo)
        by (apply Z.mul_le_mono_nonneg_r; lia).
      assert (1 + Z.of_nat j * points_per_qubo < n).
      { apply block_count_bounds; [lia |]. fold count. lia. }
      nia. }
  intros Hrun Hrun' k Hk.
  destruct (decide (k < length f)%nat) as [Hin | Hout].
  - assert (k < 1 + J * Z.to_nat points_per_qubo)%nat as HkJ.
    { destruct (decide (Z.to_nat (Z.of_nat K / points_per_qubo) <= count)%nat).
      - replace J with (Z.to_nat (Z.of_nat K / points_per_qubo)) by lia. nia.
      - replace J with count by lia.
        pose proof (block_count_reaches n points_per_qubo ltac:(lia)) as Hreach.
        fold count in Hreach. nia. }
    pose proof (Hrest f _ Hrun k HkJ) as Hleft.
    pose proof (Hrest f' _ Hrun' k HkJ) as Hright.
    cbn [fst] in Hleft, Hright. now rewrite Hleft, Hright.
  - assert (length solution = length f /\ length solution' = length f) as [Hl Hl'].
    { split.
      + apply (for_each_invariant (fun st => length (fst st) = length f)) in Hrun;
          [exact Hrun | exact Hlen1 |].
        intros [sol err] i [sol' err'] _ Hl Hblock. cbn [fst] in *.
        apply solve_block_inv in Hblock.
        destruct Hblock as (_ & _ & _ & vals & _ & _ & _ & _ & Hassign & _).
        now rewrite (slice_assign_length _ _ _ _ _ Hassign).
      + apply (for_each_invariant (fun st => length (fst st) = length f)) in Hrun';
          [exact Hrun' | exact Hlen1 |].
        intros [sol err] i [sol' err'] _ Hl Hblock. cbn [fst] in *.
        apply solve_block_inv in Hblock.
        destruct Hblock as (_ & _ & _ & vals & _ & _ & _ & _ & Hassign & _).
        rewrite (slice_assign_length _ _ _ _ _ Hassign). exact Hl. }
    rewrite !lookup_ge_None_2 by lia. reflexivity.
Qed.

End Marching.

Lemma solve_marches_forward_witness :
  [Some 0%Q; Some (12 # 16)%Q; Some (12 # 16)%Q] !! 1%nat
  = [Some 0%Q; Some (12 # 16)%Q; Some (12 # 16)%Q] !! 1%nat.
Proof.
  apply (solve_marches_forward extreme_sampler [1%Q; 0%Q; 2%Q] [1%Q; 5%Q; 7%Q] 1 1%Q 0%Q
           1 0 false 1 true
           [Some 0%Q; Some (12 # 16)%Q; Some (12 # 16)%Q]
           [Some 0%Q; Some (12 # 16)%Q; Some (12 # 16)%Q]
           (7340032 # 16777216)%Q (426770432 # 16777216)%Q).
  - lia.
  - reflexivity.
  - reflexivity.
  - vm_compute. reflexivity.
  - vm_compute. reflexivity.
  - vm_compute. reflexivity.
Defined.
(** * The block loop of [solve] *)
Lemma np_broadcast_to_error {A : Type} (vals : list A) (n : nat) (e : exn) :
  np_broadcast_to vals n = Raise e -> e = ValueError.
Proof.
  unfold np_broadcast_to. destruct (length vals =? n)%nat; [discriminate |].
  destruct vals as [| v [| ? ?]]; try discriminate; now intros [= <-].
Qed.

Lemma slice_assign_error {A : Type} (l : list A) (start stop : Z) (vals : list A)
    (e : exn) :
  slice_assign l start stop vals = Raise e -> e = ValueError.
Proof.
  unfold slice_assign.
  destruct (np_broadcast_to vals _) as [vals' | e'] eqn:Hb; [discriminate |].
  cbn [mbind result_bind]. intros [= <-]. exact (np_broadcast_to_error _ _ _ Hb).
Qed.

Lemma for_each_never_raises {A S : Type} (e : exn) (P : S -> Prop) (xs : list A)
    (body : S -> A -> result S) (s : S) :
  P s ->
  (forall s x, x ∈ xs -> P s ->
     body s x <> Raise e /\ forall s', body s x = Ok s' -> P s') ->
  for_each xs body s <> Raise e.
Proof.
  revert s. induction xs as [| x xs IH]; intros s Hs Hstep; cbn [for_each].
  - discriminate.
  - destruct (Hstep s x (list_elem_of_here _ _) Hs) as [Hne Hnext].
    destruct (body s x) as [s' | e'] eqn:Hbody; cbn [mbind result_bind].
    + apply IH; [now apply Hnext |].
      intros s0 x0 Hin. apply Hstep. now apply list_elem_of_further.
    + exact Hne.
Qed.

(** After [l[start:stop] = vals] the slice holds the values, broadcast to
    its length, and the slices before it are as they were. *)
Lemma slice_assign_slice {A : Type} (l l' : list A) (start stop : Z) (vals : list A) :
  0 <= start <= stop -> stop <= Z.of_nat (length l) ->
  slice_assign l start stop vals = Ok l' ->
  np_broadcast_to vals (Z.to_nat (stop - start)) = Ok (py_slice l' start stop).
Proof.
  intros Hstart Hstop Hassign.
  pose proof (slice_assign_length _ _ _ _ _ Hassign) as Hlen.
  unfold slice_assign in Hassign. rewrite !py_clamp_nonneg in Hassign by lia.
  replace (length l `min` Z.to_nat stop - length l `min` Z.to_nat start)%nat
    with (Z.to_nat (stop - start)) in Hassign by lia.
  destruct (np_broadcast_to vals _) as [vals' |] eqn:Hb; [| discriminate].
  cbn [mbind result_bind] in Hassign. injection Hassign as <-.
  apply np_broadcast_to_length in Hb.
  f_equal. unfold py_slice. rewrite Hlen, !py_clamp_nonneg by lia.
  rewrite drop_app_length' by (rewrite length_take; lia).
  rewrite take_app_length' by lia. reflexivity.
Qed.

Lemma slice_assign_slice_before {A : Type} (l l' : list A) (start stop : Z)
    (vals : list A) (a b : Z) :
  slice_assign l start stop vals = Ok l' ->
  0 <= a -> 0 <= b <= start ->
  py_slice l' a b = py_slice l a b.
Proof.
  intros Hassign Ha Hb.
  pose proof (slice_assign_length _ _ _ _ _ Hassign) as Hlen.
  unfold py_slice. rewrite Hlen.
  set (s := py_clamp (length l) a). set (e := py_clamp (length l) b).
  assert (e <= py_clamp (length l) start)%nat as He.
  { subst e. rewrite !py_clamp_nonneg by lia. lia. }
  apply list_eq. intros j.
  destruct (Nat.lt_ge_cases j (e - s)) as [Hj | Hj].
  - rewrite !lookup_take_lt, !lookup_drop by exact Hj.
    apply (slice_assign_lookup_before _ _ _ _ _ _ Hassign). lia.
  - now rewrite !lookup_take_ge by exact Hj.
Qed.

Section BlockLoop.

Variable sample_qubo : list (list Q) -> list sample.

(** A block iteration that ends normally has read the boundary value at
    [i - 1], built the QUBO matrix of [f[i-1 : next_i]], and written the
    values made of the sample set to [solution[i:next_i]]. *)
Lemma solve_block_values_inv (f : list Q) (dx : Q) (qbits_integer : Z) (signed : bool)
    (points_per_qubo : Z) (average_solutions : bool)
    (H_discret_elem : list (list Q)) (d_discret_elem : list Q)
    (solution solution' : list (option Q)) (error error' : Q) (i : Z) :
  solve_block sample_qubo f dx qbits_integer signed points_per_qubo average_solutions
              H_discret_elem d_discret_elem (solution, error) i
  = Ok (solution', error') ->
  let next_i := Z.min (i + points_per_qubo) (Z.of_nat (length f)) in
  exists y Qm vals,
    get solution (i - 1) = Ok (Some y)
    /\ build_qubo_matrix (py_slice f (i - 1) next_i) dx y H_discret_elem d_discret_elem
                         signed = Ok Qm
    /\ block_values average_solutions signed qbits_integer d_discret_elem (sample_qubo Qm)
       = Ok vals
    /\ slice_assign solution i next_i (map Some vals) = Ok solution'.
Proof.
  intros Hblock next_i. unfold solve_block in Hblock. fold next_i in Hblock.
  destruct (get solution (i - 1)) as [[y |] |] eqn:Hy; try discriminate.
  cbn [mbind result_bind] in Hblock.
  destruct (build_qubo_matrix _ dx y _ _ signed) as [Qm |] eqn:HQm; [| discriminate].
  cbn [mbind result_bind] in Hblock.
  exists y, Qm. unfold block_values.
  destruct (np_array2 _) as [[samples_bin m] |]; [| discriminate].
  cbn [mbind result_bind] in Hblock |- *.
  destruct (np_reshape3 _ _ _) as [structured |]; [| discriminate].
  cbn [mbind result_bind] in Hblock |- *.
  destruct (get (py_slice f (i - 1) next_i) 0) as [f0 |]; [| discriminate].
  cbn [mbind result_bind] in Hblock.
  destruct average_solutions.
  - destruct (slice_assign solution i next_i _) as [sol1 |] eqn:Hassign; [| discriminate].
    cbn [mbind result_bind] in Hblock. injection Hblock as <- _.
    eexists. repeat split; first [exact Hassign | eassumption | reflexivity].
  - destruct (get (if signed then _ else _) 0) as [best |]; [| discriminate].
    cbn [mbind result_bind] in Hblock.
    destruct (slice_assign solution i next_i _) as [sol1 |] eqn:Hassign; [| discriminate].
    cbn [mbind result_bind] in Hblock.
    destruct (py_next _) as [first |]; [| discriminate].
    cbn [mbind result_bind] in Hblock. injection Hblock as <- _.
    eexists. repeat split; first [exact Hassign | eassumption | reflexivity].
Qed.

(** With at least one binary variable for each value, no index of a block
    iteration inside the grid is out of range, whatever the sampler
    returns. *)
Lemma solve_block_no_index_error (f : list Q) (dx : Q) (qbits_integer : Z)
    (signed : bool) (points_per_qubo : Z) (average_solutions : bool)
    (H_discret_elem : list (list Q)) (d_discret_elem : list Q) (nb : nat)
    (solution : list (option Q)) (error : Q) (i : Z) :
  symmetric nb H_discret_elem ->
  length d_discret_elem = nb ->
  (1 <= nb)%nat ->
  1 <= points_per_qubo ->
  1 <= i < Z.of_nat (length f) ->
  length solution = length f ->
  solve_block sample_qubo f dx qbits_integer signed points_per_qubo average_solutions
              H_discret_elem d_discret_elem (solution, error) i
  <> Raise IndexError.
Proof.
  intros Htsym Hdlen Hnb Hpp Hi Hlen. unfold solve_block.
  set (next_i := Z.min (i + points_per_qubo) (Z.of_nat (length f))).
  set (f_block := py_slice f (i - 1) next_i).
  destruct (get_in_range solution (i - 1)) as (cell & _ & ->); [lia |].
  cbn [mbind result_bind]. destruct cell as [y |]; [| discriminate].
  cbn [mbind result_bind].
  assert (2 <= length f_block)%nat as Hfb.
  { subst f_block. rewrite length_py_slice, !py_clamp_nonneg by lia. lia. }
  destruct (qubo_matrix_symmetric_for_any_elements f_block dx y H_discret_elem
              d_discret_elem signed nb) as (Qm & -> & _);
    [exact Hfb | assumption | assumption | intros; lia |].
  cbn [mbind result_bind].
  destruct (np_array2 _) as [[samples_bin m] | e] eqn:Harray; cbn [mbind result_bind];
    [| rewrite (np_array2_error _ _ Harray); discriminate].
  unfold np_reshape3.
  destruct (Nat.eqb_spec (length samples_bin * length d_discret_elem) 0) as [| Hrows];
    [discriminate |].
  cbn [orb]. destruct (negb _); [discriminate |]. cbn [mbind result_bind].
  destruct (get_in_range f_block 0) as (f0 & _ & ->); [lia |].
  cbn [mbind result_bind].
  destruct average_solutions.
  - destruct (slice_assign solution i next_i _) as [sol1 | e] eqn:Hassign;
      cbn [mbind result_bind]; [discriminate |].
    rewrite (slice_assign_error _ _ _ _ _ Hassign). discriminate.
  - match goal with
    | |- context [get ?sc 0] => destruct (get_in_range sc 0) as (best & _ & ->)
    end.
    { destruct signed; rewrite !length_map; lia. }
    cbn [mbind result_bind].
    destruct (slice_assign solution i next_i _) as [sol1 | e] eqn:Hassign;
      cbn [mbind result_bind];
      [| rewrite (slice_assign_error _ _ _ _ _ Hassign); discriminate].
    destruct (sample_qubo Qm); discriminate.
Qed.

(** C9 (corrected): for a grid of at least two points, a block size of at
    least 1 and at least one binary variable for each value, no index of
    [solve] is out of range, whatever the sampler returns; [solve] returns
    when the sampler keeps its contract; and when [solve] returns, the
    solution has the length of [f], all of its entries have been assigned,
    and every block that starts at [i = 1 + k * points_per_qubo < len(f)]
    ends at [next_i = min(i + points_per_qubo, len(f))]: the final block is
    shrunk to the points that remain.  The entries [solution[i:next_i]] are
    the values made of the sample set that the sampler returned for the
    QUBO matrix of [f[i-1 : next_i]] with the boundary value
    [solution[i-1]], broadcast to the length [next_i - i] of the block. *)
Theorem solve_blocks_cover_grid (f : list Q) (dx y1 : Q)
    (qbits_integer qbits_decimal : Z) (signed : bool) (points_per_qubo : Z)
    (average_solutions : bool) :
  (2 <= length f)%nat ->
  1 <= points_per_qubo ->
  1 <= qbits_integer + qbits_decimal ->
  let n := Z.of_nat (length f) in
  let d_discret_elem := build_discretization_vector qbits_integer qbits_decimal in
  let result :=
    solve sample_qubo f dx y1 qbits_integer qbits_decimal signed points_per_qubo
          average_solutions in
  result <> Raise IndexError
  /\ (sampler_well_formed sample_qubo ->
      exists solution error, result = Ok (solution, error))
  /\ forall solution error,
       result = Ok (solution, error) ->
       length solution = length f
       /\ (forall k, (k < length f)%nat -> exists v, solution !! k = Some (Some v))
       /\ forall i,
            1 <= i < n ->
            (i - 1) mod points_per_qubo = 0 ->
            let next_i := Z.min (i + points_per_qubo) n in
            exists y H_discret_elem Qm vals,
              solution !! Z.to_nat (i - 1) = Some (Some y)
              /\ build_discretization_matrix qbits_integer qbits_decimal
                 = Ok H_discret_elem
              /\ build_qubo_matrix (py_slice f (i - 1) next_i) dx y H_discret_elem
                                   d_discret_elem signed = Ok Qm
              /\ block_values average_solutions signed qbits_integer d_discret_elem
                              (sample_qubo Qm) = Ok vals
              /\ np_broadcast_to (map Some vals) (Z.to_nat (next_i - i))
                 = Ok (py_slice solution i next_i).
Proof.
  intros Hf Hpp Hbits n d_discret_elem result.
  destruct (build_discretization_matrix_symmetric qbits_integer qbits_decimal)
    as (Ht & HHt & Htsym).
  set (count := Z.to_nat ((n - 1 + points_per_qubo - 1) / points_per_qubo)).
  set (indices := map (fun k => 1 + Z.of_nat k * points_per_qubo) (seq 0 count)).
  set (init := (<[Z.to_nat 0 := Some y1]> (replicate (length f) (@None Q)), 0%Q)).
  assert (result
          = for_each indices
              (solve_block sample_qubo f dx qbits_integer signed points_per_qubo
                           average_solutions Ht d_discret_elem) init) as Hunfold.
  { subst result. unfold solve.
    rewrite set_at_nonneg by (rewrite length_replicate; lia).
    cbn [mbind result_bind]. rewrite HHt. cbn [mbind result_bind].
    rewrite py_range_step_positive by lia. reflexivity. }
  assert (forall k x, indices !! k = Some x ->
            x = 1 + Z.of_nat k * points_per_qubo /\ 1 <= x < n) as Hidx.
  { intros k x Hx. eapply py_range_step_lookup; [| | exact Hx]; [lia |].
    apply py_range_step_positive. lia. }
  assert (length d_discret_elem = Z.to_nat (qbits_integer + qbits_decimal)) as Hdlen
    by apply length_build_discretization_vector.
  split; [| split].
  - rewrite Hunfold.
    apply (for_each_never_raises IndexError (fun st => length (fst st) = length f)).
    + subst init. cbn [fst]. now rewrite length_insert, length_replicate.
    + intros [sol err] x Hin Hlen. cbn [fst] in Hlen.
      apply list_elem_of_lookup in Hin. destruct Hin as [k Hk].
      destruct (Hidx k x Hk) as [_ Hx]. split.
      * apply (solve_block_no_index_error f dx qbits_integer signed points_per_qubo
                 average_solutions Ht d_discret_elem
                 (Z.to_nat (qbits_integer + qbits_decimal)));
          [assumption | assumption | lia | assumption | assumption | assumption].
      * intros [sol' err'] Hblock. cbn [fst].
        apply solve_block_values_inv in Hblock.
        destruct Hblock as (y & Qm & vals & _ & _ & _ & Hassign).
        now rewrite (slice_assign_length _ _ _ _ _ Hassign).
  - intros Hsampler.
    destruct (solve_total sample_qubo Hsampler f dx y1 qbits_integer qbits_decimal signed
                points_per_qubo average_solutions) as (sol & err & Hsolve & _);
      [lia | exact Hpp | exact Hbits |].
    by exists sol, err.
  - intros solution error Hloop. rewrite Hunfold in Hloop.
    set (block_done := fun (j : nat) (sol : list (option Q)) =>
           let i := 1 + Z.of_nat j * points_per_qubo in
           let next_i := Z.min (i + points_per_qubo) n in
           exists y Qm vals,
             sol !! Z.to_nat (i - 1) = Some (Some y)
             /\ build_qubo_matrix (py_slice f (i - 1) next_i) dx y Ht d_discret_elem signed
                = Ok Qm
             /\ block_values average_solutions signed qbits_integer d_discret_elem
                             (sample_qubo Qm) = Ok vals
             /\ np_broadcast_to (map Some vals) (Z.to_nat (next_i - i))
                = Ok (py_slice sol i next_i)).
    apply (for_each_indexed_ok
             (fun k st =>
                length (fst st) = length f
                /\ assigned_upto (Z.to_nat (Z.min (1 + Z.of_nat k * points_per_qubo) n))
                                 (fst st)
                /\ forall j, (j < k)%nat -> block_done j (fst st))) in Hloop.
    + cbn [fst] in Hloop. destruct Hloop as (Hlen & Hall & Hblocks).
      subst indices. rewrite length_map, length_seq in Hall, Hblocks.
      split; [exact Hlen |]. split.
      * pose proof (block_count_reaches n points_per_qubo ltac:(lia)) as Hreach.
        fold count in Hreach. intros k Hk. apply Hall. lia.
      * intros i Hi Hmod next_i.
        pose proof (Z.div_mod (i - 1) points_per_qubo ltac:(lia)) as Hdiv.
        rewrite Hmod in Hdiv.
        set (q := (i - 1) / points_per_qubo) in *.
        assert (0 <= q) as Hq by (subst q; apply Z.div_pos; lia).
        assert (Z.to_nat q < count)%nat as Hlt.
        { subst count.
          assert (q + 1 <= (n - 1 + points_per_qubo - 1) / points_per_qubo)
            by (apply Z.div_le_lower_bound; nia).
          lia. }
        destruct (Hblocks (Z.to_nat q) Hlt) as (y & Qm & vals & Hy & HQm & Hvals & Hslice).
        cbv zeta in Hy, HQm, Hslice.
        replace (1 + Z.of_nat (Z.to_nat q) * points_per_qubo) with i in * by lia.
        exists y, Ht, Qm, vals. repeat split; assumption.
    + subst init. cbn [fst]. split; [now rewrite length_insert, length_replicate |].
      split; [| intros j Hj; lia].
      intros j Hj. assert (j = O) as -> by lia. exists y1.
      apply list_lookup_insert_eq. rewrite length_replicate. lia.
    + intros k x [sol err] [sol' err'] Hx (Hlen & Hupto & Hblocks) Hblock.
      cbn [fst] in *.
      destruct (Hidx k x Hx) as [Hxk Hxn].
      replace (Z.min (1 + Z.of_nat k * points_per_qubo) n) with x in Hupto by lia.
      apply solve_block_values_inv in Hblock. cbv zeta in Hblock.
      destruct Hblock as (y & Qm & vals & Hy & HQm & Hvals & Hassign).
      fold n in HQm, Hassign.
      set (next_i := Z.min (x + points_per_qubo) n) in *.
      assert (x < next_i <= n) as Hnext by (subst next_i; lia).
      split; [now rewrite (slice_assign_length _ _ _ _ _ Hassign) |]. split.
      * replace (Z.to_nat (Z.min (1 + Z.of_nat (S k) * points_per_qubo) n))
          with (py_clamp (length sol) next_i)
          by (rewrite py_clamp_nonneg by lia; subst next_i; lia).
        eapply slice_assign_assigned; [exact Hassign | |].
        -- apply Forall_fmap, Forall_true. intros v. by exists v.
        -- rewrite py_clamp_nonneg by lia.
           replace (length sol `min` Z.to_nat x)%nat with (Z.to_nat x) by lia.
           exact Hupto.
      * intros j Hj. destruct (Nat.eq_dec j k) as [-> | Hne].
        -- exists y, Qm, vals. cbv zeta. rewrite <- Hxk. fold next_i.
           split; [| split; [exact HQm | split; [exact Hvals |]]].
           ++ rewrite (slice_assign_lookup_before _ _ _ _ _ _ Hassign)
                by (rewrite py_clamp_nonneg by lia; lia).
              apply get_inv; [lia | exact Hy].
           ++ apply (slice_assign_slice sol); [lia | lia | exact Hassign].
        -- destruct (Hblocks j ltac:(lia)) as (yj & Qmj & valsj & Hyj & HQmj & Hvalsj & Hsl).
           cbv zeta in Hyj, HQmj, Hsl |- *.
           assert (1 + Z.of_nat j * points_per_qubo + points_per_qubo <= x) as Hbefore
             by nia.
           exists yj, Qmj, valsj.
           split; [| split; [exact HQmj | split; [exact Hvalsj |]]].
           ++ rewrite (slice_assign_lookup_before _ _ _ _ _ _ Hassign)
                by (rewrite py_clamp_nonneg by lia; lia).
              exact Hyj.
           ++ rewrite (slice_assign_slice_before _ _ _ _ _ _ _ Hassign) by lia.
              exact Hsl.
Qed.

End BlockLoop.

Lemma solve_blocks_cover_grid_witness :
  let f := [0%Q; 0%Q; 0%Q; 0%Q] in
  let n := Z.of_nat (length f) in
  let d_discret_elem := build_discretization_vector 1 1 in
  let result := solve zero_sampler f 1%Q 1%Q 1 1 true 2 true in
  result <> Raise IndexError
  /\ (sampler_well_formed zero_sampler ->
      exists solution error, result = Ok (solution, error))
  /\ forall solution error,
       result = Ok (solution, error) ->
       length solution = length f
       /\ (forall k, (k < length f)%nat -> exists v, solution !! k = Some (Some v))
       /\ forall i,
            1 <= i < n ->
            (i - 1) mod 2 = 0 ->
            let next_i := Z.min (i + 2) n in
            exists y H_discret_elem Qm vals,
              solution !! Z.to_nat (i - 1) = Some (Some y)
              /\ build_discretization_matrix 1 1 = Ok H_discret_elem
              /\ build_qubo_matrix (py_slice f (i - 1) next_i) 1%Q y H_discret_elem
                                   d_discret_elem true = Ok Qm
              /\ block_values true true 1 d_discret_elem (zero_sampler Qm) = Ok vals
              /\ np_broadcast_to (map Some vals) (Z.to_nat (next_i - i))
                 = Ok (py_slice solution i next_i).
Proof.
  apply (solve_blocks_cover_grid zero_sampler [0%Q; 0%Q; 0%Q; 0%Q] 1%Q 1%Q 1 1 true 2 true).
  - cbn. lia.
  - lia.
  - lia.
Defined.

(** C9, as stated, fails: with no binary variables and the signed
    representation the first block reads [d_discret_elem[0]] of an empty
    array, an index out of range, for a grid of two points and a block size
    of 1. *)
Lemma solve_signed_without_bits_index_error :
  solve zero_sampler [0%Q; 0%Q] 1%Q 0%Q 0 0 true 1 false = Raise IndexError.
Proof. reflexivity. Qed.
